(** * qingsongpiano: the audio core and the asset cache, embedded in Rocq

    The development follows the JavaScript sources class by class:

    - [Js]                      the pieces of the language the code leans on
                                (parseInt, Map, property lookup on plain objects);
    - [AudioConfig]             js/audio-config.js;
    - [Oscillator]              the Oscillator class (envelope, sustained notes,
                                note frequencies);
    - [AudioPlayer]             the AudioPlayer class (source registry);
    - [AudioPlaybackController] debounce and concurrency gate;
    - [AudioManager]            scheme switching, in its two variants;
    - [ServiceWorker]           the fetch handler of sw.js.

    Conventions.  A JavaScript number that measures sound (volume, velocity,
    frequency, seconds on the audio clock) is a binary64 [float]; a value of
    [Date.now()] is an integer of milliseconds in [Z].  Calls into the browser
    (Web Audio nodes, timers) are recorded, in order, in a list of [Call]s.
    The browser refuses some calls with an exception ([Browser.refuses]); the
    try block of Oscillator.playNote, where a volume of 0 or a short duration
    leads to such a call, is modelled with its handler.  Elsewhere the calls
    are taken to succeed, and the [catch] handlers that only guard against a
    throwing browser call are not exercised.  Strings are sequences of
    bytes. *)

From Stdlib Require Import ZArith List String Ascii Bool Lia Floats.
From stdpp Require Import base decidable option list strings gmap pretty.

Local Open Scope string_scope.
Local Open Scope Z_scope.

(** ** The JavaScript that the sources rely on *)

Module Js.

(** *** parseInt (radix omitted) *)

Definition isWhiteSpace (c : ascii) : bool :=
  let n := nat_of_ascii c in
  (Nat.eqb n 9 || Nat.eqb n 10 || Nat.eqb n 11 || Nat.eqb n 12
   || Nat.eqb n 13 || Nat.eqb n 32)%bool.

Fixpoint trimStart (s : string) : string :=
  match s with
  | String c r => if isWhiteSpace c then trimStart r else s
  | EmptyString => s
  end.

(** The value of a character as a digit, whatever the radix. *)
Definition digitValue (c : ascii) : option Z :=
  let n := Z.of_nat (nat_of_ascii c) in
  if (48 <=? n) && (n <=? 57) then Some (n - 48)
  else if (97 <=? n) && (n <=? 122) then Some (n - 87)
  else if (65 <=? n) && (n <=? 90) then Some (n - 55)
  else None.

(** Reads the longest prefix of digits of the radix; [acc] is [None] until
    a first digit has been read. *)
Fixpoint parseDigits (radix : Z) (s : string) (acc : option Z) : option Z :=
  match s with
  | String c r =>
      match digitValue c with
      | Some d =>
          if d <? radix
          then parseDigits radix r (Some (default 0 acc * radix + d))
          else acc
      | None => acc
      end
  | EmptyString => acc
  end.

(** [None] is NaN. *)
Definition parseInt (input : string) : option Z :=
  let s := trimStart input in
  let '(sign, s) :=
    match s with
    | String "-" r => (-1, r)
    | String "+" r => (1, r)
    | _ => (1, s)
    end in
  let '(radix, s) :=
    match s with
    | String "0" (String "x" r) => (16, r)
    | String "0" (String "X" r) => (16, r)
    | _ => (10, s)
    end in
  Z.mul sign <$> parseDigits radix s None.

(** [String(n)] and the rendering of a number in a template literal. *)
Definition toString (n : Z) : string := pretty n.
#[global] Arguments toString : simpl never.

(** An integer as a number; exact below 2^53 in magnitude. *)
Definition toNumber (z : Z) : float :=
  match z with
  | Z0 => PrimFloat.zero
  | Zpos _ => PrimFloat.of_uint63 (Uint63.of_Z z)
  | Zneg _ => PrimFloat.opp (PrimFloat.of_uint63 (Uint63.of_Z (- z)))
  end.

(** Truthiness of a number: neither zero nor NaN. *)
Definition truthy (x : float) : bool :=
  negb (PrimFloat.is_zero x || PrimFloat.is_nan x).

(** *** String.prototype.startsWith and includes *)

Fixpoint startsWith (s p : string) : bool :=
  match p, s with
  | EmptyString, _ => true
  | String a p', String b s' => if decide (a = b) then startsWith s' p' else false
  | String _ _, EmptyString => false
  end.

Fixpoint includes (s p : string) : bool :=
  startsWith s p ||
  match s with
  | String _ s' => includes s' p
  | EmptyString => false
  end.

(** *** Plain objects used as dictionaries

    An object literal inherits from [Object.prototype], so [o[k]] on a key
    that the object does not own still finds the members of the prototype.
    Own properties are a finite map; the inherited names are fixed. *)

Definition objectPrototypeKeys : list string :=
  [ "constructor"; "__defineGetter__"; "__defineSetter__"; "hasOwnProperty";
    "__lookupGetter__"; "__lookupSetter__"; "isPrototypeOf";
    "propertyIsEnumerable"; "toString"; "valueOf"; "__proto__";
    "toLocaleString" ].

Definition inherited (k : string) : bool :=
  bool_decide (k ∈ objectPrototypeKeys).

Inductive Property (V : Type) : Type :=
| Own (v : V)      (* a property of the object itself *)
| Inherited        (* a function or object found on Object.prototype *)
| Undefined.
Arguments Own {V} v.
Arguments Inherited {V}.
Arguments Undefined {V}.

Definition getProperty {V} (o : gmap string V) (k : string) : Property V :=
  match o !! k with
  | Some v => Own v
  | None => if inherited k then Inherited else Undefined
  end.

(** [o[k] = v] for a primitive [v]: the accessor [__proto__] ignores it. *)
Definition setProperty {V} (o : gmap string V) (k : string) (v : V)
  : gmap string V :=
  if decide (k = "__proto__") then o else <[k := v]> o.

(** [x || d] on integers. *)
Definition orDefault (x d : Z) : Z := if x =? 0 then d else x.

(** [x || d] where [x] is a string or [undefined]. *)
Definition orString (x : option string) (d : string) : string :=
  match x with
  | Some s => if decide (s = "") then d else s
  | None => d
  end.

End Js.

(** *** Map: keys in insertion order *)

Module JsMap.

Abbreviation t V := (list (string * V)).

Section Defs.
Context {V : Type}.

Definition empty : t V := [].

Fixpoint get (m : t V) (k : string) : option V :=
  match m with
  | [] => None
  | (k', v) :: r => if decide (k' = k) then Some v else get r k
  end.

Definition has (m : t V) (k : string) : bool :=
  match get m k with Some _ => true | None => false end.

(** An existing key keeps its place, a new one goes last. *)
Fixpoint set (m : t V) (k : string) (v : V) : t V :=
  match m with
  | [] => [(k, v)]
  | (k', v') :: r =>
      if decide (k' = k) then (k, v) :: r else (k', v') :: set r k v
  end.

Fixpoint delete (m : t V) (k : string) : t V :=
  match m with
  | [] => []
  | (k', v') :: r =>
      if decide (k' = k) then r else (k', v') :: delete r k
  end.

Definition size (m : t V) : nat := length m.
Definition keys (m : t V) : list string := map fst m.
Definition clear (_ : t V) : t V := [].

(** What the constructor and the methods keep true. *)
Definition wf (m : t V) : Prop := NoDup (keys m).
End Defs.
End JsMap.

(** *** Math.max and Math.min on two numbers *)

Module JsMath.

Definition max (a b : float) : float :=
  if (PrimFloat.is_nan a || PrimFloat.is_nan b)%bool then PrimFloat.nan
  else if PrimFloat.ltb a b then b
  else if PrimFloat.ltb b a then a
  else if PrimFloat.get_sign a then b else a.

Definition min (a b : float) : float :=
  if (PrimFloat.is_nan a || PrimFloat.is_nan b)%bool then PrimFloat.nan
  else if PrimFloat.ltb a b then a
  else if PrimFloat.ltb b a then b
  else if PrimFloat.get_sign a then a else b.

(** [x || d] where [x] may be [undefined]. *)
Definition orDefault (x : option float) (d : float) : float :=
  match x with
  | Some v => if Js.truthy v then v else d
  | None => d
  end.

End JsMath.

(** ** js/audio-config.js *)

#[local] Set Warnings "-inexact-float".

Module AudioConfig.

Record NoteMapping : Type :=
  { file : string; start : float; duration : float }.

Definition cdn : string :=
  "https://cdn.jsdelivr.net/gh/bruce-peng24/qingsongpiano@main/audio/f4-b5/".

Definition sample (path : string) : NoteMapping :=
  {| file := path; start := 0%float; duration := 1.5%float |}.

Definition NOTES_MAP : gmap string NoteMapping :=
  list_to_map
    [ ("1", sample (cdn +:+ "a01.mp3")); ("2", sample (cdn +:+ "a02.mp3"));
      ("3", sample (cdn +:+ "a03.mp3")); ("4", sample (cdn +:+ "a04.mp3"));
      ("5", sample (cdn +:+ "a05.mp3")); ("6", sample (cdn +:+ "a06.mp3"));
      ("7", sample (cdn +:+ "a07.mp3")); ("8", sample (cdn +:+ "a08.mp3"));
      ("9", sample (cdn +:+ "a09.mp3")); ("10", sample (cdn +:+ "a10.mp3"));
      ("11", sample (cdn +:+ "a11.mp3")); ("12", sample (cdn +:+ "a12.mp3"));
      ("13", sample (cdn +:+ "a13.mp3")); ("14", sample (cdn +:+ "a14.mp3"));
      ("15", sample (cdn +:+ "a15.mp3")); ("16", sample (cdn +:+ "a16.mp3"));
      ("17", sample (cdn +:+ "a17.mp3")); ("18", sample (cdn +:+ "a18.mp3"));
      ("19", sample (cdn +:+ "a19.mp3")) ].

(** AUDIO_CONFIG *)
Definition maxConcurrent : Z := 40.
Definition debounceTime : Z := 150.
Definition defaultVolume : float := 0.7%float.

Definition NOTE_FREQUENCIES : list float :=
  [ 261.63; 277.18; 293.66; 311.13; 329.63; 349.23; 369.99; 392.00;
    415.30; 440.00; 466.16; 493.88; 523.25; 554.37; 587.33; 622.25;
    659.25; 698.46; 739.99 ]%float.

End AudioConfig.

(** ** What the browser provides

    Audio nodes are named by the order of their creation.  A call is recorded
    with the node it addresses and its arguments. *)

Module Browser.

Inductive Target : Type :=
| Node (h : nat)
| Destination.

(** The level handed to an automation method: a number, or the parameter's
    own [value] as read at the time of the call. *)
Inductive Level : Type :=
| Exactly (v : float)
| CurrentValue.

(** The function objects the code hands to the browser. *)
Inductive Callback : Type :=
| CleanupSource (sourceId : string)            (* the registry's cleanupSource *)
| OscillatorCleanupSource (sourceId : string)  (* the Oscillator's cleanupSource *)
| StopAndDisconnect (oscillator gainNode : nat)
| ElementCleanup (sourceId : string) (element : nat)
| BufferCleanup (sourceId : string) (source gainNode : nat).

Inductive Call : Type :=
| CreateOscillator (h : nat)
| CreateGain (h : nat)
| Connect (h : nat) (to : Target)
| SetFrequency (h : nat) (f : float)
| SetType (h : nat) (type : string)
| SetValueAtTime (h : nat) (v : Level) (t : float)
| LinearRampToValueAtTime (h : nat) (v : float) (t : float)
| ExponentialRampToValueAtTime (h : nat) (v : float) (t : float)
| CancelScheduledValues (h : nat) (t : float)
| Start (h : nat) (t : float)
| Stop (h : nat) (t : float)
| Disconnect (h : nat)
| OnEnded (h : nat) (f : Callback)
| SetTimeout (f : Callback) (ms : float)
| NewAudio (h : nat) (src : option string)
| SetElementVolume (h : nat) (v : float)
| Play (h : nat)
| Pause (h : nat)
| CreateBufferSource (h : nat)
| SetGainValue (h : nat) (v : float).

(** The calls that the browser refuses.  The methods of the Web Audio
    interface throw, and do nothing, when a time is negative or no finite
    number, when a level (a [float] of the interface) is no finite number of
    single precision, when the target of an exponential ramp is 0 in single
    precision, and when the type of an oscillator is set to 'custom'. *)

(** A time of the interface. *)
Definition isTime (t : float) : bool :=
  (PrimFloat.leb 0 t && PrimFloat.ltb t PrimFloat.infinity)%bool.

(** A level of the interface: the double rounds to a finite number of single
    precision, which those below 2^128 - 2^103 do. *)
Definition isLevel (v : float) : bool :=
  PrimFloat.ltb (PrimFloat.abs v) 0x1.ffffffp127%float.

(** The level rounds to 0 in single precision: it is at most 2^-150. *)
Definition isZeroLevel (v : float) : bool :=
  PrimFloat.leb (PrimFloat.abs v) 0x1p-150%float.

Definition refuses (c : Call) : bool :=
  match c with
  | SetFrequency _ f => negb (isLevel f)
  | SetType _ type => bool_decide (type = "custom")
  | SetValueAtTime _ (Exactly v) t => negb (isLevel v) || negb (isTime t)
  | SetValueAtTime _ CurrentValue t => negb (isTime t)
  | LinearRampToValueAtTime _ v t => negb (isLevel v) || negb (isTime t)
  | ExponentialRampToValueAtTime _ v t =>
      negb (isLevel v) || isZeroLevel v || negb (isTime t)
  | CancelScheduledValues _ t => negb (isTime t)
  | Start _ t => negb (isTime t)
  | Stop _ t => negb (isTime t)
  | _ => false
  end.

(** The calls of a try block that take effect: those before the first one
    that is refused. *)
Fixpoint accepted (l : list Call) : list Call :=
  match l with
  | [] => []
  | c :: rest => if refuses c then [] else c :: accepted rest
  end.

(** The audio context as the code sees it: the nodes made so far and the
    calls issued, oldest first. *)
Record AudioContext : Type :=
  { nextNode : nat; calls : list Call }.

Definition fresh : AudioContext := {| nextNode := 0; calls := [] |}.

(** A decoded sample. *)
Record AudioBuffer : Type := { bufferDuration : float }.

(** What one entry into the code reads from its surroundings. *)
Record Env : Type :=
  { currentTime : float;  (* audioContext.currentTime *)
    now : Z;              (* Date.now() at the top of the controller *)
    idStamp : Z;          (* Date.now() inside a source id *)
    startStamp : Z;       (* Date.now() stored as startTime *)
    random : string       (* Math.random().toString(36).substring(2, 11) *) }.

(** The host's [Math.pow] and the table of window.AudioConfig, absent when
    the configuration script has not run. *)
Record Host : Type :=
  { Math_pow : float -> float -> float;
    NOTE_FREQUENCIES : option (list float) }.

(** The doubles within one unit in the last place of the twelfth root of
    two; 0x1.0f38f92d97963p+0 is the nearest one. *)
Definition semitoneValues : list float :=
  [ 0x1.0f38f92d97962p+0; 0x1.0f38f92d97963p+0; 0x1.0f38f92d97964p+0 ]%float.

(** The host computes Math.pow(2, 1 / 12) to within one unit in the last
    place. *)
Definition accurateSemitone (host : Host) : Prop :=
  Math_pow host 2 (1 / 12) ∈ semitoneValues.

(** audio-config.js has run. *)
Definition configured (host : Host) : Prop :=
  NOTE_FREQUENCIES host = Some AudioConfig.NOTE_FREQUENCIES.

(** A host for the examples: the configuration is loaded, and Math.pow is
    tabulated at the one argument that the notes of the table need. *)
Definition exampleHost : Host :=
  {| Math_pow := fun x y =>
       if (PrimFloat.eqb x 2 && PrimFloat.eqb y (1 / 12))%bool
       then 0x1.0f38f92d97963p+0%float
       else PrimFloat.nan;
     NOTE_FREQUENCIES := Some AudioConfig.NOTE_FREQUENCIES |}.

End Browser.

(** ** A state monad for methods that mutate [this] and talk to the browser *)

Module Run.

Definition M (S A : Type) : Type := S -> A * S.

Definition ret {S A} (a : A) : M S A := fun s => (a, s).

Definition bind {S A B} (m : M S A) (k : A -> M S B) : M S B :=
  fun s => let (a, s') := m s in k a s'.

Definition gets {S A} (f : S -> A) : M S A := fun s => (f s, s).

Definition modify {S} (f : S -> S) : M S unit := fun s => (tt, f s).

(** Runs the body once per element, in order. *)
Fixpoint forEach {S A} (l : list A) (body : A -> M S unit) : M S unit :=
  match l with
  | [] => ret tt
  | x :: r => bind (body x) (fun _ => forEach r body)
  end.

(** Statements of a try block: [None] is an exception thrown, after which
    the rest of the block is skipped. *)
Definition andThen {S} (m k : M S (option unit)) : M S (option unit) :=
  bind m (fun done =>
    match done with
    | Some _ => k
    | None => ret None
    end).

End Run.

Declare Scope run_scope.
Delimit Scope run_scope with run.
Notation "'let*' x := c 'in' k" := (Run.bind c (fun x => k))
  (at level 10, x name, c at level 100, k at level 200) : run_scope.
Notation "c ;; k" := (Run.bind c (fun _ => k))
  (at level 100, k at level 200, right associativity) : run_scope.
Notation "c ;;; k" := (Run.andThen c k)
  (at level 100, k at level 200, right associativity) : run_scope.

(** ** The Oscillator class *)

Module Oscillator.
Import Browser.

Record Options : Type :=
  { type : string;
    volume : float;
    duration : float;
    attack : float;
    decay : float;
    sustain : float;
    release : float }.

(** An options object passed by a caller: any field may be missing.
    [o_sustainMode] and [o_pitch] are read by the constructor and by
    [playNote] only. *)
Record PartialOptions : Type :=
  { o_type : option string;
    o_volume : option float;
    o_duration : option float;
    o_attack : option float;
    o_decay : option float;
    o_sustain : option float;
    o_release : option float;
    o_sustainMode : bool;
    o_pitch : option string }.

Definition noOptions : PartialOptions :=
  {| o_type := None; o_volume := None; o_duration := None; o_attack := None;
     o_decay := None; o_sustain := None; o_release := None;
     o_sustainMode := false; o_pitch := None |}.

Record SourceInfo : Type :=
  { oscillator : nat;
    gainNode : nat;
    noteName : string;
    startTime : float }.

Record SustainedInfo : Type :=
  { id : string;
    s_oscillator : nat;
    s_gainNode : nat }.

Record t : Type :=
  { options : Options;
    activeSources : JsMap.t SourceInfo;
    sustainMode : bool;
    activeSustainedNotes : JsMap.t SustainedInfo;
    currentPitch : string }.

(** The instance together with the audio context it was built on. *)
Record Heap : Type :=
  { this : t; audioContext : AudioContext }.

Definition withOptions (f : Options -> Options) (o : t) : t :=
  {| options := f (options o); activeSources := activeSources o;
     sustainMode := sustainMode o;
     activeSustainedNotes := activeSustainedNotes o;
     currentPitch := currentPitch o |}.

Definition withActiveSources
  (f : JsMap.t SourceInfo -> JsMap.t SourceInfo) (o : t) : t :=
  {| options := options o; activeSources := f (activeSources o);
     sustainMode := sustainMode o;
     activeSustainedNotes := activeSustainedNotes o;
     currentPitch := currentPitch o |}.

Definition withSustained
  (f : JsMap.t SustainedInfo -> JsMap.t SustainedInfo) (o : t) : t :=
  {| options := options o; activeSources := activeSources o;
     sustainMode := sustainMode o;
     activeSustainedNotes := f (activeSustainedNotes o);
     currentPitch := currentPitch o |}.

Definition withSustainMode (b : bool) (o : t) : t :=
  {| options := options o; activeSources := activeSources o;
     sustainMode := b;
     activeSustainedNotes := activeSustainedNotes o;
     currentPitch := currentPitch o |}.

Definition withPitch (p : string) (o : t) : t :=
  {| options := options o; activeSources := activeSources o;
     sustainMode := sustainMode o;
     activeSustainedNotes := activeSustainedNotes o;
     currentPitch := p |}.

Definition onThis (f : t -> t) (s : Heap) : Heap :=
  {| this := f (this s); audioContext := audioContext s |}.

Local Open Scope run_scope.

(** One call into the browser. *)
Definition call (c : Call) : Run.M Heap unit :=
  Run.modify (fun s =>
    {| this := this s;
       audioContext :=
         {| nextNode := nextNode (audioContext s);
            calls := calls (audioContext s) ++ [c] |} |}).

(** createOscillator() and createGain(): a new node, and the call. *)
Definition create (mk : nat -> Call) : Run.M Heap nat :=
  fun s =>
    let h := nextNode (audioContext s) in
    (h, {| this := this s;
           audioContext :=
             {| nextNode := S h;
                calls := calls (audioContext s) ++ [mk h] |} |}).

(** One call into the browser inside a try block: a call that the browser
    refuses has no effect and throws. *)
Definition attempt (c : Call) : Run.M Heap (option unit) :=
  if refuses c then Run.ret None else (call c ;; Run.ret (Some tt)).

(** constructor(audioContext, options) *)
Definition new (o : PartialOptions) : t :=
  {| options :=
       {| type := Js.orString (o_type o) "sine";
          volume :=
            JsMath.max 0 (JsMath.min 1 (JsMath.orDefault (o_volume o) 0.3));
          duration := JsMath.max 0.1 (JsMath.orDefault (o_duration o) 0.5);
          attack := JsMath.max 0 (JsMath.orDefault (o_attack o) 0.01);
          decay := JsMath.max 0 (JsMath.orDefault (o_decay o) 0.1);
          sustain :=
            JsMath.max 0 (JsMath.min 1 (JsMath.orDefault (o_sustain o) 0.3));
          release := JsMath.max 0 (JsMath.orDefault (o_release o) 0.5) |}%float;
     activeSources := JsMap.empty;
     sustainMode := o_sustainMode o;
     activeSustainedNotes := JsMap.empty;
     currentPitch := Js.orString (o_pitch o) "medium" |}.

Section Methods.
Variable host : Host.
Variable env : Env.

(** Math.pow(2, 1 / 12) *)
Definition semitone : float := Math_pow host 2 (1 / 12).

(** The switch on this.currentPitch. *)
Definition pitchShift (pitch : string) (frequency : float) : float :=
  if decide (pitch = "low") then (frequency * 0.5)%float
  else if decide (pitch = "high") then (frequency * 2)%float
  else frequency.

(** One semitone up for the sine and the triangle wave. *)
Definition tuned (waveform : string) (frequency : float) : float :=
  if (bool_decide (waveform = "sine") || bool_decide (waveform = "triangle"))%bool
  then (frequency * semitone)%float
  else frequency.

(** getFrequencyForNote(noteName).  Nothing in the body throws, so the
    handler that returns 440 is not reached. *)
Definition getFrequencyForNote (o : t) (noteName : string) : float :=
  let noteIndex := (fun n => n - 1) <$> Js.parseInt noteName in
  let fromTable :=
    match NOTE_FREQUENCIES host, noteIndex with
    | Some frequencies, Some i =>
        if ((0 <=? i) && (i <? Z.of_nat (length frequencies)))%bool
        then frequencies !! Z.to_nat i
        else None
    | _, _ => None
    end in
  match fromTable with
  | Some frequency =>
      tuned (type (options o)) (pitchShift (currentPitch o) frequency)
  | None =>
      let baseFreq := pitchShift (currentPitch o) 261.63%float in
      let index :=
        match noteIndex with
        | Some i => Js.toNumber i
        | None => PrimFloat.nan
        end in
      tuned (type (options o))
        (baseFreq * Math_pow host 2 (index / 12))%float
  end.

(** applyADSREnvelope(gainParam, peakVolume, options), which playNote calls
    inside its try block. *)
Definition applyADSREnvelope (gain : nat) (peakVolume : float)
  (opts : Options) : Run.M Heap (option unit) :=
  let now := currentTime env in
  attempt (SetValueAtTime gain (Exactly 0) now) ;;;
  attempt (LinearRampToValueAtTime gain peakVolume (now + attack opts)) ;;;
  attempt (ExponentialRampToValueAtTime gain (peakVolume * sustain opts)
             (now + attack opts + decay opts)) ;;;
  let sustainEndTime := (now + duration opts - release opts)%float in
  attempt (SetValueAtTime gain (Exactly (peakVolume * sustain opts))
             sustainEndTime) ;;;
  attempt (ExponentialRampToValueAtTime gain 0.001 (now + duration opts)).

(** { ...this.options, ...customOptions } *)
Definition merge (base : Options) (c : PartialOptions) : Options :=
  {| type := default (type base) (o_type c);
     volume := default (volume base) (o_volume c);
     duration := default (duration base) (o_duration c);
     attack := default (attack base) (o_attack c);
     decay := default (decay base) (o_decay c);
     sustain := default (sustain base) (o_sustain c);
     release := default (release base) (o_release c) |}.

(** playSustainedNote(noteName, velocity, options).  The calls of its try
    block are the assignment of the frequency and of the type, one
    setValueAtTime at the current time and the start: the browser refuses
    them only for a frequency or a level that is no finite number and for
    the type 'custom', which no documented input gives; the handler of
    that case is left out. *)
Definition playSustainedNote (noteName : string) (velocity : float)
  (opts : Options) : Run.M Heap (option string) :=
  let* held := Run.gets (fun s => JsMap.get (activeSustainedNotes (this s)) noteName) in
  match held with
  | Some info => Run.ret (Some (id info))
  | None =>
      let* frequency := Run.gets (fun s => getFrequencyForNote (this s) noteName) in
      if negb (Js.truthy frequency) then Run.ret None
      else
        let* oscillator := create CreateOscillator in
        let* gainNode := create CreateGain in
        call (Connect oscillator (Node gainNode)) ;;
        call (Connect gainNode Destination) ;;
        call (SetFrequency oscillator frequency) ;;
        call (SetType oscillator (type opts)) ;;
        call (SetValueAtTime gainNode (Exactly (velocity * volume opts))
                (currentTime env)) ;;
        call (Start oscillator (currentTime env)) ;;
        let sourceId :=
          "sustain_" +:+ noteName +:+ "_" +:+ Js.toString (idStamp env) in
        Run.modify (onThis (withSustained (fun m =>
          JsMap.set m noteName
            {| id := sourceId; s_oscillator := oscillator;
               s_gainNode := gainNode |}))) ;;
        Run.ret (Some sourceId)
  end.

(** playNote(noteName, velocity, customOptions).  Once the two nodes are
    made and connected, a call that the browser refuses ends the try block:
    the handler answers null, and the voice is not entered in the table. *)
Definition playNote (noteName : string) (velocity : float)
  (customOptions : PartialOptions) : Run.M Heap (option string) :=
  let* base := Run.gets (fun s => options (this s)) in
  let opts := merge base customOptions in
  let* sustaining := Run.gets (fun s => sustainMode (this s)) in
  if (o_sustainMode customOptions || sustaining)%bool
  then playSustainedNote noteName velocity opts
  else
    let* frequency := Run.gets (fun s => getFrequencyForNote (this s) noteName) in
    if negb (Js.truthy frequency) then Run.ret None
    else
      let* oscillator := create CreateOscillator in
      let* gainNode := create CreateGain in
      call (Connect oscillator (Node gainNode)) ;;
      call (Connect gainNode Destination) ;;
      let startTime := currentTime env in
      let sourceId :=
        "osc_" +:+ noteName +:+ "_" +:+ Js.toString (idStamp env)
          +:+ "_" +:+ random env in
      let* done :=
        (attempt (SetFrequency oscillator frequency) ;;;
         attempt (SetType oscillator (type opts)) ;;;
         applyADSREnvelope gainNode (velocity * volume opts) opts ;;;
         attempt (Start oscillator startTime) ;;;
         attempt (Stop oscillator (startTime + duration opts)) ;;;
         Run.modify (onThis (withActiveSources (fun m =>
           JsMap.set m sourceId
             {| oscillator := oscillator; gainNode := gainNode;
                noteName := noteName; startTime := startTime |}))) ;;
         call (OnEnded oscillator (OscillatorCleanupSource sourceId)) ;;
         Run.ret (Some tt)) in
      match done with
      | Some _ => Run.ret (Some sourceId)
      | None => Run.ret None
      end.

(** stopSustainedNote(noteName) *)
Definition stopSustainedNote (noteName : string) : Run.M Heap unit :=
  let* noteInfo := Run.gets (fun s => JsMap.get (activeSustainedNotes (this s)) noteName) in
  match noteInfo with
  | None => Run.ret tt
  | Some info =>
      let* releaseTime := Run.gets (fun s => duration (options (this s))) in
      let now := currentTime env in
      call (CancelScheduledValues (s_gainNode info) now) ;;
      call (SetValueAtTime (s_gainNode info) CurrentValue now) ;;
      call (ExponentialRampToValueAtTime (s_gainNode info) 0.001
              (now + releaseTime)) ;;
      call (SetTimeout (StopAndDisconnect (s_oscillator info) (s_gainNode info))
              (releaseTime * 1000)) ;;
      Run.modify (onThis (withSustained (fun m => JsMap.delete m noteName)))
  end.

(** stopAllSustainedNotes() *)
Definition stopAllSustainedNotes : Run.M Heap unit :=
  let* names := Run.gets (fun s => JsMap.keys (activeSustainedNotes (this s))) in
  Run.forEach names stopSustainedNote ;;
  Run.modify (onThis (withSustained JsMap.clear)).

(** cleanupSource(sourceId) *)
Definition cleanupSource (sourceId : string) : Run.M Heap unit :=
  let* sourceInfo := Run.gets (fun s => JsMap.get (activeSources (this s)) sourceId) in
  match sourceInfo with
  | None => Run.ret tt
  | Some info =>
      call (CancelScheduledValues (gainNode info) (currentTime env)) ;;
      call (SetValueAtTime (gainNode info) (Exactly 0) (currentTime env)) ;;
      call (Disconnect (gainNode info)) ;;
      call (Stop (oscillator info) 0) ;;
      call (Disconnect (oscillator info)) ;;
      Run.modify (onThis (withActiveSources (fun m => JsMap.delete m sourceId)))
  end.

(** stopNote(noteName) *)
Definition stopNote (name : string) : Run.M Heap unit :=
  let* sourcesToStop := Run.gets (fun s =>
    JsMap.keys (filter (fun e => noteName (snd e) = name) (activeSources (this s)))) in
  Run.forEach sourcesToStop cleanupSource.

(** stopAll() *)
Definition stopAll : Run.M Heap unit :=
  let* ids := Run.gets (fun s => JsMap.keys (activeSources (this s))) in
  Run.forEach ids cleanupSource ;;
  Run.modify (onThis (withActiveSources JsMap.clear)) ;;
  stopAllSustainedNotes.

End Methods.

(** The setters. *)

Definition setType (waveform : string) (o : t) : t :=
  if bool_decide (waveform ∈ ["sine"; "square"; "triangle"; "sawtooth"])
  then withOptions (fun p =>
         {| type := waveform; volume := volume p; duration := duration p;
            attack := attack p; decay := decay p; sustain := sustain p;
            release := release p |}) o
  else o.

Definition setVolume (v : float) (o : t) : t :=
  withOptions (fun p =>
    {| type := type p; volume := JsMath.max 0 (JsMath.min 1 v);
       duration := duration p; attack := attack p; decay := decay p;
       sustain := sustain p; release := release p |}) o.

Definition setDuration (d : float) (o : t) : t :=
  withOptions (fun p =>
    {| type := type p; volume := volume p;
       duration := JsMath.max 0.1 d; attack := attack p; decay := decay p;
       sustain := sustain p; release := release p |}) o.

Definition setPitch (pitch : string) (o : t) : t := withPitch pitch o.

(** OscillatorManager: defaultOptions and createOscillator. *)
Definition defaultOptions : PartialOptions :=
  {| o_type := Some "triangle"; o_volume := Some 0.3%float;
     o_duration := Some 0.5%float; o_attack := Some 0.01%float;
     o_decay := Some 0.1%float; o_sustain := Some 0.3%float;
     o_release := Some 0.2%float; o_sustainMode := false; o_pitch := None |}.

Definition createOscillator : t := new defaultOptions.

(** What the rest of the program does to an instance: its methods, and the
    assignment to [sustainMode] made by the control panel. *)
Inductive Method : Type :=
| DoPlayNote (noteName : string) (velocity : float) (customOptions : PartialOptions)
| DoPlaySustainedNote (noteName : string) (velocity : float) (opts : Options)
| DoStopSustainedNote (noteName : string)
| DoStopAllSustainedNotes
| DoCleanupSource (sourceId : string)
| DoStopNote (noteName : string)
| DoStopAll
| DoSetType (waveform : string)
| DoSetVolume (v : float)
| DoSetDuration (d : float)
| DoSetPitch (pitch : string)
| DoSetSustainMode (b : bool).

Definition invoke (host : Host) (m : Env * Method) (s : Heap) : Heap :=
  let (env, method) := m in
  match method with
  | DoPlayNote noteName velocity customOptions =>
      snd (playNote host env noteName velocity customOptions s)
  | DoPlaySustainedNote noteName velocity opts =>
      snd (playSustainedNote host env noteName velocity opts s)
  | DoStopSustainedNote noteName => snd (stopSustainedNote env noteName s)
  | DoStopAllSustainedNotes => snd (stopAllSustainedNotes env s)
  | DoCleanupSource sourceId => snd (cleanupSource env sourceId s)
  | DoStopNote noteName => snd (stopNote env noteName s)
  | DoStopAll => snd (stopAll env s)
  | DoSetType waveform => onThis (setType waveform) s
  | DoSetVolume v => onThis (setVolume v) s
  | DoSetDuration d => onThis (setDuration d) s
  | DoSetPitch pitch => onThis (setPitch pitch) s
  | DoSetSustainMode b => onThis (withSustainMode b) s
  end.

Definition run (host : Host) (methods : list (Env * Method)) (s : Heap) : Heap :=
  fold_left (fun s m => invoke host m s) methods s.

(** A new instance on a new audio context. *)
Definition initial (o : PartialOptions) : Heap :=
  {| this := new o; audioContext := fresh |}.

(** The envelope in the words of the specification: from 0 at [t0], a linear
    ramp to [V] at [t0 + A], an exponential ramp to [V * S] at [t0 + A + D],
    [V * S] held until [t0 + T - R], an exponential ramp to the floor 0.001
    at [t0 + T]. *)
Definition adsr (gain : nat) (t0 V A D S R T : float) : list Call :=
  [ SetValueAtTime gain (Exactly 0) t0;
    LinearRampToValueAtTime gain V (t0 + A);
    ExponentialRampToValueAtTime gain (V * S) (t0 + A + D);
    SetValueAtTime gain (Exactly (V * S)) (t0 + T - R);
    ExponentialRampToValueAtTime gain 0.001 (t0 + T) ].

End Oscillator.

(** ** The AudioPlayer class

    The registry [activeSources] is filled by [playNoteWithAudioFile] only:
    the oscillator path keeps its voices in the Oscillator instance, and the
    sprite path reads [AUDIO_SPRITE_TIMINGS], a table that audio-config.js
    does not define, so that its lookup throws and the method answers null. *)

Module AudioPlayer.
Import Browser.

Record SourceInfo : Type :=
  { source : nat;
    gainNode : option nat;
    noteName : string;
    startTime : Z;
    type : string }.

Record t : Type :=
  { activeSources : JsMap.t SourceInfo;
    volume : float;
    audioBuffer : bool (* whether this.audioBuffer is set *) }.

(** The player, the objects it reaches through [window], and the browser. *)
Record World : Type :=
  { player : t;
    oscillators : JsMap.t Oscillator.t;  (* OscillatorManager.oscillators *)
    notesMap : option (gmap string AudioConfig.NoteMapping);
                                         (* window.audioManager.notesMap *)
    context : AudioContext }.

Definition withSources (f : JsMap.t SourceInfo -> JsMap.t SourceInfo)
  (w : World) : World :=
  {| player :=
       {| activeSources := f (activeSources (player w));
          volume := volume (player w);
          audioBuffer := audioBuffer (player w) |};
     oscillators := oscillators w; notesMap := notesMap w;
     context := context w |}.

Definition withContext (f : AudioContext -> AudioContext) (w : World) : World :=
  {| player := player w; oscillators := oscillators w;
     notesMap := notesMap w; context := f (context w) |}.

Local Open Scope run_scope.

Definition call (c : Call) : Run.M World unit :=
  Run.modify (withContext (fun a =>
    {| nextNode := nextNode a; calls := calls a ++ [c] |})).

Definition create (mk : nat -> Call) : Run.M World nat :=
  fun w =>
    let h := nextNode (context w) in
    (h, withContext (fun a =>
          {| nextNode := S h; calls := calls a ++ [mk h] |}) w).

(** constructor(audioContext) *)
Definition new : t :=
  {| activeSources := JsMap.empty;
     volume := AudioConfig.defaultVolume;
     audioBuffer := false |}.

Section Methods.
Variable host : Host.
Variable env : Env.

(** cleanupSource(sourceId).  An audio element has neither [stop] nor
    [disconnect]; a buffer source, which always comes with a gain node,
    has both. *)
Definition cleanupSource (sourceId : string) : Run.M World unit :=
  let* sourceInfo := Run.gets (fun w => JsMap.get (activeSources (player w)) sourceId) in
  match sourceInfo with
  | None => Run.ret tt
  | Some info =>
      match gainNode info with
      | Some g =>
          call (CancelScheduledValues g (currentTime env)) ;;
          call (SetValueAtTime g (Exactly 0) (currentTime env)) ;;
          call (Disconnect g) ;;
          call (Stop (source info) 0) ;;
          call (Disconnect (source info))
      | None => Run.ret tt
      end ;;
      Run.modify (withSources (fun m => JsMap.delete m sourceId))
  end.

(** stopNote(noteName) *)
Definition stopNote (name : string) : Run.M World unit :=
  let* sourcesToStop := Run.gets (fun w =>
    JsMap.keys (filter (fun e => noteName (snd e) = name)
                  (activeSources (player w)))) in
  Run.forEach sourcesToStop (fun id =>
    let* sourceInfo := Run.gets (fun w => JsMap.get (activeSources (player w)) id) in
    match sourceInfo ≫= gainNode with
    | Some g =>
        call (ExponentialRampToValueAtTime g 0.001 (currentTime env + 0.02)) ;;
        call (LinearRampToValueAtTime g 0.001 (currentTime env + 0.03)) ;;
        call (SetTimeout (CleanupSource id) 25)
    | None => cleanupSource id
    end).

(** The scan of stopOldestSource: [None] for the time is Infinity. *)
Fixpoint oldest (entries : list (string * SourceInfo))
  (oldestId : option string) (oldestTime : option Z) : option string :=
  match entries with
  | [] => oldestId
  | (id, sourceInfo) :: rest =>
      if match oldestTime with
         | None => true
         | Some t => startTime sourceInfo <? t
         end
      then oldest rest (Some id) (Some (startTime sourceInfo))
      else oldest rest oldestId oldestTime
  end.

(** stopOldestSource() *)
Definition stopOldestSource : Run.M World unit :=
  let* sources := Run.gets (fun w => activeSources (player w)) in
  if Nat.eqb (JsMap.size sources) 0 then Run.ret tt
  else
    match oldest sources None None with
    | Some oldestId =>
        if decide (oldestId = "") then Run.ret tt else cleanupSource oldestId
    | None => Run.ret tt
    end.

(** The two lookups of playNoteWithAudioFile; the second is tried when the
    first finds nothing. *)
Definition noteMapping (w : World) (name : string)
  : Js.Property AudioConfig.NoteMapping :=
  match
    match notesMap w with
    | Some m => Js.getProperty m name
    | None => Js.Undefined
    end
  with
  | Js.Undefined => Js.getProperty AudioConfig.NOTES_MAP name
  | found => found
  end.

(** playNoteWithAudioFile(noteName, velocity) *)
Definition playNoteWithAudioFile (name : string) (velocity : float)
  : Run.M World (option string) :=
  let* mapping := Run.gets (fun w => noteMapping w name) in
  let play (audioFile : option string) : Run.M World (option string) :=
    let* audioElement := create (fun h => NewAudio h audioFile) in
    let* vol := Run.gets (fun w => volume (player w)) in
    call (SetElementVolume audioElement (velocity * vol)) ;;
    call (Play audioElement) ;;
    let sourceId := name +:+ "_" +:+ Js.toString (idStamp env) in
    Run.modify (withSources (fun m =>
      JsMap.set m sourceId
        {| source := audioElement; gainNode := None; noteName := name;
           startTime := startStamp env; type := "htmlAudio" |})) ;;
    call (OnEnded audioElement (ElementCleanup sourceId audioElement)) ;;
    call (SetTimeout (ElementCleanup sourceId audioElement) 5000) ;;
    Run.ret (Some sourceId) in
  match mapping with
  | Js.Undefined => Run.ret None
  | Js.Own m => play (Some (AudioConfig.file m))
  | Js.Inherited => play None
  end.

(** Runs a method of the 'audio-player' oscillator on the shared context. *)
Definition onOscillator {A} (o : Oscillator.t)
  (m : Run.M Oscillator.Heap A) : Run.M World A :=
  fun w =>
    let (a, h) := m {| Oscillator.this := o;
                       Oscillator.audioContext := context w |} in
    (a, {| player := player w;
           oscillators :=
             JsMap.set (oscillators w) "audio-player" (Oscillator.this h);
           notesMap := notesMap w;
           context := Oscillator.audioContext h |}).

(** playNoteWithOscillator(noteName, velocity) *)
Definition playNoteWithOscillator (name : string) (velocity : float)
  : Run.M World (option string) :=
  let* existing := Run.gets (fun w => JsMap.get (oscillators w) "audio-player") in
  let oscillator := default Oscillator.createOscillator existing in
  let* vol := Run.gets (fun w => volume (player w)) in
  onOscillator (Oscillator.setVolume vol oscillator)
    (Oscillator.playNote host env name velocity Oscillator.noOptions).

(** playNoteFromSprite(noteName, velocity) *)
Definition playNoteFromSprite (name : string) (velocity : float)
  : Run.M World (option string) :=
  let* ready := Run.gets (fun w => audioBuffer (player w)) in
  if negb ready then playNoteWithOscillator name velocity
  else Run.ret None.

(** The cleanup closure of playNoteWithAudioFile, run by the end of the
    sample or by its timer. *)
Definition elementCleanup (sourceId : string) (audioElement : nat)
  : Run.M World unit :=
  call (Pause audioElement) ;;
  Run.modify (withSources (fun m => JsMap.delete m sourceId)).

(** stopAll() *)
Definition stopAll : Run.M World unit :=
  let* ids := Run.gets (fun w => JsMap.keys (activeSources (player w))) in
  Run.forEach ids cleanupSource ;;
  Run.modify (withSources JsMap.clear).

(** A function object, called back by the browser. *)
Definition fire (f : Callback) : Run.M World unit :=
  match f with
  | CleanupSource sourceId => cleanupSource sourceId
  | ElementCleanup sourceId audioElement => elementCleanup sourceId audioElement
  | OscillatorCleanupSource sourceId =>
      let* existing := Run.gets (fun w => JsMap.get (oscillators w) "audio-player") in
      match existing with
      | Some o => onOscillator o (Oscillator.cleanupSource env sourceId)
      | None => Run.ret tt
      end
  | StopAndDisconnect oscillator gainNode =>
      call (Stop oscillator (currentTime env)) ;;
      call (Disconnect oscillator) ;;
      call (Disconnect gainNode)
  | BufferCleanup sourceId source gainNode =>
      call (Stop source 0) ;;
      call (Disconnect source) ;;
      call (Disconnect gainNode) ;;
      Run.modify (withSources (fun m => JsMap.delete m sourceId))
  end.

End Methods.
End AudioPlayer.

(** ** The AudioPlaybackController class *)

Module AudioPlaybackController.
Import Browser.

Record t : Type :=
  { lastPlayTimes : gmap string Z;
    noteCooldown : gset string;
    maxConcurrent : Z;
    debounceTime : Z }.

(** The controller and the player it was built on. *)
Record System : Type :=
  { controller : t; audioPlayer : AudioPlayer.World }.

(** constructor(audioPlayer) *)
Definition new : t :=
  {| lastPlayTimes := ∅;
     noteCooldown := ∅;
     maxConcurrent := Js.orDefault AudioConfig.maxConcurrent 40;
     debounceTime := Js.orDefault AudioConfig.debounceTime 150 |}.

Definition setDebounceTime (time : Z) (c : t) : t :=
  {| lastPlayTimes := lastPlayTimes c; noteCooldown := noteCooldown c;
     maxConcurrent := maxConcurrent c; debounceTime := time |}.

Definition setMaxConcurrent (max : Z) (c : t) : t :=
  {| lastPlayTimes := lastPlayTimes c; noteCooldown := noteCooldown c;
     maxConcurrent := max; debounceTime := debounceTime c |}.

Definition recordPlay (noteName : string) (now : Z) (c : t) : t :=
  {| lastPlayTimes := Js.setProperty (lastPlayTimes c) noteName now;
     noteCooldown := noteCooldown c;
     maxConcurrent := maxConcurrent c; debounceTime := debounceTime c |}.

(** The test of the debounce branch:
    [lastPlayTime !== 0 && now - lastPlayTime < this.debounceTime], where
    [lastPlayTime] is [this.lastPlayTimes[noteName] || 0].  A member of
    Object.prototype is not 0, and subtracting it gives NaN, which is below
    nothing. *)
Definition debounced (c : t) (noteName : string) (now : Z) : bool :=
  match Js.getProperty (lastPlayTimes c) noteName with
  | Js.Own lastPlayTime =>
      negb (lastPlayTime =? 0) && (now - lastPlayTime <? debounceTime c)
  | Js.Inherited => false
  | Js.Undefined => false
  end.

Local Open Scope run_scope.

Definition onPlayer {A} (m : Run.M AudioPlayer.World A) : Run.M System A :=
  fun s =>
    let (a, w) := m (audioPlayer s) in
    (a, {| controller := controller s; audioPlayer := w |}).

Section Methods.
Variable host : Host.
Variable env : Env.

(** What follows the debounce branch in playNote. *)
Definition dispatch (noteName : string) (velocity : float)
  (playbackMethod : string) : Run.M System (option string) :=
  let* size := Run.gets (fun s =>
    JsMap.size (AudioPlayer.activeSources (AudioPlayer.player (audioPlayer s)))) in
  let* max := Run.gets (fun s => maxConcurrent (controller s)) in
  (if Z.of_nat size >=? max
   then onPlayer (AudioPlayer.stopOldestSource env)
   else Run.ret tt) ;;
  onPlayer (AudioPlayer.stopNote env noteName) ;;
  Run.modify (fun s =>
    {| controller := recordPlay noteName (now env) (controller s);
       audioPlayer := audioPlayer s |}) ;;
  if decide (playbackMethod = "oscillator")
  then onPlayer (AudioPlayer.playNoteWithOscillator host env noteName velocity)
  else if decide (playbackMethod = "sprite")
  then onPlayer (AudioPlayer.playNoteFromSprite host env noteName velocity)
  else onPlayer (AudioPlayer.playNoteWithAudioFile env noteName velocity).

(** playNote(noteName, velocity, playbackMethod) *)
Definition playNote (noteName : string) (velocity : float)
  (playbackMethod : string) : Run.M System (option string) :=
  let* c := Run.gets controller in
  if debounced c noteName (now env)
  then Run.ret None
  else dispatch noteName velocity playbackMethod.

End Methods.

(** What can happen to the controller between two turns of the event loop,
    the maximum concurrency left as it is; [SetNotesMap] is an assignment to
    window.audioManager.notesMap. *)
Inductive Event : Type :=
| PlayNote (noteName : string) (velocity : float) (playbackMethod : string)
| StopNote (noteName : string)
| StopAll
| SetDebounceTime (time : Z)
| SetNotesMap (m : option (gmap string AudioConfig.NoteMapping))
| Fire (f : Callback).

Definition step (host : Host) (e : Env * Event) (s : System) : System :=
  let (env, event) := e in
  match event with
  | PlayNote noteName velocity playbackMethod =>
      snd (playNote host env noteName velocity playbackMethod s)
  | StopNote noteName => snd (onPlayer (AudioPlayer.stopNote env noteName) s)
  | StopAll => snd (onPlayer (AudioPlayer.stopAll env) s)
  | SetDebounceTime time =>
      {| controller := setDebounceTime time (controller s);
         audioPlayer := audioPlayer s |}
  | SetNotesMap m =>
      {| controller := controller s;
         audioPlayer :=
           {| AudioPlayer.player := AudioPlayer.player (audioPlayer s);
              AudioPlayer.oscillators := AudioPlayer.oscillators (audioPlayer s);
              AudioPlayer.notesMap := m;
              AudioPlayer.context := AudioPlayer.context (audioPlayer s) |} |}
  | Fire f => snd (onPlayer (AudioPlayer.fire env f) s)
  end.

Definition run (host : Host) (events : list (Env * Event)) (s : System)
  : System :=
  fold_left (fun s e => step host e s) events s.

(** The system as ensureContext() builds it; [notesMap] is the table of the
    manager at that time. *)
Definition initial (notesMap : option (gmap string AudioConfig.NoteMapping))
  : System :=
  {| controller := new;
     audioPlayer :=
       {| AudioPlayer.player := AudioPlayer.new;
          AudioPlayer.oscillators := JsMap.empty;
          AudioPlayer.notesMap := notesMap;
          AudioPlayer.context := fresh |} |}.

(** The instances of a note in the registry. *)
Definition instancesOf (noteName : string) (s : System)
  : list (string * AudioPlayer.SourceInfo) :=
  filter (fun e => AudioPlayer.noteName (snd e) = noteName)
    (AudioPlayer.activeSources (AudioPlayer.player (audioPlayer s))).

Definition registry (s : System) : JsMap.t AudioPlayer.SourceInfo :=
  AudioPlayer.activeSources (AudioPlayer.player (audioPlayer s)).

End AudioPlaybackController.

(** ** Audio schemes *)

Module AudioSchemes.

Record Scheme : Type :=
  { name : string; notesMap : gmap string AudioConfig.NoteMapping }.

Definition local (f : string) : AudioConfig.NoteMapping :=
  AudioConfig.sample ("/audio/f4-b5/" +:+ f).

Definition popular : Scheme :=
  {| name := "流行音域";
     notesMap := list_to_map
       [ ("1", local "a01.mp3"); ("2", local "a02.mp3"); ("3", local "a03.mp3");
         ("4", local "a04.mp3"); ("5", local "a05.mp3"); ("6", local "a06.mp3");
         ("7", local "a07.mp3"); ("8", local "a08.mp3"); ("9", local "a09.mp3");
         ("10", local "a10.mp3"); ("11", local "a11.mp3");
         ("12", local "a12.mp3"); ("13", local "a13.mp3");
         ("14", local "a14.mp3"); ("15", local "a15.mp3");
         ("16", local "a16.mp3"); ("17", local "a17.mp3");
         ("18", local "a18.mp3"); ("19", local "a19.mp3") ] |}.

Definition golden : Scheme :=
  {| name := "黄金音域";
     notesMap := list_to_map
       [ ("1", local "b01.mp3"); ("2", local "b02.mp3"); ("3", local "b03.mp3");
         ("4", local "a01.mp3"); ("5", local "a02.mp3"); ("6", local "a03.mp3");
         ("7", local "a04.mp3"); ("8", local "a05.mp3"); ("9", local "a06.mp3");
         ("10", local "a07.mp3"); ("11", local "a08.mp3");
         ("12", local "a09.mp3"); ("13", local "a10.mp3");
         ("14", local "a11.mp3"); ("15", local "a12.mp3");
         ("16", local "a13.mp3"); ("17", local "a14.mp3");
         ("18", local "a15.mp3"); ("19", local "a16.mp3") ] |}.

(** The object literal [audioSchemes], the same in both managers. *)
Definition audioSchemes : gmap string Scheme :=
  list_to_map [ ("popular", popular); ("golden", golden) ].

(** How the promise of an async method settles. *)
Inductive Settled (A : Type) : Type :=
| Resolved (a : A)
| Rejected.
Arguments Resolved {A} a.
Arguments Rejected {A}.

End AudioSchemes.

(** ** AudioManager, the core version: switchAudioScheme *)

Module AudioManager.
Import Browser AudioSchemes.

(** The fields that switchAudioScheme reads and writes; [loader] is the
    cache [this.loader.audioBuffers] once the loader exists. *)
Record t : Type :=
  { currentScheme : option string;
    notesMap : option (gmap string AudioConfig.NoteMapping);
    loader : option (JsMap.t AudioBuffer) }.

(** constructor() *)
Definition new : t :=
  {| currentScheme := None;
     notesMap := Some AudioConfig.NOTES_MAP;
     loader := None |}.

(** The size of the cache of decoded samples. *)
Definition cacheSize (m : t) : nat :=
  match loader m with
  | Some audioBuffers => JsMap.size audioBuffers
  | None => 0%nat
  end.

(** switchAudioScheme(schemeId).  For a name found on Object.prototype the
    guard lets the call through, [notesMap] becomes undefined, and
    [Object.keys(this.notesMap)] throws. *)
Definition switchAudioScheme (schemeId : string) (m : t) : Settled bool * t :=
  match Js.getProperty audioSchemes schemeId with
  | Js.Undefined => (Resolved false, m)
  | found =>
      let cleared := JsMap.clear <$> loader m in
      match found with
      | Js.Own scheme =>
          (Resolved true,
           {| currentScheme := Some schemeId;
              notesMap := Some (AudioSchemes.notesMap scheme);
              loader := cleared |})
      | _ =>
          (Rejected,
           {| currentScheme := Some schemeId;
              notesMap := None;
              loader := cleared |})
      end
  end.

End AudioManager.

(** ** AudioManager, the version of js/audio.js

    [cleanupSource], [stopNote] and [stopOldestSource] of this class have the
    text of AudioPlayer's; they run here on a registry of the same shape. *)

Module LegacyAudioManager.
Import Browser AudioSchemes.

Record t : Type :=
  { isReady : bool;
    hasContext : bool;      (* this.audioContext is not null *)
    volume : float;
    audioBuffers : JsMap.t AudioBuffer;
    currentScheme : string;
    notesMap : option (gmap string AudioConfig.NoteMapping);
    lastPlayTimes : gmap string Z;
    maxConcurrent : Z;
    debounceTime : Z }.

Record System : Type :=
  { manager : t;
    sources : AudioPlayer.World;  (* this.activeSources and the browser *)
    webAudio : bool               (* window.AudioContext exists *) }.

(** constructor() *)
Definition new : t :=
  {| isReady := true;
     hasContext := false;
     volume := 0.9%float;
     audioBuffers := JsMap.empty;
     currentScheme := "popular";
     notesMap := Some (AudioSchemes.notesMap popular);
     lastPlayTimes := ∅;
     maxConcurrent := 40;
     debounceTime := 150 |}.

Definition withContext (m : t) : t :=
  {| isReady := isReady m; hasContext := true; volume := volume m;
     audioBuffers := audioBuffers m; currentScheme := currentScheme m;
     notesMap := notesMap m; lastPlayTimes := lastPlayTimes m;
     maxConcurrent := maxConcurrent m; debounceTime := debounceTime m |}.

Definition recordPlay (noteName : string) (now : Z) (m : t) : t :=
  {| isReady := isReady m; hasContext := hasContext m; volume := volume m;
     audioBuffers := audioBuffers m; currentScheme := currentScheme m;
     notesMap := notesMap m;
     lastPlayTimes := Js.setProperty (lastPlayTimes m) noteName now;
     maxConcurrent := maxConcurrent m; debounceTime := debounceTime m |}.

(** switchAudioScheme(schemeId); the method reads
    [Object.keys(this.notesMap)] once before it changes anything. *)
Definition switchAudioScheme (schemeId : string) (m : t) : Settled bool * t :=
  match Js.getProperty audioSchemes schemeId with
  | Js.Undefined => (Resolved false, m)
  | found =>
      match notesMap m with
      | None => (Rejected, m)
      | Some _ =>
          let switched (table : option (gmap string AudioConfig.NoteMapping)) :=
            {| isReady := isReady m; hasContext := hasContext m;
               volume := volume m;
               audioBuffers := JsMap.clear (audioBuffers m);
               currentScheme := schemeId;
               notesMap := table;
               lastPlayTimes := lastPlayTimes m;
               maxConcurrent := maxConcurrent m;
               debounceTime := debounceTime m |} in
          match found with
          | Js.Own scheme =>
              (Resolved true, switched (Some (AudioSchemes.notesMap scheme)))
          | _ => (Rejected, switched None)
          end
      end
  end.

(** The test [!audioBuffer] of playNoteWithOscillator: the sample has to be
    fetched and decoded. *)
Definition mustDecode (m : t) (audioFile : string) : bool :=
  negb (JsMap.has (audioBuffers m) audioFile).

(** The test of the debounce branch, as in the controller. *)
Definition debounced (m : t) (noteName : string) (now : Z) : bool :=
  match Js.getProperty (lastPlayTimes m) noteName with
  | Js.Own lastPlayTime =>
      negb (lastPlayTime =? 0) && (now - lastPlayTime <? debounceTime m)
  | Js.Inherited => false
  | Js.Undefined => false
  end.

(** Where a call of the async playNote stands when it first gives the
    control back: settled with a value, or waiting for a sample. *)
Inductive Outcome : Type :=
| Returned (r : option string)
| Awaiting (audioFile : option string).

Local Open Scope run_scope.

Definition onSources {A} (m : Run.M AudioPlayer.World A) : Run.M System A :=
  fun s =>
    let (a, w) := m (sources s) in
    (a, {| manager := manager s; sources := w; webAudio := webAudio s |}).

Definition onManager (f : t -> t) : Run.M System unit :=
  Run.modify (fun s =>
    {| manager := f (manager s); sources := sources s;
       webAudio := webAudio s |}).

Section Methods.
Variable env : Env.

(** _playAudioBuffer(audioBuffer, noteName, velocity) *)
Definition playAudioBuffer (audioBuffer : AudioBuffer) (noteName : string)
  (velocity : float) : Run.M System string :=
  let* source := onSources (AudioPlayer.create CreateBufferSource) in
  let* gainNode := onSources (AudioPlayer.create CreateGain) in
  let* vol := Run.gets (fun s => volume (manager s)) in
  onSources (AudioPlayer.call (SetGainValue gainNode (velocity * vol))) ;;
  onSources (AudioPlayer.call (Connect source (Node gainNode))) ;;
  onSources (AudioPlayer.call (Connect gainNode Destination)) ;;
  onSources (AudioPlayer.call (Start source 0)) ;;
  let sourceId := noteName +:+ "_" +:+ Js.toString (idStamp env) in
  onSources (Run.modify (AudioPlayer.withSources (fun m =>
    JsMap.set m sourceId
      {| AudioPlayer.source := source;
         AudioPlayer.gainNode := Some gainNode;
         AudioPlayer.noteName := noteName;
         AudioPlayer.startTime := startStamp env;
         AudioPlayer.type := "webAudio" |}))) ;;
  onSources (AudioPlayer.call
    (OnEnded source (BufferCleanup sourceId source gainNode))) ;;
  onSources (AudioPlayer.call
    (SetTimeout (BufferCleanup sourceId source gainNode)
       (bufferDuration audioBuffer * 1000 + 1000))) ;;
  Run.ret sourceId.

(** playNoteWithOscillator(noteName, velocity), up to its first await. *)
Definition playNoteWithOscillator (noteName : string) (velocity : float)
  : Run.M System Outcome :=
  let* ready := Run.gets (fun s => hasContext (manager s)) in
  let* canCreate := Run.gets webAudio in
  if negb ready && negb canCreate then Run.ret (Returned None)
  else
    onManager withContext ;;
    let* table := Run.gets (fun s => notesMap (manager s)) in
    match table with
    | None => Run.ret (Returned None)
    | Some mapping =>
        match Js.getProperty mapping noteName with
        | Js.Undefined => Run.ret (Returned None)
        | found =>
            let audioFile :=
              match found with
              | Js.Own m => Some (AudioConfig.file m)
              | _ => None
              end in
            let* buffers := Run.gets (fun s => audioBuffers (manager s)) in
            match audioFile ≫= JsMap.get buffers with
            | Some audioBuffer =>
                let* sourceId := playAudioBuffer audioBuffer noteName velocity in
                Run.ret (Returned (Some sourceId))
            | None => Run.ret (Awaiting audioFile)
            end
        end
    end.

(** What follows the debounce branch in playNote. *)
Definition dispatch (noteName : string) (velocity : float)
  : Run.M System Outcome :=
  let* m := Run.gets manager in
  let* size := Run.gets (fun s =>
    JsMap.size (AudioPlayer.activeSources (AudioPlayer.player (sources s)))) in
  (if Z.of_nat size >=? maxConcurrent m
   then onSources (AudioPlayer.stopOldestSource env)
   else Run.ret tt) ;;
  onSources (AudioPlayer.stopNote env noteName) ;;
  onManager (recordPlay noteName (now env)) ;;
  playNoteWithOscillator noteName velocity.

(** playNote(noteName, velocity), up to its first await. *)
Definition playNote (noteName : string) (velocity : float)
  : Run.M System Outcome :=
  let* m := Run.gets manager in
  if negb (isReady m) then Run.ret (Returned None)
  else if negb (hasContext m) then playNoteWithOscillator noteName velocity
  else if debounced m noteName (now env) then Run.ret (Returned None)
  else dispatch noteName velocity.

End Methods.
End LegacyAudioManager.

(** ** sw.js: the fetch handler

    A cache holds responses under the URL of their request; the method is
    GET for every entry, and [Vary] headers play no part in this site. *)

Module ServiceWorker.

Definition CACHE_NAME : string := "piano-simulator-v2.1".
Definition STATIC_CACHE : string := "piano-static-v2.1".

Record URL : Type :=
  { origin : string;    (* scheme and authority *)
    pathname : string;
    search : string }.

(** request.url *)
Definition href (u : URL) : string := origin u +:+ pathname u +:+ search u.

Record Request : Type := { method : string; url : URL }.

Record Response : Type :=
  { status : Z;
    type : string;
    body : string }.

(** new Response('网络连接失败', { status: 408 }) *)
Definition timeoutResponse : Response :=
  {| status := 408; type := "default"; body := "网络连接失败" |}.

(** [caches]: the named caches in the order of their creation. *)
Definition CacheStorage : Type := JsMap.t (JsMap.t Response).

(** caches.match(request): the first cache that has the URL answers. *)
Fixpoint matchAll (caches : CacheStorage) (key : string) : option Response :=
  match caches with
  | [] => None
  | (_, cache) :: rest =>
      match JsMap.get cache key with
      | Some r => Some r
      | None => matchAll rest key
      end
  end.

(** caches.open(name): the cache, made empty when it is new. *)
Definition opened (caches : CacheStorage) (name : string) : JsMap.t Response :=
  default JsMap.empty (JsMap.get caches name).

(** cache.put(request, response) on the cache of that name. *)
Definition put (caches : CacheStorage) (name key : string) (r : Response)
  : CacheStorage :=
  JsMap.set caches name (JsMap.set (opened caches name) key r).

(** The surroundings of one fetch event. *)
Record Env : Type :=
  { scope : string;                       (* the origin of the worker *)
    network : Request -> option Response; (* fetch(request); None: it rejects *)
    putSucceeds : bool                    (* cache.put resolves *) }.

Inductive Effect : Type :=
| MatchRequest (key : string)  (* caches.match(event.request) *)
| MatchPath (key : string)     (* cache.match(url.pathname) *)
| Fetch (r : Request)
| Put (key : string)
| MatchIndex.                  (* caches.match('/index.html') *)

(** What the listener does with the event: it returns without answering,
    or it calls respondWith with a promise whose value is a response or
    undefined. *)
Inductive Handled : Type :=
| PassThrough
| RespondWith (r : option Response).

Record Result : Type :=
  { handled : Handled;
    storage : CacheStorage;
    effects : list Effect }.

(** "Only cache the successful responses." *)
Definition cacheable (r : Response) : bool :=
  (status r =? 200) && bool_decide (type r = "basic").

Definition onFetch (env : Env) (caches : CacheStorage) (request : Request)
  : Result :=
  if negb (bool_decide (method request = "GET")) then
    {| handled := PassThrough; storage := caches; effects := [] |}
  else if Js.startsWith (href (url request)) "chrome-extension:"
          || Js.startsWith (href (url request)) "safari-extension:" then
    {| handled := PassThrough; storage := caches; effects := [] |}
  else
    let isAudioFile := Js.includes (pathname (url request)) "/audio/" in
    let key := href (url request) in
    match matchAll caches key with
    | Some cachedResponse =>
        {| handled := RespondWith (Some cachedResponse); storage := caches;
           effects := [MatchRequest key] |}
    | None =>
        if isAudioFile then
          let pathKey := scope env +:+ pathname (url request) in
          let caches := JsMap.set caches STATIC_CACHE (opened caches STATIC_CACHE) in
          match JsMap.get (opened caches STATIC_CACHE) pathKey with
          | Some pathCachedResponse =>
              {| handled := RespondWith (Some pathCachedResponse);
                 storage := caches;
                 effects := [MatchRequest key; MatchPath pathKey] |}
          | None =>
              match network env request with
              | Some response =>
                  if negb (cacheable response) then
                    {| handled := RespondWith (Some response);
                       storage := caches;
                       effects := [MatchRequest key; MatchPath pathKey;
                                   Fetch request] |}
                  else
                    {| handled := RespondWith (Some response);
                       storage :=
                         if putSucceeds env
                         then put caches STATIC_CACHE key response
                         else caches;
                       effects := [MatchRequest key; MatchPath pathKey;
                                   Fetch request; Put key] |}
              | None =>
                  {| handled := RespondWith (Some timeoutResponse);
                     storage := caches;
                     effects := [MatchRequest key; MatchPath pathKey;
                                 Fetch request] |}
              end
          end
        else
          match network env request with
          | Some response =>
              if negb (cacheable response) then
                {| handled := RespondWith (Some response); storage := caches;
                   effects := [MatchRequest key; Fetch request] |}
              else
                let caches := JsMap.set caches STATIC_CACHE (opened caches STATIC_CACHE) in
                {| handled := RespondWith (Some response);
                   storage :=
                     if putSucceeds env
                     then put caches STATIC_CACHE key response
                     else caches;
                   effects := [MatchRequest key; Fetch request; Put key] |}
          | None =>
              if Js.includes (href (url request)) ".html" then
                {| handled :=
                     RespondWith (matchAll caches (scope env +:+ "/index.html"));
                   storage := caches;
                   effects := [MatchRequest key; Fetch request; MatchIndex] |}
              else
                {| handled := RespondWith (Some timeoutResponse);
                   storage := caches;
                   effects := [MatchRequest key; Fetch request] |}
          end
    end.

Definition isFetch (e : Effect) : bool :=
  match e with Fetch _ => true | _ => false end.

(** The number of calls of fetch. *)
Definition fetches (r : Result) : nat :=
  length (List.filter isFetch (effects r)).

End ServiceWorker.

(** ** The Oscillator class: what stopping a voice says to the browser *)

Module OscillatorVoices.
Import Browser Oscillator.

(** The calls of one cleanupSource on a voice that is in the table. *)
Definition cleanupCalls (env : Env) (info : SourceInfo) : list Call :=
  [ CancelScheduledValues (gainNode info) (currentTime env);
    SetValueAtTime (gainNode info) (Exactly 0) (currentTime env);
    Disconnect (gainNode info);
    Stop (oscillator info) 0;
    Disconnect (oscillator info) ].


(** The state with another table of voices and more calls issued. *)
Definition voiced (s : Heap) (m : JsMap.t SourceInfo) (cs : list Call) : Heap :=
  {| this := withActiveSources (fun _ => m) (this s);
     audioContext :=
       {| nextNode := nextNode (audioContext s);
          calls := calls (audioContext s) ++ cs |} |}.


(** Each id names one voice. *)
Definition voicesOk (s : Heap) : Prop := JsMap.wf (activeSources (this s)).

End OscillatorVoices.

(** ** The waveform of an instance *)

Module OscillatorSetters.
Import Oscillator.

(** getSupportedTypes() *)
Definition getSupportedTypes : list string :=
  ["sine"; "square"; "triangle"; "sawtooth"].

Definition supported (s : Heap) : Prop :=
  type (options (this s)) ∈ getSupportedTypes.

End OscillatorSetters.

(** ** The OscillatorManager class *)

Module OscillatorManager.
Import Browser.

(** An options object as the spread sees it: any field may be missing, and a
    sustainMode that is missing is not one that is false. *)
Record OptionsObject : Type :=
  { type : option string;
    volume : option float;
    duration : option float;
    attack : option float;
    decay : option float;
    sustain : option float;
    release : option float;
    sustainMode : option bool;
    pitch : option string }.

(** The object as the constructor of Oscillator reads it. *)
Definition given (o : OptionsObject) : Oscillator.PartialOptions :=
  {| Oscillator.o_type := type o;
     Oscillator.o_volume := volume o;
     Oscillator.o_duration := duration o;
     Oscillator.o_attack := attack o;
     Oscillator.o_decay := decay o;
     Oscillator.o_sustain := sustain o;
     Oscillator.o_release := release o;
     Oscillator.o_sustainMode := default false (sustainMode o);
     Oscillator.o_pitch := pitch o |}.

Record t : Type :=
  { oscillators : JsMap.t Oscillator.t;
    defaultOptions : OptionsObject }.

(** The manager and the audio context its instances are built on. *)
Record State : Type := { manager : t; context : AudioContext }.

(** constructor() *)
Definition new : t :=
  {| oscillators := JsMap.empty;
     defaultOptions :=
       {| type := Some "triangle"; volume := Some 0.3%float;
          duration := Some 0.5%float; attack := Some 0.01%float;
          decay := Some 0.1%float; sustain := Some 0.3%float;
          release := Some 0.2%float; sustainMode := None; pitch := None |} |}.

Definition orElse {A} (over base : option A) : option A :=
  match over with
  | Some x => Some x
  | None => base
  end.

(** { ...base, ...over } *)
Definition spread (base over : OptionsObject) : OptionsObject :=
  {| type := orElse (type over) (type base);
     volume := orElse (volume over) (volume base);
     duration := orElse (duration over) (duration base);
     attack := orElse (attack over) (attack base);
     decay := orElse (decay over) (decay base);
     sustain := orElse (sustain over) (sustain base);
     release := orElse (release over) (release base);
     sustainMode := orElse (sustainMode over) (sustainMode base);
     pitch := orElse (pitch over) (pitch base) |}.

(** {}, the default of the options of createOscillator. *)
Definition noOptions : OptionsObject :=
  {| type := None; volume := None; duration := None; attack := None;
     decay := None; sustain := None; release := None; sustainMode := None;
     pitch := None |}.

Definition withOscillators (f : JsMap.t Oscillator.t -> JsMap.t Oscillator.t)
  (m : t) : t :=
  {| oscillators := f (oscillators m); defaultOptions := defaultOptions m |}.

(** createOscillator(audioContext, id, options) *)
Definition createOscillator (id : string) (options : OptionsObject)
  (st : State) : Oscillator.t * State :=
  let oscillator :=
    Oscillator.new (given (spread (defaultOptions (manager st)) options)) in
  (oscillator,
   {| manager := withOscillators (fun m => JsMap.set m id oscillator) (manager st);
      context := context st |}).

(** getOscillator(id); [None] is null. *)
Definition getOscillator (id : string) (st : State) : option Oscillator.t :=
  JsMap.get (oscillators (manager st)) id.

(** removeOscillator(id) *)
Definition removeOscillator (env : Env) (id : string) (st : State) : State :=
  match JsMap.get (oscillators (manager st)) id with
  | Some oscillator =>
      let h := snd (Oscillator.stopAll env
                      {| Oscillator.this := oscillator;
                         Oscillator.audioContext := context st |}) in
      {| manager := withOscillators (fun m => JsMap.delete m id) (manager st);
         context := Oscillator.audioContext h |}
  | None => st
  end.

(** setDefaultOptions(options) *)
Definition setDefaultOptions (options : OptionsObject) (st : State)
  : State :=
  {| manager :=
       {| oscillators := oscillators (manager st);
          defaultOptions := spread (defaultOptions (manager st)) options |};
     context := context st |}.

(** What the program does with the manager: its methods, and a method
    called on the instance that getOscillator returns. *)
Inductive Op : Type :=
| Create (id : string) (options : OptionsObject)
| Remove (id : string)
| SetDefaultOptions (options : OptionsObject)
| OnInstance (id : string) (method : Oscillator.Method).

Definition step (host : Host) (e : Env * Op) (st : State) : State :=
  let (env, op) := e in
  match op with
  | Create id options => snd (createOscillator id options st)
  | Remove id => removeOscillator env id st
  | SetDefaultOptions options => setDefaultOptions options st
  | OnInstance id method =>
      match getOscillator id st with
      | Some oscillator =>
          let h := Oscillator.invoke host (env, method)
                     {| Oscillator.this := oscillator;
                        Oscillator.audioContext := context st |} in
          {| manager :=
               withOscillators (fun m => JsMap.set m id (Oscillator.this h))
                 (manager st);
             context := Oscillator.audioContext h |}
      | None => st
      end
  end.

Definition run (host : Host) (ops : list (Env * Op)) (st : State) : State :=
  fold_left (fun st e => step host e st) ops st.

(** window.OscillatorManager = new OscillatorManager(), and a new audio
    context. *)
Definition initial : State := {| manager := new; context := fresh |}.


End OscillatorManager.

(** ** Stopping the instances of the player *)

Module AudioPlayerStops.
Import Browser AudioPlayer.
Local Open Scope run_scope.

(** cleanupAllSources(): the loop runs over the live keys of the Map, and
    each turn deletes the key it is at, which leaves the keys to come as
    they are. *)
Definition cleanupAllSources (env : Env) : Run.M World unit :=
  let* ids := Run.gets (fun w => JsMap.keys (activeSources (player w))) in
  Run.forEach ids (cleanupSource env).

(** Audio elements only. *)
Definition elementsOnly (m : JsMap.t SourceInfo) : Prop :=
  forall e, e ∈ m -> gainNode (snd e) = None.

End AudioPlayerStops.

(** ** More of the AudioPlaybackController class *)

Module ControllerState.
Import Browser AudioPlaybackController.

(** What [this.lastPlayTimes[noteName] || 0] can be. *)
Inductive LastPlay : Type :=
| Time (t : Z)
| Member.          (* a member of Object.prototype *)

(** getLastPlayTime(noteName) *)
Definition getLastPlayTime (c : t) (noteName : string) : LastPlay :=
  match Js.getProperty (lastPlayTimes c) noteName with
  | Js.Own t => Time (Js.orDefault t 0)
  | Js.Inherited => Member
  | Js.Undefined => Time 0
  end.

Definition withCooldown (f : gset string -> gset string) (c : t) : t :=
  {| lastPlayTimes := lastPlayTimes c; noteCooldown := f (noteCooldown c);
     maxConcurrent := maxConcurrent c; debounceTime := debounceTime c |}.

(** isNoteInCooldown(noteName) *)
Definition isNoteInCooldown (noteName : string) (c : t) : bool :=
  bool_decide (noteName ∈ noteCooldown c).

(** addNoteToCooldown(noteName) *)
Definition addNoteToCooldown (noteName : string) : t -> t :=
  withCooldown (fun set => {[ noteName ]} ∪ set).

(** removeNoteFromCooldown(noteName) *)
Definition removeNoteFromCooldown (noteName : string) : t -> t :=
  withCooldown (fun set => set ∖ {[ noteName ]}).

(** clearNoteCooldown() *)
Definition clearNoteCooldown : t -> t := withCooldown (fun _ => ∅).

(** reset() *)
Definition reset (c : t) : t :=
  {| lastPlayTimes := ∅; noteCooldown := ∅;
     maxConcurrent := maxConcurrent c; debounceTime := debounceTime c |}.

(** A method of the controller that changes the controller only. *)
Definition onController (f : t -> t) (s : System) : System :=
  {| controller := f (controller s); audioPlayer := audioPlayer s |}.

(** UIController.updateDebounceForSustainMode(isSustainMode), the playback
    controller being there. *)
Definition updateDebounceForSustainMode (isSustainMode : bool) : System -> System :=
  onController (setDebounceTime (if isSustainMode then 0 else 150)).

End ControllerState.

(** ** Instances with a gain node: js/audio.js *)

Module GainSources.
Import Browser AudioPlayer.

(** The state with more calls issued. *)
Definition said (w : World) (cs : list Call) : World :=
  withContext (fun a => {| nextNode := nextNode a; calls := calls a ++ cs |}) w.

(** The calls of stopNote for one instance that has a gain node. *)
Definition fadeOut (env : Env) (e : string * SourceInfo) : list Call :=
  match gainNode (snd e) with
  | Some g =>
      [ ExponentialRampToValueAtTime g 0.001 (currentTime env + 0.02);
        LinearRampToValueAtTime g 0.001 (currentTime env + 0.03);
        SetTimeout (CleanupSource (fst e)) 25 ]
  | None => []
  end.

(** The calls of cleanupSource for one instance that has a gain node. *)
Definition teardown (env : Env) (info : SourceInfo) : list Call :=
  match gainNode info with
  | Some g =>
      [ CancelScheduledValues g (currentTime env);
        SetValueAtTime g (Exactly 0) (currentTime env);
        Disconnect g;
        Stop (source info) 0;
        Disconnect (source info) ]
  | None => []
  end.

(** Buffer sources only: every instance has a gain node. *)
Definition gainOnly (m : JsMap.t SourceInfo) : Prop :=
  forall e, e ∈ m -> is_Some (gainNode (snd e)).

End GainSources.

(** ** The service worker: install and activate *)

Module ServiceWorkerLife.
Import ServiceWorker.

Definition STATIC_RESOURCES : list string :=
  [ "/"; "/index.html"; "/styles/main.css"; "/styles/piano.css";
    "/js/audio.js"; "/js/piano.js"; "/js/loader.js"; "/js/main.js";
    "/audio/f4-b5/a01.mp3"; "/audio/f4-b5/a02.mp3"; "/audio/f4-b5/a03.mp3";
    "/audio/f4-b5/a04.mp3"; "/audio/f4-b5/a05.mp3"; "/audio/f4-b5/a06.mp3";
    "/audio/f4-b5/a07.mp3"; "/audio/f4-b5/a08.mp3"; "/audio/f4-b5/a09.mp3";
    "/audio/f4-b5/a10.mp3"; "/audio/f4-b5/a11.mp3"; "/audio/f4-b5/a12.mp3";
    "/audio/f4-b5/a13.mp3"; "/audio/f4-b5/a14.mp3"; "/audio/f4-b5/a15.mp3";
    "/audio/f4-b5/a16.mp3"; "/audio/f4-b5/a17.mp3"; "/audio/f4-b5/a18.mp3";
    "/audio/f4-b5/a19.mp3" ].

(** The request that cache.addAll makes of a path of the worker's origin. *)
Definition resourceRequest (env : Env) (path : string) : Request :=
  {| method := "GET";
     url := {| origin := scope env; pathname := path; search := EmptyString |} |}.

(** response.ok *)
Definition ok (r : Response) : bool := (200 <=? status r) && (status r <=? 299).

(** The fetches of cache.addAll: all of them answered with an ok response,
    or the call rejects. *)
Fixpoint fetchAll (env : Env) (paths : list string)
  : option (list (string * Response)) :=
  match paths with
  | [] => Some []
  | path :: rest =>
      match network env (resourceRequest env path) with
      | Some r =>
          if ok r
          then (fun l => (href (url (resourceRequest env path)), r) :: l)
                 <$> fetchAll env rest
          else None
      | None => None
      end
  end.

Definition putAll (cache : JsMap.t Response) (l : list (string * Response))
  : JsMap.t Response :=
  fold_left (fun c e => JsMap.set c (fst e) (snd e)) l cache.

(** The install listener: caches.open(STATIC_CACHE), then
    cache.addAll(STATIC_RESOURCES), whose rejection is caught and logged. *)
Definition onInstall (env : Env) (caches : CacheStorage) : CacheStorage :=
  let caches := JsMap.set caches STATIC_CACHE (opened caches STATIC_CACHE) in
  match fetchAll env STATIC_RESOURCES with
  | Some responses =>
      if putSucceeds env
      then JsMap.set caches STATIC_CACHE
             (putAll (opened caches STATIC_CACHE) responses)
      else caches
  | None => caches
  end.

(** The activate listener: caches.delete for every cache of another name. *)
Definition onActivate (caches : JsMap.t (JsMap.t Response)) : CacheStorage :=
  filter (fun e => ~ (fst e <> STATIC_CACHE /\ fst e <> CACHE_NAME)) caches.

End ServiceWorkerLife.

(** ** js/main.js: the playlist of the background music *)

Module MusicPlayer.

Record Track : Type :=
  { id : Z; title : string; artist : string; url : string }.

(** What the player holds and shows: the playlist, the index of the current
    track, whether the music plays, and the value given to [audio.src] ([None]
    before the first) with the two texts of the panel. *)
Record t : Type :=
  { playlist : list Track;
    currentTrackIndex : Z;
    isPlaying : bool;
    src : option string;
    shownTitle : option string;
    shownArtist : option string;
    plays : nat (* calls of audio.play() *) }.

(** The playlist of the constructor. *)
Definition tracks : list Track :=
  [ {| id := 1; title := "轻松旋律"; artist := "青松音乐";
       url := "https://cdn.tosound.com:3321/preview?file=youtube%2F0%2F0%2F634532.mp3&token=eW91dHViZSUyRjAlMkYwJTJGNjM0NTMyLm1wMw==&sound=audio.mp3" |};
    {| id := 2; title := "古典钢琴"; artist := "青松音乐";
       url := "https://cdn.tosound.com:3321/preview?file=youtube%2F0%2F1%2F635949.mp3&token=eW91dHViZSUyRjAlMkYxJTJGNjM1OTQ5Lm1wMw==&sound=audio.mp3" |} ].

(** playlist[index]; [None] is undefined. *)
Definition at_ (l : list Track) (index : Z) : option Track :=
  if index <? 0 then None else l !! Z.to_nat index.

(** loadCurrentTrack(); reading a field of an undefined track throws, which
    is [None]. *)
Definition loadCurrentTrack (p : t) : option t :=
  match at_ (playlist p) (currentTrackIndex p) with
  | Some track =>
      Some {| playlist := playlist p;
              currentTrackIndex := currentTrackIndex p;
              isPlaying := isPlaying p;
              src := Some (url track);
              shownTitle := shownTitle p;
              shownArtist := shownArtist p;
              plays := plays p |}
  | None => None
  end.

(** updateTrackInfo(), the two elements of the panel being there. *)
Definition updateTrackInfo (p : t) : option t :=
  match at_ (playlist p) (currentTrackIndex p) with
  | Some track =>
      Some {| playlist := playlist p;
              currentTrackIndex := currentTrackIndex p;
              isPlaying := isPlaying p;
              src := src p;
              shownTitle := Some (title track);
              shownArtist := Some (artist track);
              plays := plays p |}
  | None => None
  end.

(** play(), the audio element being there: the track is loaded when the
    element has no source, and audio.play() is called. *)
Definition play (p : t) : option t :=
  (fun p =>
     {| playlist := playlist p; currentTrackIndex := currentTrackIndex p;
        isPlaying := isPlaying p; src := src p;
        shownTitle := shownTitle p; shownArtist := shownArtist p;
        plays := S (plays p) |})
  <$> (match src p with
       | Some _ => Some p
       | None => loadCurrentTrack p
       end).

(** [if (this.isPlaying) this.play()] *)
Definition resume (p : t) : option t :=
  if isPlaying p then play p else Some p.

Definition withIndex (index : Z) (p : t) : t :=
  {| playlist := playlist p; currentTrackIndex := index;
     isPlaying := isPlaying p; src := src p;
     shownTitle := shownTitle p; shownArtist := shownArtist p;
     plays := plays p |}.

(** this.playlist.length *)
Definition length_ (p : t) : Z := Z.of_nat (length (playlist p)).

(** loadCurrentTrack(), updateTrackInfo() and the resumption, after the
    index is set. *)
Definition moveTo (index : Z) (p : t) : option t :=
  match loadCurrentTrack (withIndex index p) with
  | Some loaded =>
      match updateTrackInfo loaded with
      | Some shown => resume shown
      | None => None
      end
  | None => None
  end.

(** playNext(); the remainder of JavaScript on integers is [Z.rem]. *)
Definition playNext (p : t) : option t :=
  moveTo (Z.rem (currentTrackIndex p + 1) (length_ p)) p.

(** playPrevious() *)
Definition playPrevious (p : t) : option t :=
  moveTo (Z.rem (currentTrackIndex p - 1 + length_ p) (length_ p)) p.

(** The player after init(), on a playlist: initAudio() loads the current
    track, and updateTrackInfo() shows it. *)
Definition initial (l : list Track) : option t :=
  match loadCurrentTrack
          {| playlist := l; currentTrackIndex := 0; isPlaying := false;
             src := None; shownTitle := None; shownArtist := None;
             plays := 0 |} with
  | Some loaded => updateTrackInfo loaded
  | None => None
  end.

(** What happens to the player: the three buttons, and [Started], the
    promise of an audio.play() resolving. *)
Inductive Button : Type := Next | Previous | Toggle | Started.

Definition withPlaying (b : bool) (p : t) : t :=
  {| playlist := playlist p; currentTrackIndex := currentTrackIndex p;
     isPlaying := b; src := src p;
     shownTitle := shownTitle p; shownArtist := shownArtist p;
     plays := plays p |}.

(** togglePlayPause(): pause(), or play(), whose promise is still to
    resolve. *)
Definition togglePlayPause (p : t) : option t :=
  if isPlaying p then Some (withPlaying false p) else play p.

Definition press (b : Button) (p : t) : option t :=
  match b with
  | Next => playNext p
  | Previous => playPrevious p
  | Toggle => togglePlayPause p
  | Started => Some (withPlaying true p)
  end.

Fixpoint run (buttons : list Button) (p : t) : option t :=
  match buttons with
  | [] => Some p
  | b :: rest =>
      match press b p with
      | Some p' => run rest p'
      | None => None
      end
  end.

(** The index is one of the playlist, and the panel shows its track. *)
Definition shows (p : t) : Prop :=
  0 <= currentTrackIndex p < length_ p
  /\ exists track,
       playlist p !! Z.to_nat (currentTrackIndex p) = Some track
       /\ src p = Some (url track)
       /\ shownTitle p = Some (title track)
       /\ shownArtist p = Some (artist track).

End MusicPlayer.

(** ** The keyboard: the notes of audio-config.js and the tables of
      PianoManager *)

Module Keyboard.

Inductive KeyType : Type := white | black.

#[global] Instance KeyType_eq_dec : EqDecision KeyType.
Proof. solve_decision. Defined.

(** AudioConfig.NOTES *)
Definition NOTES : list (string * KeyType) :=
  [ ("1", white); ("2", black); ("3", white); ("4", black); ("5", white);
    ("6", black); ("7", white); ("8", white); ("9", black); ("10", white);
    ("11", black); ("12", white); ("13", white); ("14", black);
    ("15", white); ("16", black); ("17", white); ("18", black);
    ("19", white) ].

(** The type of a note of the keyboard. *)
Definition keyType (name : string) : option KeyType :=
  snd <$> List.find (fun e => bool_decide (fst e = name)) NOTES.

(** The object literal of findAdjacentWhiteKeys. *)
Definition noteMap : gmap string (list string) :=
  list_to_map
    [ ("2", ["1"; "3"]); ("4", ["3"; "5"]); ("6", ["5"; "7"]);
      ("9", ["8"; "10"]); ("11", ["10"; "12"]); ("14", ["13"; "15"]);
      ("16", ["15"; "17"]); ("18", ["17"; "19"]) ].

(** What findAdjacentWhiteKeys returns: an array, or a member of
    Object.prototype. *)
Inductive Adjacent : Type :=
| Keys (l : list string)
| Member.

(** findAdjacentWhiteKeys(blackNote): [noteMap[blackNote] || []] *)
Definition findAdjacentWhiteKeys (blackNote : string) : Adjacent :=
  match Js.getProperty noteMap blackNote with
  | Js.Own l => Keys l
  | Js.Inherited => Member
  | Js.Undefined => Keys []
  end.

Definition noteOrder : list string :=
  ["1"; "3"; "5"; "7"; "8"; "10"; "12"; "13"; "15"; "17"; "19"].

(** Array.prototype.indexOf on strings; [None] is -1. *)
Fixpoint indexOf (l : list string) (x : string) : option nat :=
  match l with
  | [] => None
  | y :: rest => if decide (y = x) then Some 0%nat else S <$> indexOf rest x
  end.

(** getNextWhiteKey(note): [noteOrder[currentIndex + 1] || note] *)
Definition getNextWhiteKey (note : string) : string :=
  let next :=
    match indexOf noteOrder note with
    | Some currentIndex => noteOrder !! S currentIndex
    | None => noteOrder !! 0%nat
    end in
  Js.orString next note.

End Keyboard.

Module FallbackAudioManager.

(** String.prototype.padStart(2, '0') *)
Definition padStart2 (s : string) : string :=
  match s with
  | EmptyString => "00"
  | String c EmptyString => String "0" (String c EmptyString)
  | _ => s
  end.

(** Number.prototype.toString of the result of parseInt, a number that both
    take in full (below 2^53). *)
Definition numberToString (n : option Z) : string :=
  match n with
  | Some k => Js.toString k
  | None => "NaN"
  end.

(** The path that playNoteWithAudio makes of a note. *)
Definition audioFilePath (note : string) : string :=
  "https://cdn.jsdelivr.net/gh/bruce-peng24/qingsongpiano@main/audio/f4-b5/"
    +:+ ("a" +:+ padStart2 (numberToString (Js.parseInt note)) +:+ ".mp3").

End FallbackAudioManager.

(** ** AudioManager, the core version: timbres and the route of playNote *)

Module CoreManager.
Import Browser AudioSchemes.

(** [system] is the audio context with what lives on it (the oscillators of
    window.OscillatorManager, the player and its controller), once the
    context manager has made the context; [hasPlayer] tells whether
    ensureContext has created the player, the controller and the loader on
    it.  [schemes] holds currentScheme, notesMap and the cache of the
    loader. *)
Record t : Type :=
  { isReady : bool;
    volume : float;
    currentTimbre : string;
    schemes : AudioManager.t;
    system : option AudioPlaybackController.System;
    hasPlayer : bool;
    timbreChanged : list string (* the timbreChanged events, oldest first *) }.

Definition withSystem (s : option AudioPlaybackController.System) (c : t) : t :=
  {| isReady := isReady c; volume := volume c;
     currentTimbre := currentTimbre c; schemes := schemes c;
     system := s; hasPlayer := hasPlayer c;
     timbreChanged := timbreChanged c |}.

(** Runs a method of the 'audio-core' oscillator on the context. *)
Definition onCore {A} (o : Oscillator.t) (m : Run.M Oscillator.Heap A)
  (s : AudioPlaybackController.System) : A * AudioPlaybackController.System :=
  let w := AudioPlaybackController.audioPlayer s in
  let (a, h) := m {| Oscillator.this := o;
                     Oscillator.audioContext := AudioPlayer.context w |} in
  (a, {| AudioPlaybackController.controller :=
           AudioPlaybackController.controller s;
         AudioPlaybackController.audioPlayer :=
           {| AudioPlayer.player := AudioPlayer.player w;
              AudioPlayer.oscillators :=
                JsMap.set (AudioPlayer.oscillators w) "audio-core"
                  (Oscillator.this h);
              AudioPlayer.notesMap := AudioPlayer.notesMap w;
              AudioPlayer.context := Oscillator.audioContext h |} |}).

(** getOscillator('audio-core'), or createOscillator(audioContext,
    'audio-core'), and then setVolume(this.volume). *)
Definition coreOscillator (c : t) (s : AudioPlaybackController.System)
  : Oscillator.t :=
  Oscillator.setVolume (volume c)
    (default Oscillator.createOscillator
       (JsMap.get (AudioPlayer.oscillators
                     (AudioPlaybackController.audioPlayer s)) "audio-core")).

(** playNoteWithOscillator(noteName, velocity) *)
Definition playNoteWithOscillator (host : Host) (env : Env)
  (noteName : string) (velocity : float) (c : t) : option string * t :=
  match system c with
  | None => (None, c)
  | Some s =>
      let (r, s') :=
        onCore (coreOscillator c s)
          (Oscillator.playNote host env noteName velocity Oscillator.noOptions)
          s in
      (r, withSystem (Some s') c)
  end.

(** preinitializeOscillator() *)
Definition preinitializeOscillator (c : t) : t :=
  match system c with
  | None => c
  | Some s =>
      withSystem (Some (snd (onCore (coreOscillator c s) (Run.ret tt) s))) c
  end.

(** The system as the player sees it: window.audioManager.notesMap is the
    note map of the manager. *)
Definition synced (c : t) (s : AudioPlaybackController.System)
  : AudioPlaybackController.System :=
  let w := AudioPlaybackController.audioPlayer s in
  {| AudioPlaybackController.controller :=
       AudioPlaybackController.controller s;
     AudioPlaybackController.audioPlayer :=
       {| AudioPlayer.player := AudioPlayer.player w;
          AudioPlayer.oscillators := AudioPlayer.oscillators w;
          AudioPlayer.notesMap := AudioManager.notesMap (schemes c);
          AudioPlayer.context := AudioPlayer.context w |} |}.

(** playNote(noteName, velocity) *)
Definition playNote (host : Host) (env : Env) (noteName : string)
  (velocity : float) (c : t) : option string * t :=
  if negb (isReady c) then (None, c)
  else if decide (currentTimbre c = "oscillator")
  then playNoteWithOscillator host env noteName velocity c
  else
    match system c with
    | None => playNoteWithOscillator host env noteName velocity c
    | Some s =>
        if hasPlayer c
        then
          let (r, s') :=
            AudioPlaybackController.playNote host env noteName velocity
              "audioFile" (synced c s) in
          (r, withSystem (Some s') c)
        else (None, c)
    end.

(** setTimbre(timbre); the promise of switchAudioScheme is only logged. *)
Definition setTimbre (timbre : string) (c : t) : t :=
  if bool_decide (timbre ∈ ["audio"; "golden"; "oscillator"])
  then
    let c1 :=
      {| isReady := isReady c; volume := volume c; currentTimbre := timbre;
         schemes := schemes c; system := system c; hasPlayer := hasPlayer c;
         timbreChanged := timbreChanged c |} in
    let c2 :=
      if decide (timbre = "oscillator") then preinitializeOscillator c1
      else
        let schemeId := if decide (timbre = "golden") then "golden" else "popular" in
        {| isReady := isReady c1; volume := volume c1;
           currentTimbre := currentTimbre c1;
           schemes := snd (AudioManager.switchAudioScheme schemeId (schemes c1));
           system := system c1; hasPlayer := hasPlayer c1;
           timbreChanged := timbreChanged c1 |} in
    {| isReady := isReady c2; volume := volume c2;
       currentTimbre := currentTimbre c2; schemes := schemes c2;
       system := system c2; hasPlayer := hasPlayer c2;
       timbreChanged := timbreChanged c2 ++ [timbre] |}
  else c.

(** constructor() *)
Definition new : t :=
  {| isReady := true;
     volume := AudioConfig.defaultVolume;
     currentTimbre := "audio";
     schemes := AudioManager.new;
     system := None;
     hasPlayer := false;
     timbreChanged := [] |}.

(** contextManager.ensureContext(), as the control panel calls it: the
    context is made when there is none; the player is not. *)
Definition makeContext (c : t) : t :=
  withSystem
    (Some (default (AudioPlaybackController.initial
                      (AudioManager.notesMap (schemes c)))
             (system c))) c.

(** ensureContext(), the context being made and running: the player, its
    controller and the loader are created when the player is not there. *)
Definition ensureContext (c : t) : t :=
  let c1 := makeContext c in
  if hasPlayer c1 then c1
  else
    {| isReady := isReady c1; volume := volume c1;
       currentTimbre := currentTimbre c1;
       schemes :=
         {| AudioManager.currentScheme := AudioManager.currentScheme (schemes c1);
            AudioManager.notesMap := AudioManager.notesMap (schemes c1);
            AudioManager.loader := Some JsMap.empty |};
       system := system c1;
       hasPlayer := true;
       timbreChanged := timbreChanged c1 |}.

End CoreManager.

(** ** The AudioLoader class: which files are fetched *)

Module AudioLoader.

(** The collections that loadAudioFile reads and writes, with the fetches it
    has started: [loadingPromises] is the key set of the map of that name,
    [inFlight] the calls of _fetchAndDecodeAudio that have not settled yet. *)
Record t : Type :=
  { loadingPromises : gset string;
    loadedFiles : gset string;
    inFlight : list string;
    started : list string (* every call of _fetchAndDecodeAudio, oldest first *) }.

(** constructor(audioContext) *)
Definition new : t :=
  {| loadingPromises := ∅; loadedFiles := ∅;
     inFlight := []; started := [] |}.

(** loadAudioFile(filePath), up to its await. *)
Definition loadAudioFile (filePath : string) (l : t) : t :=
  if bool_decide (filePath ∈ loadedFiles l) then l
  else if bool_decide (filePath ∈ loadingPromises l) then l
  else
    {| loadingPromises := {[ filePath ]} ∪ loadingPromises l;
       loadedFiles := loadedFiles l;
       inFlight := (inFlight l ++ [filePath])%list;
       started := (started l ++ [filePath])%list |}.

(** Takes one occurrence out of a list. *)
Fixpoint removeOne (x : string) (l : list string) : list string :=
  match l with
  | [] => []
  | y :: rest => if decide (y = x) then rest else y :: removeOne x rest
  end.

(** A call of _fetchAndDecodeAudio settles, and loadAudioFile goes on after
    its await: on success the file is marked as loaded; in both cases the
    promise is taken out of the map. *)
Definition settle (filePath : string) (succeeded : bool) (l : t) : t :=
  if bool_decide (filePath ∈ inFlight l)
  then
    {| loadingPromises := loadingPromises l ∖ {[ filePath ]};
       loadedFiles :=
         if succeeded then {[ filePath ]} ∪ loadedFiles l else loadedFiles l;
       inFlight := removeOne filePath (inFlight l);
       started := started l |}
  else l.

(** cleanup(), on these collections. *)
Definition cleanup (l : t) : t :=
  {| loadingPromises := ∅; loadedFiles := ∅;
     inFlight := inFlight l; started := started l |}.

(** isFileLoaded(filePath) *)
Definition isFileLoaded (filePath : string) (l : t) : bool :=
  bool_decide (filePath ∈ loadedFiles l).

Inductive Event : Type :=
| Load (filePath : string)
| Settle (filePath : string) (succeeded : bool)
| Cleanup.

Definition step (e : Event) (l : t) : t :=
  match e with
  | Load filePath => loadAudioFile filePath l
  | Settle filePath succeeded => settle filePath succeeded l
  | Cleanup => cleanup l
  end.

Definition run (events : list Event) (l : t) : t :=
  fold_left (fun l e => step e l) events l.

(** How often a file occurs in a list. *)
Definition count (x : string) (l : list string) : nat :=
  length (List.filter (fun y => bool_decide (y = x)) l).

(** The events after which a file may be fetched again: a failure of its
    fetch, and a cleanup. *)
Definition resets (filePath : string) (e : Event) : bool :=
  match e with
  | Settle f false => bool_decide (f = filePath)
  | Cleanup => true
  | _ => false
  end.

(** _getAllAudioFiles(), on the entries of NOTES_MAP in the order of the
    for-in loop. *)
Definition addFile (files : list string)
    (entry : string * AudioConfig.NoteMapping) : list string :=
  let file := AudioConfig.file (snd entry) in
  if bool_decide ((file <> EmptyString) /\ (file ∉ files))
  then (files ++ [file])%list
  else files.

Definition getAllAudioFiles (entries : list (string * AudioConfig.NoteMapping))
  : list string :=
  fold_left addFile entries [].

End AudioLoader.

(** * Properties *)

(** ** Maps in insertion order *)

Section ListFacts.
Context {A B : Type}.

Lemma elem_of_map (f : A -> B) (l : list A) (x : A) : x ∈ l -> f x ∈ map f l.
Proof. rewrite !list_elem_of_In. apply in_map. Qed.

Lemma elem_of_map_inv (f : A -> B) (l : list A) (y : B) :
  y ∈ map f l -> exists x, y = f x /\ x ∈ l.
Proof.
  rewrite list_elem_of_In, in_map_iff. intros (x & Hy & Hx).
  exists x. rewrite list_elem_of_In. auto.
Qed.

End ListFacts.

Section JsMapFacts.
Context {V : Type}.
Implicit Types (m : JsMap.t V) (k : string) (v : V).

Lemma get_set_eq m k v : JsMap.get (JsMap.set m k v) k = Some v.
Proof.
  induction m as [| [k' v'] r IH]; cbn.
  - destruct (decide (k = k)); congruence.
  - destruct (decide (k' = k)) as [-> | Hne]; cbn.
    + destruct (decide (k = k)); congruence.
    + destruct (decide (k' = k)); [contradiction | exact IH].
Qed.

Lemma get_set_ne m k k' v : k <> k' -> JsMap.get (JsMap.set m k v) k' = JsMap.get m k'.
Proof.
  intros Hne. induction m as [| [k0 v0] r IH]; cbn.
  - destruct (decide (k = k')); [contradiction | reflexivity].
  - destruct (decide (k0 = k)) as [-> | H0]; cbn.
    + destruct (decide (k = k')); [contradiction | reflexivity].
    + destruct (decide (k0 = k')); [reflexivity | exact IH].
Qed.

Lemma get_Some_keys m k v : JsMap.get m k = Some v -> k ∈ JsMap.keys m.
Proof.
  induction m as [| [k' v'] r IH]; cbn; [discriminate |].
  destruct (decide (k' = k)) as [-> | Hne]; intros H.
  - apply elem_of_cons. by left.
  - apply elem_of_cons. right. by apply IH.
Qed.


Lemma get_Some_elem m k v : JsMap.get m k = Some v -> (k, v) ∈ m.
Proof.
  induction m as [| [k' v'] r IH]; cbn; [discriminate |].
  destruct (decide (k' = k)) as [-> | Hne]; intros H.
  - injection H as ->. apply elem_of_cons. by left.
  - apply elem_of_cons. right. by apply IH.
Qed.

Lemma elem_get m k v : JsMap.wf m -> (k, v) ∈ m -> JsMap.get m k = Some v.
Proof.
  unfold JsMap.wf, JsMap.keys.
  induction m as [| [k' v'] r IH]; cbn; intros Hwf Hin.
  - by apply elem_of_nil in Hin.
  - apply NoDup_cons in Hwf as [Hnotin Hwf].
    apply elem_of_cons in Hin as [Heq | Hin].
    + injection Heq as -> ->. destruct (decide (k' = k')); congruence.
    + destruct (decide (k' = k)) as [-> | Hne]; [| by apply IH].
      exfalso. apply Hnotin. apply (elem_of_map fst) in Hin. exact Hin.
Qed.

Lemma keys_set_old m k v : k ∈ JsMap.keys m -> JsMap.keys (JsMap.set m k v) = JsMap.keys m.
Proof.
  induction m as [| [k' v'] r IH]; cbn; intros Hin.
  - by apply elem_of_nil in Hin.
  - destruct (decide (k' = k)) as [-> | Hne]; cbn; [reflexivity |].
    f_equal. apply IH. apply elem_of_cons in Hin as [-> | Hin]; [contradiction | exact Hin].
Qed.

Lemma set_new m k v : k ∉ JsMap.keys m -> JsMap.set m k v = (m ++ [(k, v)])%list.
Proof.
  induction m as [| [k' v'] r IH]; cbn; intros Hnotin; [reflexivity |].
  apply not_elem_of_cons in Hnotin as [Hne Hnotin].
  destruct (decide (k' = k)); [congruence |]. f_equal. by apply IH.
Qed.

Lemma wf_set m k v : JsMap.wf m -> JsMap.wf (JsMap.set m k v).
Proof.
  intros Hwf. unfold JsMap.wf in *.
  destruct (decide (k ∈ JsMap.keys m)) as [Hin | Hnotin].
  - by rewrite keys_set_old.
  - rewrite set_new by assumption. unfold JsMap.keys in *.
    rewrite map_app. cbn. apply NoDup_app. repeat split; try assumption.
    + intros x Hx Hx'. apply list_elem_of_singleton in Hx'. congruence.
    + apply NoDup_singleton.
Qed.

Lemma keys_delete_subset m k x : x ∈ JsMap.keys (JsMap.delete m k) -> x ∈ JsMap.keys m.
Proof.
  induction m as [| [k' v'] r IH]; cbn; [done |].
  destruct (decide (k' = k)); cbn; rewrite ?elem_of_cons; naive_solver.
Qed.

Lemma wf_delete m k : JsMap.wf m -> JsMap.wf (JsMap.delete m k).
Proof.
  unfold JsMap.wf. induction m as [| [k' v'] r IH]; cbn; [done |].
  intros Hwf. apply NoDup_cons in Hwf as [Hnotin Hwf].
  destruct (decide (k' = k)); cbn; [exact Hwf |].
  apply NoDup_cons. split; [| by apply IH].
  intros Hin. apply Hnotin. eapply keys_delete_subset, Hin.
Qed.


Lemma get_delete_ne m k k' : k <> k' -> JsMap.get (JsMap.delete m k) k' = JsMap.get m k'.
Proof.
  intros Hne. induction m as [| [k0 v0] r IH]; cbn; [done |].
  destruct (decide (k0 = k)) as [-> | H0]; cbn.
  - destruct (decide (k = k')); [contradiction | reflexivity].
  - destruct (decide (k0 = k')); [reflexivity | exact IH].
Qed.

Lemma delete_absent m k : JsMap.get m k = None -> JsMap.delete m k = m.
Proof.
  induction m as [| [k' v'] r IH]; cbn; [done |].
  destruct (decide (k' = k)); [discriminate |]. intros H. f_equal. by apply IH.
Qed.

Lemma size_set m k v : (JsMap.size (JsMap.set m k v) <= S (JsMap.size m))%nat.
Proof.
  unfold JsMap.size. induction m as [| [k' v'] r IH]; cbn; [lia |].
  destruct (decide (k' = k)); cbn; lia.
Qed.

Lemma size_delete m k : (JsMap.size (JsMap.delete m k) <= JsMap.size m)%nat.
Proof.
  unfold JsMap.size. induction m as [| [k' v'] r IH]; cbn; [lia |].
  destruct (decide (k' = k)); cbn; lia.
Qed.

Lemma size_delete_present m k v :
  JsMap.get m k = Some v -> S (JsMap.size (JsMap.delete m k)) = JsMap.size m.
Proof.
  unfold JsMap.size. induction m as [| [k' v'] r IH]; cbn; [discriminate |].
  destruct (decide (k' = k)); cbn; [reflexivity |]. intros H. f_equal. by apply IH.
Qed.

End JsMapFacts.

(** ** Evaluation of the monadic code

    The methods are unfolded by value, so that a state is computed once
    before the next call reads it. *)

Ltac osc_step :=
  cbv [Run.bind Run.ret Run.gets Run.modify Oscillator.call Oscillator.create
       Oscillator.onThis Oscillator.this Oscillator.audioContext
       Browser.nextNode Browser.calls].

Ltac osc_step_in H :=
  cbv [Run.bind Run.ret Run.gets Run.modify Oscillator.call Oscillator.create
       Oscillator.onThis Oscillator.this Oscillator.audioContext
       Browser.nextNode Browser.calls] in H.

Ltac player_step :=
  cbv [Run.bind Run.ret Run.gets Run.modify AudioPlayer.call AudioPlayer.create
       AudioPlayer.withSources AudioPlayer.withContext AudioPlayer.player
       AudioPlayer.context AudioPlayer.oscillators AudioPlayer.notesMap
       Browser.nextNode Browser.calls].

Ltac player_step_in H :=
  cbv [Run.bind Run.ret Run.gets Run.modify AudioPlayer.call AudioPlayer.create
       AudioPlayer.withSources AudioPlayer.withContext AudioPlayer.player
       AudioPlayer.context AudioPlayer.oscillators AudioPlayer.notesMap
       Browser.nextNode Browser.calls] in H.

(** ** Doubles: the binade of a product

    The frequencies beyond the table are products of doubles that are not
    known in advance.  What is needed of them is read off the
    specification of the multiplication: the product of two normal positive
    doubles is a normal positive double whose leading digit is where the
    sum of the two exponents puts it, or it overflows. *)

Section Binades.
Import SpecFloat.











(** ** Doubles in a range of binades *)

(** A normal positive double whose leading digit has an exponent between
    [lo] and [hi]: a number in [[2^lo, 2^(hi+1))]. *)
Definition inBinades (lo hi : Z) (x : float) : Prop :=
  exists m e,
    Prim2SF x = S754_finite false m e
    /\ Zpos (digits2_pos m) = 53 /\ lo <= e + 52 <= hi.

(** The same, or the overflow to +Infinity. *)
Definition fromBinade (lo : Z) (x : float) : Prop :=
  Prim2SF x = S754_infinity false \/ exists hi, inBinades lo hi x.






Lemma inBinades_weaken a b a' b' x :
  inBinades a b x -> a' <= a -> b <= b' -> inBinades a' b' x.
Proof. intros (m & e & Hx & Hm & He) Ha Hb. exists m, e. repeat split; (assumption || lia). Qed.

Lemma fromBinade_weaken a a' x : fromBinade a x -> a' <= a -> fromBinade a' x.
Proof.
  intros [Hinf | (hi & H)] Ha; [by left |]. right. exists hi.
  by apply (inBinades_weaken a hi).
Qed.




End Binades.

(** ** Note frequencies *)

Section Frequencies.
Import Browser.

(** The entry of the table at an index. *)
Definition entry (k : nat) : float :=
  nth k AudioConfig.NOTE_FREQUENCIES PrimFloat.nan.

(** [g] maps the table to a strictly increasing sequence. *)
Definition increasingOnTable (g : float -> float) : bool :=
  forallb (fun i =>
    forallb (fun j =>
      implb (Nat.ltb i j) (PrimFloat.ltb (g (entry i)) (g (entry j))))
      (seq 0 19))
    (seq 0 19).

Lemma increasingOnTable_spec g i j :
  increasingOnTable g = true -> (i < j < 19)%nat ->
  PrimFloat.ltb (g (entry i)) (g (entry j)) = true.
Proof.
  intros Hc [Hij Hj].
  unfold increasingOnTable in Hc.
  rewrite forallb_forall in Hc.
  specialize (Hc i). rewrite forallb_forall in Hc.
  assert (Hi : In i (seq 0 19)) by (apply in_seq; lia).
  assert (Hj' : In j (seq 0 19)) by (apply in_seq; lia).
  specialize (Hc Hi j Hj').
  apply Nat.ltb_lt in Hij. rewrite Hij in Hc. exact Hc.
Qed.

Lemma getFrequencyForNote_table host o (k : Z) :
  configured host -> 1 <= k <= 19 ->
  Oscillator.getFrequencyForNote host o (Js.toString k) =
  Oscillator.tuned host (Oscillator.type (Oscillator.options o))
    (Oscillator.pitchShift (Oscillator.currentPitch o)
       (entry (Z.to_nat (k - 1)))).
Proof.
  intros Hc Hk. unfold Oscillator.getFrequencyForNote. rewrite Hc.
  assert (H : k = 1 \/ k = 2 \/ k = 3 \/ k = 4 \/ k = 5 \/ k = 6 \/ k = 7 \/
              k = 8 \/ k = 9 \/ k = 10 \/ k = 11 \/ k = 12 \/ k = 13 \/
              k = 14 \/ k = 15 \/ k = 16 \/ k = 17 \/ k = 18 \/ k = 19) by lia.
  clear Hk.
  repeat (destruct H as [-> | H]; [reflexivity |]).
  subst k. reflexivity.
Qed.

(** C5.  With the table of audio-config.js loaded, and Math.pow(2, 1/12)
    accurate to one unit in the last place, the frequency of note String(m)
    is strictly below that of note String(n) whenever 1 <= m < n <= 19,
    whatever the pitch mode and the waveform of the instance. *)
Theorem getFrequencyForNote_strictly_increasing host o (m n : Z) :
  configured host -> accurateSemitone host ->
  1 <= m -> m < n -> n <= 19 ->
  PrimFloat.ltb (Oscillator.getFrequencyForNote host o (Js.toString m))
                (Oscillator.getFrequencyForNote host o (Js.toString n)) = true.
Proof.
  intros Hc Hs Hm Hmn Hn.
  rewrite !getFrequencyForNote_table by (assumption || lia).
  assert (Hij : (Z.to_nat (m - 1) < Z.to_nat (n - 1) < 19)%nat) by lia.
  revert Hij. generalize (Z.to_nat (m - 1)) (Z.to_nat (n - 1)). intros i j Hij.
  unfold Oscillator.tuned, Oscillator.pitchShift, Oscillator.semitone.
  unfold accurateSemitone, semitoneValues in Hs.
  set (s := Math_pow host 2 (1 / 12)) in *.
  assert (Hs' : s = 0x1.0f38f92d97962p+0%float
                \/ s = 0x1.0f38f92d97963p+0%float
                \/ s = 0x1.0f38f92d97964p+0%float).
  { rewrite !elem_of_cons in Hs. rewrite elem_of_nil in Hs. tauto. }
  clearbody s. clear Hs.
  destruct (bool_decide _ || bool_decide _)%bool;
    destruct (decide (Oscillator.currentPitch o = "low"));
    try destruct (decide (Oscillator.currentPitch o = "high"));
    try (destruct Hs' as [-> | [-> | ->]]).
  all: match goal with
       | |- PrimFloat.ltb ?a ?b = true =>
           let g := eval pattern (entry i) in a in
           match g with
           | ?f _ =>
               apply (increasingOnTable_spec f i j);
               [vm_compute; reflexivity | exact Hij]
           end
       end.
Qed.

Lemma getFrequencyForNote_strictly_increasing_witness :
  PrimFloat.ltb
    (Oscillator.getFrequencyForNote exampleHost Oscillator.createOscillator "1")
    (Oscillator.getFrequencyForNote exampleHost Oscillator.createOscillator "19")
  = true.
Proof.
  apply (getFrequencyForNote_strictly_increasing
           exampleHost Oscillator.createOscillator 1 19).
  - reflexivity.
  - unfold accurateSemitone, semitoneValues. apply elem_of_cons. right.
    apply elem_of_cons. left. reflexivity.
  - lia.
  - lia.
  - lia.
Defined.

End Frequencies.

(** ** The envelope *)

Section Envelope.
Import Browser Oscillator.

(** The state with more calls issued. *)
Definition logged (s : Heap) (cs : list Call) : Heap :=
  {| this := this s;
     audioContext :=
       {| nextNode := nextNode (audioContext s);
          calls := (calls (audioContext s) ++ cs)%list |} |}.

(** No call of the list is refused. *)
Definition allAccepted (l : list Call) : bool :=
  forallb (fun c => negb (refuses c)) l.

Lemma logged_nil s : logged s [] = s.
Proof. destruct s as [o [n cs]]. unfold logged. cbn. by rewrite app_nil_r. Qed.

Lemma logged_logged s l1 l2 : logged (logged s l1) l2 = logged s (l1 ++ l2).
Proof. unfold logged. cbn. by rewrite app_assoc. Qed.

Lemma accepted_all l : allAccepted l = true -> accepted l = l.
Proof.
  unfold allAccepted. induction l as [| c r IH]; [reflexivity |].
  cbn [forallb accepted]. destruct (refuses c); cbn [negb andb];
    [discriminate |].
  intros H. by rewrite IH.
Qed.

Lemma accepted_app l1 l2 :
  accepted (l1 ++ l2)
  = (if allAccepted l1 then l1 ++ accepted l2 else accepted l1)%list.
Proof.
  unfold allAccepted. induction l1 as [| c r IH]; [reflexivity |].
  cbn [forallb accepted app]. destruct (refuses c); cbn [negb andb];
    [reflexivity |].
  rewrite IH. by destruct (forallb _ r).
Qed.

Lemma allAccepted_app l1 l2 :
  allAccepted (l1 ++ l2) = (allAccepted l1 && allAccepted l2)%bool.
Proof. apply forallb_app. Qed.

(** A call of a try block, and the block after it. *)
Lemma attempt_eq c s :
  attempt c s
  = (if refuses c then None else Some tt, logged s (accepted [c])).
Proof.
  unfold attempt. cbn [accepted]. destruct (refuses c).
  - by rewrite logged_nil.
  - reflexivity.
Qed.

Lemma andThen_eq (m k : Run.M Heap (option unit)) s :
  Run.andThen m k s
  = match fst (m s) with
    | Some _ => k (snd (m s))
    | None => (None, snd (m s))
    end.
Proof. unfold Run.andThen, Run.bind. destruct (m s) as [[[] |] s']; reflexivity. Qed.

(** A block that issues the calls of a list, as far as they are accepted. *)
Definition issues (m : Run.M Heap (option unit)) (l : list Call) : Prop :=
  forall s,
    m s = (if allAccepted l then Some tt else None, logged s (accepted l)).

Lemma attempt_issues c : issues (attempt c) [c].
Proof.
  intros s. rewrite attempt_eq. unfold allAccepted. cbn [forallb].
  by destruct (refuses c).
Qed.

Lemma andThen_issues m k l1 l2 :
  issues m l1 -> issues k l2 -> issues (Run.andThen m k) (l1 ++ l2).
Proof.
  intros Hm Hk s. rewrite andThen_eq. rewrite !Hm. cbn [fst snd].
  rewrite allAccepted_app, accepted_app.
  destruct (allAccepted l1) eqn:E1; cbn [andb]; [| reflexivity].
  rewrite Hk, logged_logged. by rewrite (accepted_all l1 E1).
Qed.

Lemma applyADSREnvelope_calls env gain V opts :
  issues (applyADSREnvelope env gain V opts)
    (adsr gain (currentTime env) V (attack opts) (decay opts)
       (sustain opts) (release opts) (duration opts)).
Proof.
  unfold applyADSREnvelope, adsr.
  repeat (apply (andThen_issues _ _ [_]); [apply attempt_issues |]).
  apply attempt_issues.
Qed.

(** The calls of playNote's try block on its two nodes. *)
Definition scheduled (env : Env) (opts : Options) (frequency velocity : float)
  (oscillator gain : nat) : list Call :=
  ([ SetFrequency oscillator frequency; SetType oscillator (type opts) ] ++
   adsr gain (currentTime env) (velocity * volume opts) (attack opts)
     (decay opts) (sustain opts) (release opts) (duration opts) ++
   [ Start oscillator (currentTime env);
     Stop oscillator (currentTime env + duration opts) ])%list.

(** A block that issues the calls of a list and, when all are accepted, goes
    on with [k]. *)
Definition leads (m k : Run.M Heap (option unit)) (l : list Call) : Prop :=
  forall s,
    m s = if allAccepted l then k (logged s l) else (None, logged s (accepted l)).

Lemma leads_one m k l : issues m l -> leads (Run.andThen m k) k l.
Proof.
  intros Hm s. rewrite andThen_eq. rewrite !Hm. cbn [fst snd].
  destruct (allAccepted l) eqn:E; [| reflexivity].
  by rewrite (accepted_all l E).
Qed.

Lemma leads_cons m m' k l1 l2 :
  issues m l1 -> leads m' k l2 -> leads (Run.andThen m m') k (l1 ++ l2).
Proof.
  intros Hm Hm' s. rewrite andThen_eq. rewrite !Hm. cbn [fst snd].
  rewrite allAccepted_app, accepted_app.
  destruct (allAccepted l1) eqn:E1; cbn [andb]; [| reflexivity].
  rewrite Hm', (accepted_all l1 E1), !logged_logged. reflexivity.
Qed.

(** The try block of playNote after the nodes are connected. *)
Lemma playNote_block env oscillator gain opts frequency velocity
    (k : Run.M Heap (option unit)) s :
  (attempt (SetFrequency oscillator frequency) ;;;
   attempt (SetType oscillator (type opts)) ;;;
   applyADSREnvelope env gain (velocity * volume opts) opts ;;;
   attempt (Start oscillator (currentTime env)) ;;;
   attempt (Stop oscillator (currentTime env + duration opts)) ;;;
   k)%run s
  = let l := scheduled env opts frequency velocity oscillator gain in
    if allAccepted l then k (logged s l) else (None, logged s (accepted l)).
Proof.
  revert s. unfold scheduled.
  change (leads
    (attempt (SetFrequency oscillator frequency) ;;;
     attempt (SetType oscillator (type opts)) ;;;
     applyADSREnvelope env gain (velocity * volume opts) opts ;;;
     attempt (Start oscillator (currentTime env)) ;;;
     attempt (Stop oscillator (currentTime env + duration opts)) ;;;
     k)%run k
    ([SetFrequency oscillator frequency] ++ [SetType oscillator (type opts)] ++
     adsr gain (currentTime env) (velocity * volume opts) (attack opts)
       (decay opts) (sustain opts) (release opts) (duration opts) ++
     [Start oscillator (currentTime env)] ++
     [Stop oscillator (currentTime env + duration opts)])%list).
  apply leads_cons; [apply attempt_issues |].
  apply leads_cons; [apply attempt_issues |].
  apply leads_cons; [apply applyADSREnvelope_calls |].
  apply leads_cons; [apply attempt_issues |].
  apply leads_one, attempt_issues.
Qed.

(** playNote outside the sustain mode, on a note whose frequency resolves:
    the voice is entered when every call of the try block is accepted, and
    the answer is null when one is refused. *)
Lemma playNote_plain host env o ctx noteName velocity customOptions :
  (o_sustainMode customOptions || sustainMode o)%bool = false ->
  Js.truthy (getFrequencyForNote host o noteName) = true ->
  let opts := merge (options o) customOptions in
  let oscillator := nextNode ctx in
  let gain := S (nextNode ctx) in
  let l := scheduled env opts (getFrequencyForNote host o noteName) velocity
             oscillator gain in
  let sourceId :=
    "osc_" +:+ noteName +:+ "_" +:+ Js.toString (idStamp env) +:+ "_"
      +:+ random env in
  let made :=
    (calls ctx ++
     [ CreateOscillator oscillator; CreateGain gain;
       Connect oscillator (Node gain); Connect gain Destination ])%list in
  playNote host env noteName velocity customOptions
    {| this := o; audioContext := ctx |}
  = if allAccepted l
    then (Some sourceId,
          {| this :=
               withActiveSources (fun m =>
                 JsMap.set m sourceId
                   {| oscillator := oscillator; gainNode := gain;
                      noteName := noteName; startTime := currentTime env |}) o;
             audioContext :=
               {| nextNode := S (S (nextNode ctx));
                  calls :=
                    (made ++ l ++
                     [OnEnded oscillator (OscillatorCleanupSource sourceId)])%list
               |} |})
    else (None,
          {| this := o;
             audioContext :=
               {| nextNode := S (S (nextNode ctx));
                  calls := (made ++ accepted l)%list |} |}).
Proof.
  intros Hmode Hfreq opts oscillator gain l sourceId made.
  destruct ctx as [n cs]. cbn [nextNode calls] in oscillator, gain, made.
  subst oscillator gain. unfold playNote.
  unfold Run.bind at 1. unfold Run.gets at 1.
  unfold Run.bind at 1. unfold Run.gets at 1.
  cbn [this options sustainMode]. rewrite Hmode.
  unfold Run.bind at 1. unfold Run.gets at 1. cbn [this]. rewrite Hfreq.
  cbn [negb].
  unfold Run.bind at 1. unfold create at 1.
  unfold Run.bind at 1. unfold create at 1.
  cbn [audioContext nextNode calls this].
  unfold Run.bind at 1. unfold call at 1. unfold Run.modify at 1.
  unfold Run.bind at 1. unfold call at 1. unfold Run.modify at 1.
  cbn [audioContext nextNode calls this].
  unfold Run.bind at 1.
  set (s0 := {| this := o; audioContext := _ |}).
  rewrite (playNote_block env n (S n) opts
             (getFrequencyForNote host o noteName) velocity _ s0).
  cbv zeta. fold l. destruct (allAccepted l) eqn:Hl.
  - unfold Run.bind at 1. unfold Run.modify at 1.
    unfold Run.bind at 1. unfold call at 1. unfold Run.modify at 1.
    unfold Run.ret. subst s0 made. unfold logged, onThis.
    cbn [this audioContext nextNode calls].
    rewrite <- !app_assoc. reflexivity.
  - unfold Run.ret. subst s0 made. unfold logged.
    cbn [this audioContext nextNode calls].
    rewrite <- !app_assoc. reflexivity.
Qed.

(** playNote in the sustain mode. *)
Lemma playNote_sustaining host env noteName velocity customOptions s :
  (o_sustainMode customOptions || sustainMode (this s))%bool = true ->
  playNote host env noteName velocity customOptions s
  = playSustainedNote host env noteName velocity
      (merge (options (this s)) customOptions) s.
Proof.
  intros Hmode. unfold playNote.
  unfold Run.bind at 1. unfold Run.gets at 1.
  unfold Run.bind at 1. unfold Run.gets at 1.
  by rewrite Hmode.
Qed.

(** playNote outside the sustain mode, on a note whose frequency does not
    resolve. *)
Lemma playNote_unresolved host env noteName velocity customOptions s :
  (o_sustainMode customOptions || sustainMode (this s))%bool = false ->
  Js.truthy (getFrequencyForNote host (this s) noteName) = false ->
  playNote host env noteName velocity customOptions s = (None, s).
Proof.
  intros Hmode Hfreq. unfold playNote.
  unfold Run.bind at 1. unfold Run.gets at 1.
  unfold Run.bind at 1. unfold Run.gets at 1.
  rewrite Hmode.
  unfold Run.bind at 1. unfold Run.gets at 1. rewrite Hfreq. reflexivity.
Qed.

(** What playNote outside the sustain mode does to the instance: nothing, or
    one voice more. *)
Lemma playNote_this host env noteName velocity customOptions s :
  (o_sustainMode customOptions || sustainMode (this s))%bool = false ->
  this (snd (playNote host env noteName velocity customOptions s)) = this s
  \/ exists sourceId info,
       this (snd (playNote host env noteName velocity customOptions s))
       = withActiveSources (fun m => JsMap.set m sourceId info) (this s).
Proof.
  intros Hmode.
  destruct (Js.truthy (getFrequencyForNote host (this s) noteName)) eqn:Hfreq.
  - destruct s as [o ctx]. cbn [this] in *.
    rewrite playNote_plain by assumption.
    destruct (allAccepted _); [right | left; reflexivity].
    eexists. eexists. reflexivity.
  - left. by rewrite playNote_unresolved.
Qed.


End Envelope.

(** ** Frequencies beyond the table *)

Section Resolves.
Import Browser Oscillator.















End Resolves.

(** ** Sustained notes *)

Section Sustained.
Import Browser Oscillator.











Lemma forEach_preserves {S A} (P : S -> Prop) (body : A -> Run.M S unit) l s :
  (forall x s, P s -> P (snd (body x s))) -> P s -> P (snd (Run.forEach l body s)).
Proof.
  intros Hbody. revert s. induction l as [| x r IH]; intros s Hs; cbn.
  - exact Hs.
  - unfold Run.bind. specialize (Hbody x s Hs).
    destruct (body x s) as [[] s1]. cbn in *. by apply IH.
Qed.







End Sustained.

(** ** The registry of the player *)

Section Registry.
Import Browser.
Abbreviation SourceInfo := AudioPlayer.SourceInfo.
Implicit Types (m : JsMap.t SourceInfo) (w : AudioPlayer.World).

Definition reg w : JsMap.t SourceInfo :=
  AudioPlayer.activeSources (AudioPlayer.player w).

(** What stopNote does to the registry for one id: an instance with a gain
    node fades and stays until its timer fires; any other is removed. *)
Definition stopOne (id : string) m : JsMap.t SourceInfo :=
  match JsMap.get m id ≫= AudioPlayer.gainNode with
  | Some _ => m
  | None => JsMap.delete m id
  end.

(** The registry holds one entry per id, no empty id, and audio elements
    only. *)
Definition regOk m : Prop :=
  JsMap.wf m /\ "" ∉ JsMap.keys m
  /\ forall e, e ∈ m -> AudioPlayer.gainNode (snd e) = None.

Lemma elem_delete m k e : e ∈ JsMap.delete m k -> e ∈ m.
Proof.
  induction m as [| [k' v'] r IH]; cbn; [done |].
  destruct (decide (k' = k)); rewrite ?elem_of_cons; naive_solver.
Qed.

Lemma regOk_delete m k : regOk m -> regOk (JsMap.delete m k).
Proof.
  intros (Hwf & Hne & Hg). repeat split.
  - by apply wf_delete.
  - intros Hin. apply Hne. eapply keys_delete_subset, Hin.
  - intros e He. apply Hg. eapply elem_delete, He.
Qed.

Lemma elem_set m k v e : e ∈ JsMap.set m k v -> e = (k, v) \/ e ∈ m.
Proof.
  induction m as [| [k' v'] r IH]; cbn.
  - rewrite list_elem_of_singleton. by left.
  - destruct (decide (k' = k)); rewrite !elem_of_cons; naive_solver.
Qed.

Lemma keys_set m k v x : x ∈ JsMap.keys (JsMap.set m k v) -> x = k \/ x ∈ JsMap.keys m.
Proof.
  induction m as [| [k' v'] r IH]; cbn.
  - rewrite list_elem_of_singleton. by left.
  - destruct (decide (k' = k)); cbn; rewrite !elem_of_cons; naive_solver.
Qed.

Lemma regOk_set m k v :
  regOk m -> k <> "" -> AudioPlayer.gainNode v = None -> regOk (JsMap.set m k v).
Proof.
  intros (Hwf & Hne & Hg) Hk Hv. repeat split.
  - by apply wf_set.
  - intros Hin. apply keys_set in Hin as [Heq | Hin]; [congruence | by apply Hne].
  - intros e He. apply elem_set in He as [-> | He]; [exact Hv | by apply Hg].
Qed.

Lemma regOk_nil : regOk [].
Proof.
  repeat split.
  - apply NoDup_nil_2.
  - apply not_elem_of_nil.
  - intros e He. by apply elem_of_nil in He.
Qed.

Lemma cleanupSource_reg env id w :
  reg (snd (AudioPlayer.cleanupSource env id w)) = JsMap.delete (reg w) id.
Proof.
  destruct w as [p os nm [nn cs]].
  unfold AudioPlayer.cleanupSource, reg. player_step.
  destruct (JsMap.get _ id) as [info |] eqn:E.
  - destruct (AudioPlayer.gainNode info); reflexivity.
  - cbn. symmetry. by apply delete_absent.
Qed.

Lemma forEach_fold {S A R} (proj : S -> R) (body : A -> Run.M S unit)
    (f : A -> R -> R) :
  (forall x s, proj (snd (body x s)) = f x (proj s)) ->
  forall l s,
    proj (snd (Run.forEach l body s)) = fold_left (fun r x => f x r) l (proj s).
Proof.
  intros Hbody l. induction l as [| x r IH]; intros s; cbn; [reflexivity |].
  unfold Run.bind. specialize (Hbody x s).
  destruct (body x s) as [[] s1]. cbn in Hbody. rewrite <- Hbody. apply IH.
Qed.

Lemma stopNote_reg env name w :
  reg (snd (AudioPlayer.stopNote env name w)) =
  fold_left (fun m id => stopOne id m)
    (JsMap.keys (filter (fun e => AudioPlayer.noteName (snd e) = name) (reg w)))
    (reg w).
Proof.
  unfold AudioPlayer.stopNote.
  unfold Run.bind at 1. unfold Run.gets at 1.
  apply (forEach_fold reg _ stopOne).
  intros id w0. unfold Run.bind at 1. unfold Run.gets at 1.
  fold (reg w0). unfold stopOne.
  destruct (JsMap.get (reg w0) id ≫= AudioPlayer.gainNode).
  - destruct w0 as [p os nm [nn cs]]. unfold reg. player_step. reflexivity.
  - apply cleanupSource_reg.
Qed.

Lemma stopOne_regOk id m : regOk m -> regOk (stopOne id m).
Proof.
  intros Hok. unfold stopOne.
  destruct (_ ≫= _); [exact Hok | by apply regOk_delete].
Qed.

Lemma stopOne_size id m : (JsMap.size (stopOne id m) <= JsMap.size m)%nat.
Proof.
  unfold stopOne. destruct (_ ≫= _); [lia | apply size_delete].
Qed.

Lemma fold_stopOne_regOk ids m :
  regOk m -> regOk (fold_left (fun m id => stopOne id m) ids m).
Proof.
  revert m. induction ids as [| id r IH]; intros m Hok; cbn; [exact Hok |].
  by apply IH, stopOne_regOk.
Qed.

Lemma fold_stopOne_size ids m :
  (JsMap.size (fold_left (fun m id => stopOne id m) ids m) <= JsMap.size m)%nat.
Proof.
  revert m. induction ids as [| id r IH]; intros m; cbn [fold_left]; [lia |].
  etransitivity; [apply IH | apply stopOne_size].
Qed.

End Registry.

Section Eviction.
Import Browser.
Abbreviation SourceInfo := AudioPlayer.SourceInfo.
Implicit Types (m : JsMap.t SourceInfo) (w : AudioPlayer.World).

(** With a candidate in hand, the scan ends on an entry that started no
    later than the candidate and no later than any entry scanned, and that
    is the candidate unless a strictly earlier entry was met. *)
Lemma oldest_from entries id0 info0 :
  exists id info,
    AudioPlayer.oldest entries (Some id0) (Some (AudioPlayer.startTime info0))
      = Some id
    /\ ((id, info) = (id0, info0) \/ (id, info) ∈ entries)
    /\ AudioPlayer.startTime info <= AudioPlayer.startTime info0
    /\ forall e, e ∈ entries ->
         AudioPlayer.startTime info <= AudioPlayer.startTime (snd e).
Proof.
  revert id0 info0. induction entries as [| [k i] r IH]; intros id0 info0; cbn.
  - exists id0, info0. repeat split; [by left | lia |].
    intros e He. by apply elem_of_nil in He.
  - destruct (Z.ltb_spec (AudioPlayer.startTime i) (AudioPlayer.startTime info0)).
    + destruct (IH k i) as (id & info & Ho & Hin & Hle & Hall).
      exists id, info. repeat split; [exact Ho | | lia |].
      * right. destruct Hin as [-> | Hin]; apply elem_of_cons; [by left | by right].
      * intros e He. apply elem_of_cons in He as [-> | He]; [exact Hle | by apply Hall].
    + destruct (IH id0 info0) as (id & info & Ho & Hin & Hle & Hall).
      exists id, info. repeat split; [exact Ho | | exact Hle |].
      * destruct Hin as [Heq | Hin]; [by left | right; apply elem_of_cons; by right].
      * intros e He. apply elem_of_cons in He as [-> | He]; [cbn; lia | by apply Hall].
Qed.

(** On a registry that is not empty the scan finds an entry of least start
    time. *)
Lemma oldest_minimum m :
  m <> [] ->
  exists id info,
    AudioPlayer.oldest m None None = Some id
    /\ (id, info) ∈ m
    /\ forall e, e ∈ m ->
         AudioPlayer.startTime info <= AudioPlayer.startTime (snd e).
Proof.
  destruct m as [| [k i] r]; [done |]. intros _. cbn.
  destruct (oldest_from r k i) as (id & info & Ho & Hin & Hle & Hall).
  exists id, info. repeat split; [exact Ho | |].
  - destruct Hin as [-> | Hin]; apply elem_of_cons; [by left | by right].
  - intros e He. apply elem_of_cons in He as [-> | He]; [exact Hle | by apply Hall].
Qed.

(** The candidate stays when nothing after it started strictly earlier. *)
Lemma oldest_keeps entries id0 t0 :
  (forall e, e ∈ entries -> t0 <= AudioPlayer.startTime (snd e)) ->
  AudioPlayer.oldest entries (Some id0) (Some t0) = Some id0.
Proof.
  induction entries as [| [k i] r IH]; intros Hall; cbn; [reflexivity |].
  destruct (Z.ltb_spec (AudioPlayer.startTime i) t0) as [Hlt | Hge].
  - specialize (Hall (k, i)). cbn in Hall.
    assert (t0 <= AudioPlayer.startTime i) by (apply Hall, elem_of_cons; by left).
    lia.
  - apply IH. intros e He. apply Hall, elem_of_cons. by right.
Qed.

Lemma stopOldestSource_reg env w :
  reg (snd (AudioPlayer.stopOldestSource env w)) =
  match AudioPlayer.oldest (reg w) None None with
  | Some id => if decide (id = "") then reg w else JsMap.delete (reg w) id
  | None => reg w
  end.
Proof.
  unfold AudioPlayer.stopOldestSource.
  unfold Run.bind at 1. unfold Run.gets at 1. cbn. fold (reg w).
  destruct (reg w) as [| [k i] r] eqn:E; [exact E |].
  cbn [JsMap.size length Nat.eqb].
  destruct (AudioPlayer.oldest _ None None) as [id |]; [| exact E].
  destruct (decide (id = "")); [exact E |].
  rewrite cleanupSource_reg. by rewrite E.
Qed.

(** stopOldestSource removes exactly the entry found by the scan, which
    started no later than any other. *)
Lemma stopOldestSource_evicts env w :
  regOk (reg w) -> reg w <> [] ->
  exists id info,
    JsMap.get (reg w) id = Some info
    /\ (forall e, e ∈ reg w ->
          AudioPlayer.startTime info <= AudioPlayer.startTime (snd e))
    /\ reg (snd (AudioPlayer.stopOldestSource env w)) = JsMap.delete (reg w) id
    /\ S (JsMap.size (reg (snd (AudioPlayer.stopOldestSource env w))))
       = JsMap.size (reg w).
Proof.
  intros (Hwf & Hne & _) Hnonempty.
  destruct (oldest_minimum (reg w) Hnonempty) as (id & info & Ho & Hin & Hmin).
  assert (Hget : JsMap.get (reg w) id = Some info) by (by apply elem_get).
  exists id, info. rewrite stopOldestSource_reg, Ho.
  destruct (decide (id = "")) as [-> | _].
  - exfalso. apply Hne. eapply get_Some_keys, Hget.
  - repeat split; [exact Hget | exact Hmin |].
    by eapply size_delete_present.
Qed.

Lemma stopOldestSource_size env w :
  (JsMap.size (reg (snd (AudioPlayer.stopOldestSource env w)))
   <= JsMap.size (reg w))%nat.
Proof.
  rewrite stopOldestSource_reg.
  destruct (AudioPlayer.oldest _ _ _); [| lia].
  destruct (decide _); [lia | apply size_delete].
Qed.

Lemma stopOldestSource_regOk env w :
  regOk (reg w) -> regOk (reg (snd (AudioPlayer.stopOldestSource env w))).
Proof.
  intros Hok. rewrite stopOldestSource_reg.
  destruct (AudioPlayer.oldest _ _ _); [| exact Hok].
  destruct (decide _); [exact Hok | by apply regOk_delete].
Qed.

(** The entry that playNoteWithAudioFile registers. *)
Definition element (env : Env) (name : string) (h : nat) : SourceInfo :=
  {| AudioPlayer.source := h; AudioPlayer.gainNode := None;
     AudioPlayer.noteName := name;
     AudioPlayer.startTime := startStamp env;
     AudioPlayer.type := "htmlAudio" |}.

Definition elementId (env : Env) (name : string) : string :=
  name +:+ "_" +:+ Js.toString (idStamp env).

Lemma playNoteWithAudioFile_unmapped env name velocity w :
  AudioPlayer.noteMapping w name = Js.Undefined ->
  AudioPlayer.playNoteWithAudioFile env name velocity w = (None, w).
Proof.
  destruct w as [p os nm [nn cs]]. intros Hu.
  unfold AudioPlayer.playNoteWithAudioFile. player_step.
  rewrite Hu. reflexivity.
Qed.

Lemma playNoteWithAudioFile_mapped env name velocity w :
  AudioPlayer.noteMapping w name <> Js.Undefined ->
  exists w',
    AudioPlayer.playNoteWithAudioFile env name velocity w
      = (Some (elementId env name), w')
    /\ reg w' = JsMap.set (reg w) (elementId env name)
                  (element env name (nextNode (AudioPlayer.context w)))
    /\ AudioPlayer.notesMap w' = AudioPlayer.notesMap w.
Proof.
  destruct w as [p os nm [nn cs]]. intros Hm.
  unfold AudioPlayer.playNoteWithAudioFile. player_step.
  destruct (AudioPlayer.noteMapping _ name); [| | done];
    (eexists; split; [reflexivity | split; reflexivity]).
Qed.

Lemma playNoteWithAudioFile_reg env name velocity w :
  reg (snd (AudioPlayer.playNoteWithAudioFile env name velocity w)) = reg w
  \/ reg (snd (AudioPlayer.playNoteWithAudioFile env name velocity w))
     = JsMap.set (reg w) (elementId env name)
         (element env name (nextNode (AudioPlayer.context w))).
Proof.
  destruct (AudioPlayer.noteMapping w name) eqn:E.
  - right. destruct (playNoteWithAudioFile_mapped env name velocity w)
      as (w' & -> & Hr & _); [by rewrite E | exact Hr].
  - right. destruct (playNoteWithAudioFile_mapped env name velocity w)
      as (w' & -> & Hr & _); [by rewrite E | exact Hr].
  - left. by rewrite playNoteWithAudioFile_unmapped.
Qed.

Lemma elementId_nonempty env name : elementId env name <> "".
Proof.
  unfold elementId. destruct name; cbn; discriminate.
Qed.

Lemma onOscillator_reg {A} o (m : Run.M Oscillator.Heap A) w :
  reg (snd (AudioPlayer.onOscillator o m w)) = reg w.
Proof.
  unfold AudioPlayer.onOscillator, reg.
  destruct (m _) as [a h]. reflexivity.
Qed.

Lemma playNoteWithOscillator_reg host env name velocity w :
  reg (snd (AudioPlayer.playNoteWithOscillator host env name velocity w)) = reg w.
Proof.
  unfold AudioPlayer.playNoteWithOscillator.
  unfold Run.bind, Run.gets. cbn. apply onOscillator_reg.
Qed.

Lemma playNoteFromSprite_reg host env name velocity w :
  reg (snd (AudioPlayer.playNoteFromSprite host env name velocity w)) = reg w.
Proof.
  unfold AudioPlayer.playNoteFromSprite.
  unfold Run.bind at 1. unfold Run.gets at 1.
  destruct (AudioPlayer.audioBuffer _); cbn [negb]; [reflexivity |].
  apply playNoteWithOscillator_reg.
Qed.

End Eviction.

(** ** The controller: debounce and concurrency *)

Section Controller.
Import Browser AudioPlaybackController.
Abbreviation SourceInfo := AudioPlayer.SourceInfo.

Lemma onPlayer_controller {A} (m : Run.M AudioPlayer.World A) s :
  controller (snd (onPlayer m s)) = controller s.
Proof. unfold onPlayer. destruct (m _). reflexivity. Qed.

Lemma onPlayer_world {A} (m : Run.M AudioPlayer.World A) s :
  audioPlayer (snd (onPlayer m s)) = snd (m (audioPlayer s)).
Proof. unfold onPlayer. destruct (m _). reflexivity. Qed.

Lemma onPlayer_result {A} (m : Run.M AudioPlayer.World A) s :
  fst (onPlayer m s) = fst (m (audioPlayer s)).
Proof. unfold onPlayer. destruct (m _). reflexivity. Qed.

(** The state after the eviction step of playNote. *)
Definition afterEviction (env : Env) (s : System) : System :=
  if Z.of_nat (JsMap.size (registry s)) >=? maxConcurrent (controller s)
  then snd (onPlayer (AudioPlayer.stopOldestSource env) s)
  else s.

(** The state in which playNote calls the engine. *)
Definition beforeEngine (env : Env) (noteName : string) (s : System) : System :=
  let s2 := snd (onPlayer (AudioPlayer.stopNote env noteName) (afterEviction env s)) in
  {| controller := recordPlay noteName (now env) (controller s2);
     audioPlayer := audioPlayer s2 |}.

(** The switch on playbackMethod. *)
Definition engine (host : Host) (env : Env) (noteName : string)
  (velocity : float) (playbackMethod : string)
  : Run.M AudioPlayer.World (option string) :=
  if decide (playbackMethod = "oscillator")
  then AudioPlayer.playNoteWithOscillator host env noteName velocity
  else if decide (playbackMethod = "sprite")
  then AudioPlayer.playNoteFromSprite host env noteName velocity
  else AudioPlayer.playNoteWithAudioFile env noteName velocity.

Lemma dispatch_steps host env noteName velocity playbackMethod s :
  dispatch host env noteName velocity playbackMethod s =
  onPlayer (engine host env noteName velocity playbackMethod)
    (beforeEngine env noteName s).
Proof.
  unfold dispatch, beforeEngine, afterEviction, engine, registry.
  unfold Run.bind, Run.gets, Run.modify.
  destruct (_ >=? _).
  - destruct (onPlayer (AudioPlayer.stopOldestSource env) s) as [[] s1]. cbn [snd].
    destruct (onPlayer (AudioPlayer.stopNote env noteName) s1) as [[] s2]. cbn [snd].
    destruct (decide _); [reflexivity |]. destruct (decide _); reflexivity.
  - unfold Run.ret.
    destruct (onPlayer (AudioPlayer.stopNote env noteName) s) as [[] s2]. cbn [snd].
    destruct (decide _); [reflexivity |]. destruct (decide _); reflexivity.
Qed.

Lemma engine_reg host env noteName velocity playbackMethod w :
  reg (snd (engine host env noteName velocity playbackMethod w)) = reg w
  \/ reg (snd (engine host env noteName velocity playbackMethod w))
     = JsMap.set (reg w) (elementId env noteName)
         (element env noteName (nextNode (AudioPlayer.context w))).
Proof.
  unfold engine. destruct (decide _); [left; apply playNoteWithOscillator_reg |].
  destruct (decide _); [left; apply playNoteFromSprite_reg |].
  apply playNoteWithAudioFile_reg.
Qed.

(** *** Debounce *)

Lemma playNote_debounced host env s noteName velocity playbackMethod t :
  lastPlayTimes (controller s) !! noteName = Some t ->
  t <> 0 ->
  now env - t < debounceTime (controller s) ->
  playNote host env noteName velocity playbackMethod s = (None, s).
Proof.
  intros Hlast Hnz Hclose. unfold playNote, Run.bind, Run.gets, Run.ret.
  unfold debounced, Js.getProperty. rewrite Hlast.
  destruct (Z.eqb_spec t 0); [contradiction |].
  destruct (Z.ltb_spec (now env - t) (debounceTime (controller s))); [reflexivity | lia].
Qed.

Lemma playNote_passes host env s noteName velocity playbackMethod :
  (lastPlayTimes (controller s) !! noteName = None
   \/ lastPlayTimes (controller s) !! noteName = Some 0
   \/ exists t, lastPlayTimes (controller s) !! noteName = Some t
                /\ debounceTime (controller s) <= now env - t) ->
  playNote host env noteName velocity playbackMethod s =
  dispatch host env noteName velocity playbackMethod s.
Proof.
  intros Hfree. unfold playNote, Run.bind, Run.gets.
  assert (Hd : debounced (controller s) noteName (now env) = false).
  { unfold debounced, Js.getProperty.
    destruct Hfree as [-> | [-> | (t & -> & Hfar)]].
    - destruct (Js.inherited noteName); reflexivity.
    - reflexivity.
    - destruct (Z.ltb_spec (now env - t) (debounceTime (controller s))); [lia |].
      apply andb_false_r. }
  rewrite Hd. reflexivity.
Qed.

Lemma dispatch_records host env s noteName velocity playbackMethod :
  noteName <> "__proto__" ->
  let s' := snd (dispatch host env noteName velocity playbackMethod s) in
  lastPlayTimes (controller s') !! noteName = Some (now env)
  /\ debounceTime (controller s') = debounceTime (controller s)
  /\ maxConcurrent (controller s') = maxConcurrent (controller s).
Proof.
  intros Hname. cbn zeta. rewrite dispatch_steps, onPlayer_controller.
  unfold beforeEngine. cbn [controller]. rewrite onPlayer_controller.
  assert (Hc : controller (afterEviction env s) = controller s).
  { unfold afterEviction. destruct (_ >=? _); [apply onPlayer_controller | reflexivity]. }
  rewrite Hc. unfold recordPlay, Js.setProperty. cbn.
  destruct (decide (noteName = "__proto__")); [contradiction |].
  split; [apply lookup_insert_eq | split; reflexivity].
Qed.

End Controller.

Section LegacyDebounce.
Import Browser.

Lemma legacy_playNote_debounced env s noteName velocity t :
  LegacyAudioManager.isReady (LegacyAudioManager.manager s) = true ->
  LegacyAudioManager.hasContext (LegacyAudioManager.manager s) = true ->
  LegacyAudioManager.lastPlayTimes (LegacyAudioManager.manager s) !! noteName
    = Some t ->
  t <> 0 ->
  now env - t < LegacyAudioManager.debounceTime (LegacyAudioManager.manager s) ->
  LegacyAudioManager.playNote env noteName velocity s
    = (LegacyAudioManager.Returned None, s).
Proof.
  intros Hready Hctx Hlast Hnz Hclose.
  unfold LegacyAudioManager.playNote, Run.bind, Run.gets, Run.ret.
  rewrite Hready, Hctx. cbn [negb].
  unfold LegacyAudioManager.debounced, Js.getProperty. rewrite Hlast.
  destruct (Z.eqb_spec t 0); [contradiction |].
  destruct (Z.ltb_spec (now env - t)
              (LegacyAudioManager.debounceTime (LegacyAudioManager.manager s)));
    [reflexivity | lia].
Qed.

Lemma legacy_playNote_passes env s noteName velocity :
  LegacyAudioManager.isReady (LegacyAudioManager.manager s) = true ->
  LegacyAudioManager.hasContext (LegacyAudioManager.manager s) = true ->
  (LegacyAudioManager.lastPlayTimes (LegacyAudioManager.manager s) !! noteName
     = None
   \/ LegacyAudioManager.lastPlayTimes (LegacyAudioManager.manager s) !! noteName
     = Some 0
   \/ exists t,
        LegacyAudioManager.lastPlayTimes (LegacyAudioManager.manager s) !! noteName
          = Some t
        /\ LegacyAudioManager.debounceTime (LegacyAudioManager.manager s)
           <= now env - t) ->
  LegacyAudioManager.playNote env noteName velocity s
    = LegacyAudioManager.dispatch env noteName velocity s.
Proof.
  intros Hready Hctx Hfree.
  unfold LegacyAudioManager.playNote. unfold Run.bind at 1. unfold Run.gets at 1.
  rewrite Hready, Hctx. cbn [negb].
  assert (Hd : LegacyAudioManager.debounced (LegacyAudioManager.manager s)
                 noteName (now env) = false).
  { unfold LegacyAudioManager.debounced, Js.getProperty.
    destruct Hfree as [-> | [-> | (t & -> & Hfar)]].
    - destruct (Js.inherited noteName); reflexivity.
    - reflexivity.
    - destruct (Z.ltb_spec (now env - t)
                  (LegacyAudioManager.debounceTime (LegacyAudioManager.manager s)));
        [lia |].
      apply andb_false_r. }
  rewrite Hd. reflexivity.
Qed.

End LegacyDebounce.

Section Debounce.
Import Browser AudioPlaybackController.

(** C1.  The debounce window is 150 ms unless it is set otherwise.  When a
    note has a recorded last trigger [t] that is not zero and playNote is
    entered less than the window after [t], the call returns null and the
    state is as before: no instance is registered.  When the note has no
    recorded trigger (or a recorded 0), or the window has passed, the gate is
    not taken and the call is the dispatch.  A dispatch records its own time,
    so that a second call of the same note inside the window returns null and
    leaves the state alone.  The manager of js/audio.js, once it is ready
    and has its audio context, has the same gate on both sides. *)
Theorem playNote_debounce host env s noteName velocity playbackMethod :
  debounceTime new = 150
  /\ (forall t,
        lastPlayTimes (controller s) !! noteName = Some t ->
        t <> 0 ->
        now env - t < debounceTime (controller s) ->
        playNote host env noteName velocity playbackMethod s = (None, s))
  /\ ((lastPlayTimes (controller s) !! noteName = None
       \/ lastPlayTimes (controller s) !! noteName = Some 0
       \/ exists t, lastPlayTimes (controller s) !! noteName = Some t
                    /\ debounceTime (controller s) <= now env - t) ->
      playNote host env noteName velocity playbackMethod s =
      dispatch host env noteName velocity playbackMethod s)
  /\ (forall env2 velocity2 method2,
        noteName <> "__proto__" ->
        now env <> 0 ->
        now env2 - now env < debounceTime (controller s) ->
        let s1 := snd (dispatch host env noteName velocity playbackMethod s) in
        playNote host env2 noteName velocity2 method2 s1 = (None, s1))
  /\ (forall ls t,
        LegacyAudioManager.isReady (LegacyAudioManager.manager ls) = true ->
        LegacyAudioManager.hasContext (LegacyAudioManager.manager ls) = true ->
        LegacyAudioManager.lastPlayTimes (LegacyAudioManager.manager ls)
          !! noteName = Some t ->
        t <> 0 ->
        now env - t
          < LegacyAudioManager.debounceTime (LegacyAudioManager.manager ls) ->
        LegacyAudioManager.playNote env noteName velocity ls
          = (LegacyAudioManager.Returned None, ls))
  /\ (forall ls,
        LegacyAudioManager.isReady (LegacyAudioManager.manager ls) = true ->
        LegacyAudioManager.hasContext (LegacyAudioManager.manager ls) = true ->
        (LegacyAudioManager.lastPlayTimes (LegacyAudioManager.manager ls)
           !! noteName = None
         \/ LegacyAudioManager.lastPlayTimes (LegacyAudioManager.manager ls)
              !! noteName = Some 0
         \/ exists t,
              LegacyAudioManager.lastPlayTimes (LegacyAudioManager.manager ls)
                !! noteName = Some t
              /\ LegacyAudioManager.debounceTime (LegacyAudioManager.manager ls)
                 <= now env - t) ->
        LegacyAudioManager.playNote env noteName velocity ls
          = LegacyAudioManager.dispatch env noteName velocity ls).
Proof.
  split; [reflexivity |]. split; [| split; [| split; [| split]]].
  - intros t. apply playNote_debounced.
  - apply playNote_passes.
  - intros env2 velocity2 method2 Hname Hnz Hclose s1.
    destruct (dispatch_records host env s noteName velocity playbackMethod Hname)
      as (Hlast & Hdeb & _).
    apply (playNote_debounced host env2 s1 noteName velocity2 method2 (now env));
      [exact Hlast | exact Hnz |].
    subst s1. rewrite Hdeb. exact Hclose.
  - intros ls t. apply legacy_playNote_debounced.
  - intros ls. apply legacy_playNote_passes.
Qed.

End Debounce.

Section Concurrency.
Import Browser AudioPlaybackController.
Abbreviation SourceInfo := AudioPlayer.SourceInfo.

(** The registry is in order, the maximum is the configured 40, and the
    registry is within it. *)
Definition bounded (s : System) : Prop :=
  regOk (registry s)
  /\ maxConcurrent (controller s) = 40
  /\ (JsMap.size (registry s) <= 40)%nat.

Lemma registry_onPlayer {A} (m : Run.M AudioPlayer.World A) s :
  registry (snd (onPlayer m s)) = reg (snd (m (audioPlayer s))).
Proof. unfold registry. rewrite onPlayer_world. reflexivity. Qed.

Lemma afterEviction_controller env s :
  controller (afterEviction env s) = controller s.
Proof.
  unfold afterEviction. destruct (_ >=? _); [apply onPlayer_controller | reflexivity].
Qed.

Lemma afterEviction_room env s :
  bounded s ->
  regOk (registry (afterEviction env s))
  /\ (JsMap.size (registry (afterEviction env s)) <= 39)%nat.
Proof.
  intros (Hok & Hmax & Hsize). unfold afterEviction. rewrite Hmax.
  destruct (Z.geb_spec (Z.of_nat (JsMap.size (registry s))) 40) as [Hfull | Hroom].
  - rewrite registry_onPlayer.
    assert (Hne : reg (audioPlayer s) <> []).
    { intros E. unfold registry in Hfull. fold (reg (audioPlayer s)) in Hfull.
      rewrite E in Hfull. cbn in Hfull. lia. }
    destruct (stopOldestSource_evicts env (audioPlayer s) Hok Hne)
      as (id & info & _ & _ & Hdel & Hsz).
    split; [by apply stopOldestSource_regOk |].
    unfold registry in Hsize. fold (reg (audioPlayer s)) in Hsize. lia.
  - split; [exact Hok | lia].
Qed.

Lemma stopNote_room env noteName s n :
  regOk (registry s) -> (JsMap.size (registry s) <= n)%nat ->
  regOk (registry (snd (onPlayer (AudioPlayer.stopNote env noteName) s)))
  /\ (JsMap.size (registry (snd (onPlayer (AudioPlayer.stopNote env noteName) s)))
      <= n)%nat.
Proof.
  intros Hok Hsize. rewrite registry_onPlayer, stopNote_reg. split.
  - by apply fold_stopOne_regOk.
  - etransitivity; [apply fold_stopOne_size | exact Hsize].
Qed.

Lemma dispatch_bounded host env noteName velocity playbackMethod s :
  bounded s -> bounded (snd (dispatch host env noteName velocity playbackMethod s)).
Proof.
  intros Hb. pose proof Hb as (_ & Hmax & _).
  destruct (afterEviction_room env s Hb) as (Hok1 & Hsize1).
  destruct (stopNote_room env noteName (afterEviction env s) 39 Hok1 Hsize1)
    as (Hok2 & Hsize2).
  rewrite dispatch_steps. unfold bounded.
  rewrite onPlayer_controller, registry_onPlayer.
  set (s3 := beforeEngine env noteName s).
  assert (Hreg3 : reg (audioPlayer s3)
                  = registry (snd (onPlayer (AudioPlayer.stopNote env noteName)
                                     (afterEviction env s)))) by reflexivity.
  assert (Hmax3 : maxConcurrent (controller s3) = 40).
  { subst s3. unfold beforeEngine. cbn [controller recordPlay maxConcurrent].
    rewrite onPlayer_controller, afterEviction_controller. exact Hmax. }
  destruct (engine_reg host env noteName velocity playbackMethod (audioPlayer s3))
    as [-> | ->]; rewrite Hreg3.
  - repeat split; [apply Hok2 | apply Hok2 | apply Hok2 | exact Hmax3 | lia].
  - split; [| split; [exact Hmax3 |]].
    + apply regOk_set; [exact Hok2 | apply elementId_nonempty | reflexivity].
    + etransitivity; [apply size_set | lia].
Qed.

Lemma cleanupSource_bounded env id s :
  bounded s -> bounded (snd (onPlayer (AudioPlayer.cleanupSource env id) s)).
Proof.
  intros (Hok & Hmax & Hsize). unfold bounded.
  rewrite onPlayer_controller, registry_onPlayer, cleanupSource_reg.
  split; [by apply regOk_delete |]. split; [exact Hmax |].
  etransitivity; [apply size_delete | exact Hsize].
Qed.

Lemma delete_bounded id s w' :
  bounded s -> controller w' = controller s ->
  registry w' = JsMap.delete (registry s) id -> bounded w'.
Proof.
  intros (Hok & Hmax & Hsize) Hc Hr. unfold bounded. rewrite Hc, Hr.
  split; [by apply regOk_delete |]. split; [exact Hmax |].
  etransitivity; [apply size_delete | exact Hsize].
Qed.

Lemma same_registry_bounded s s' :
  bounded s -> controller s' = controller s -> registry s' = registry s ->
  bounded s'.
Proof. intros Hb Hc Hr. unfold bounded. rewrite Hc, Hr. exact Hb. Qed.

Lemma stopAll_reg env w : reg (snd (AudioPlayer.stopAll env w)) = [].
Proof.
  unfold AudioPlayer.stopAll, Run.bind, Run.gets, Run.modify.
  destruct (Run.forEach _ _ w) as [[] w1]. reflexivity.
Qed.

Lemma fire_bounded env f s :
  bounded s -> bounded (snd (onPlayer (AudioPlayer.fire env f) s)).
Proof.
  intros Hb. destruct f as [id | id | o g | id h | id src g]; unfold AudioPlayer.fire.
  - by apply cleanupSource_bounded.
  - apply (same_registry_bounded s); [exact Hb | apply onPlayer_controller |].
    rewrite registry_onPlayer. unfold Run.bind at 1. unfold Run.gets at 1.
    destruct (JsMap.get _ _); [apply onOscillator_reg | reflexivity].
  - apply (same_registry_bounded s); [exact Hb | apply onPlayer_controller |].
    rewrite registry_onPlayer. unfold registry.
    destruct (audioPlayer s) as [p os nm [nn cs]].
    unfold reg. player_step. reflexivity.
  - apply (delete_bounded id s); [exact Hb | apply onPlayer_controller |].
    rewrite registry_onPlayer. unfold registry, AudioPlayer.elementCleanup.
    destruct (audioPlayer s) as [p os nm [nn cs]].
    unfold reg. player_step. reflexivity.
  - apply (delete_bounded id s); [exact Hb | apply onPlayer_controller |].
    rewrite registry_onPlayer. unfold registry.
    destruct (audioPlayer s) as [p os nm [nn cs]].
    unfold reg. player_step. reflexivity.
Qed.

Lemma step_bounded host e s : bounded s -> bounded (step host e s).
Proof.
  intros Hb. destruct e as [env [noteName velocity method | noteName | | time | m | f]];
    unfold step.
  - unfold playNote, Run.bind, Run.gets, Run.ret.
    destruct (debounced _ _ _); [exact Hb | by apply dispatch_bounded].
  - destruct Hb as (Hok & Hmax & Hsize).
    destruct (stopNote_room env noteName s 40 Hok Hsize) as (Hok' & Hsize').
    unfold bounded. rewrite onPlayer_controller. auto.
  - unfold bounded. rewrite onPlayer_controller, registry_onPlayer, stopAll_reg.
    destruct Hb as (_ & Hmax & _).
    split; [apply regOk_nil | split; [exact Hmax | cbn; lia]].
  - exact Hb.
  - exact Hb.
  - by apply fire_bounded.
Qed.

Lemma run_bounded host events s : bounded s -> bounded (run host events s).
Proof.
  unfold run. revert s. induction events as [| e r IH]; intros s Hb; cbn.
  - exact Hb.
  - apply IH. by apply step_bounded.
Qed.

Lemma initial_bounded notesMap : bounded (initial notesMap).
Proof.
  unfold bounded. split; [apply regOk_nil |]. split; [reflexivity | cbn; lia].
Qed.

End Concurrency.

(** ** Source ids *)

Section SourceIds.

(** Whether a string has an underscore. *)
Fixpoint hasUnderscore (s : string) : bool :=
  match s with
  | EmptyString => false
  | String c r => bool_decide (c = "_"%char) || hasUnderscore r
  end.

Lemma pretty_N_go_clean x s :
  hasUnderscore s = false -> hasUnderscore (pretty_N_go x s) = false.
Proof.
  revert s. induction (N.lt_wf_0 x) as [x _ IH]; intros s Hs.
  destruct (decide (x = 0)%N) as [-> | Hx].
  - by rewrite pretty_N_go_0.
  - rewrite pretty_N_go_step by lia. apply IH.
    + apply N.div_lt; lia.
    + cbn [hasUnderscore]. rewrite Hs, orb_false_r.
      unfold pretty_N_char.
      destruct (x `mod` 10)%N as [| p]; [reflexivity |].
      do 4 (destruct p as [p | p |]; try reflexivity).
Qed.

Lemma toString_clean z : hasUnderscore (Js.toString z) = false.
Proof.
  unfold Js.toString, pretty, pretty_Z.
  destruct z as [| p | p]; [reflexivity | |].
  - unfold pretty, pretty_positive, pretty, pretty_N.
    destruct (decide _); [reflexivity | by apply pretty_N_go_clean].
  - change (hasUnderscore (String "-" (pretty p)) = false).
    cbn [hasUnderscore]. unfold pretty, pretty_positive, pretty, pretty_N.
    destruct (decide _); [reflexivity |].
    rewrite pretty_N_go_clean; reflexivity.
Qed.

Lemma append_cons c a b : String c a +:+ b = String c (a +:+ b).
Proof. reflexivity. Qed.

Lemma hasUnderscore_append a b :
  hasUnderscore b = true -> hasUnderscore (a +:+ b) = true.
Proof.
  intros Hb. induction a as [| c a IH]; [exact Hb |].
  rewrite append_cons. cbn [hasUnderscore]. rewrite IH. apply orb_true_r.
Qed.

Lemma hasUnderscore_app a b : hasUnderscore (a +:+ "_" +:+ b) = true.
Proof. apply hasUnderscore_append. reflexivity. Qed.

(** The note of an id can be read back from it. *)
Lemma id_note_inj a b d1 d2 :
  hasUnderscore d1 = false -> hasUnderscore d2 = false ->
  a +:+ "_" +:+ d1 = b +:+ "_" +:+ d2 -> a = b.
Proof.
  intros H1 H2. revert b. induction a as [| c a IH]; intros [| c' b] E.
  - reflexivity.
  - change (String "_" d1 = String c' (b +:+ "_" +:+ d2)) in E.
    injection E as _ E. rewrite E, hasUnderscore_app in H1. discriminate.
  - change (String c (a +:+ "_" +:+ d1) = String "_" d2) in E.
    injection E as _ E. rewrite <- E, hasUnderscore_app in H2. discriminate.
  - change (String c (a +:+ "_" +:+ d1) = String c' (b +:+ "_" +:+ d2)) in E.
    injection E as -> E. f_equal. by apply IH.
Qed.

Lemma elementId_inj env1 env2 a b :
  elementId env1 a = elementId env2 b -> a = b.
Proof. unfold elementId. apply id_note_inj; apply toString_clean. Qed.

End SourceIds.

Section FortyOne.
Import Browser AudioPlaybackController.
Abbreviation SourceInfo := AudioPlayer.SourceInfo.

(** A trigger: what the call reads, the note, the velocity. *)
Definition Trigger : Type := Env * string * float.

Definition noteOf (p : Trigger) : string := snd (fst p).
Definition idOf (p : Trigger) : string := elementId (fst (fst p)) (noteOf p).
Definition stampOf (p : Trigger) : Z := startStamp (fst (fst p)).

Definition trigger (p : Trigger) : Env * Event :=
  (fst (fst p), PlayNote (noteOf p) (snd p) "audioFile").

(** An entry of the registry without its audio element: id, note, start. *)
Definition view (m : JsMap.t SourceInfo) : list (string * string * Z) :=
  map (fun e => (fst e, AudioPlayer.noteName (snd e), AudioPlayer.startTime (snd e))) m.

Definition shown (p : Trigger) : string * string * Z :=
  (idOf p, noteOf p, stampOf p).

Lemma filter_none {A} (P : A -> Prop) `{forall x, Decision (P x)} (l : list A) :
  (forall x, x ∈ l -> ~ P x) -> filter P l = [].
Proof.
  induction l as [| x r IH]; intros Hall; [reflexivity |].
  rewrite filter_cons. destruct (decide (P x)) as [Hp | _].
  - exfalso. apply (Hall x); [apply elem_of_cons; by left | exact Hp].
  - apply IH. intros y Hy. apply Hall, elem_of_cons. by right.
Qed.

Lemma stopNote_absent env name w :
  (forall e, e ∈ reg w -> AudioPlayer.noteName (snd e) <> name) ->
  AudioPlayer.stopNote env name w = (tt, w).
Proof.
  intros Habsent. unfold AudioPlayer.stopNote.
  unfold Run.bind at 1. unfold Run.gets at 1. cbv beta. fold (reg w).
  rewrite filter_none; [reflexivity | exact Habsent].
Qed.

Lemma noteMapping_notesMap w w' name :
  AudioPlayer.notesMap w' = AudioPlayer.notesMap w ->
  AudioPlayer.noteMapping w' name = AudioPlayer.noteMapping w name.
Proof. intros E. unfold AudioPlayer.noteMapping. by rewrite E. Qed.

(** A trigger that finds room, a note with no instance and no recorded
    time, and a new id, adds its entry at the end. *)
Lemma trigger_appends host (p : Trigger) s :
  maxConcurrent (controller s) = 40 ->
  (JsMap.size (registry s) < 40)%nat ->
  lastPlayTimes (controller s) !! noteOf p = None ->
  (forall e, e ∈ registry s -> AudioPlayer.noteName (snd e) <> noteOf p) ->
  idOf p ∉ JsMap.keys (registry s) ->
  AudioPlayer.noteMapping (audioPlayer s) (noteOf p) <> Js.Undefined ->
  let s' := step host (trigger p) s in
  view (registry s') = (view (registry s) ++ [shown p])%list
  /\ maxConcurrent (controller s') = 40
  /\ AudioPlayer.notesMap (audioPlayer s') = AudioPlayer.notesMap (audioPlayer s)
  /\ (forall n, n <> noteOf p ->
        lastPlayTimes (controller s') !! n = lastPlayTimes (controller s) !! n).
Proof.
  destruct p as [[env name] velocity].
  unfold trigger, shown, idOf, stampOf; unfold noteOf.
  cbn [fst snd]. intros Hmax Hroom Hlast Habsent Hid Hmapped. cbn zeta.
  unfold step. rewrite playNote_passes by (by left).
  rewrite dispatch_steps.
  assert (Hev : afterEviction env s = s).
  { unfold afterEviction. rewrite Hmax.
    destruct (Z.geb_spec (Z.of_nat (JsMap.size (registry s))) 40); [lia | reflexivity]. }
  assert (Hbefore : beforeEngine env name s
                    = {| controller := recordPlay name (now env) (controller s);
                         audioPlayer := audioPlayer s |}).
  { unfold beforeEngine. rewrite Hev. unfold onPlayer.
    rewrite stopNote_absent by exact Habsent. reflexivity. }
  rewrite Hbefore. unfold engine.
  destruct (decide ("audioFile" = "oscillator")); [discriminate |].
  destruct (decide ("audioFile" = "sprite")); [discriminate |].
  destruct (playNoteWithAudioFile_mapped env name velocity (audioPlayer s) Hmapped)
    as (w' & Hplay & Hreg & Hnm).
  unfold onPlayer. cbn [audioPlayer controller]. rewrite Hplay. cbn [snd].
  unfold registry in *. cbn [audioPlayer controller].
  fold (reg w'). rewrite Hreg. fold (reg (audioPlayer s)) in Hid |- *.
  rewrite set_new by exact Hid.
  split; [| split; [exact Hmax | split; [exact Hnm |]]].
  - unfold view. rewrite map_app. reflexivity.
  - intros other Hother. unfold recordPlay, Js.setProperty. cbn [lastPlayTimes].
    destruct (decide (name = "__proto__")); [reflexivity |].
    by apply lookup_insert_ne.
Qed.

Lemma view_keys m : JsMap.keys m = map (fun x => fst (fst x)) (view m).
Proof. unfold view, JsMap.keys. rewrite map_map. reflexivity. Qed.

Lemma view_notes m e :
  e ∈ m -> (fst e, AudioPlayer.noteName (snd e), AudioPlayer.startTime (snd e)) ∈ view m.
Proof.
  intros He. unfold view.
  exact (elem_of_map
           (fun e => (fst e, AudioPlayer.noteName (snd e),
                      AudioPlayer.startTime (snd e))) m e He).
Qed.

Lemma view_length m : length (view m) = JsMap.size m.
Proof. unfold view, JsMap.size. apply length_map. Qed.

(** Distinct notes with distinct ids, triggered while there is room, are
    registered in the order of their triggers. *)
Lemma triggers_append host (l : list Trigger) : forall s,
  maxConcurrent (controller s) = 40 ->
  (JsMap.size (registry s) + length l <= 40)%nat ->
  NoDup (map noteOf l) ->
  NoDup (map idOf l) ->
  (forall p, p ∈ l ->
     lastPlayTimes (controller s) !! noteOf p = None
     /\ AudioPlayer.noteMapping (audioPlayer s) (noteOf p) <> Js.Undefined
     /\ (forall x, x ∈ view (registry s) ->
           snd (fst x) <> noteOf p /\ fst (fst x) <> idOf p)) ->
  let s' := run host (map trigger l) s in
  view (registry s') = (view (registry s) ++ map shown l)%list
  /\ maxConcurrent (controller s') = 40
  /\ AudioPlayer.notesMap (audioPlayer s') = AudioPlayer.notesMap (audioPlayer s)
  /\ (forall n, n ∉ map noteOf l ->
        lastPlayTimes (controller s') !! n = lastPlayTimes (controller s) !! n).
Proof.
  induction l as [| p r IH]; intros s Hmax Hroom Hnotes Hids Hall; cbn zeta.
  - cbn. rewrite app_nil_r. auto.
  - cbn [map] in Hnotes, Hids. apply NoDup_cons in Hnotes as [Hn Hnotes].
    apply NoDup_cons in Hids as [Hi Hids].
    destruct (Hall p) as (Hlast & Hmapped & Hfresh); [apply elem_of_cons; by left |].
    cbn [length] in Hroom.
    destruct (trigger_appends host p s) as (Hview & Hmax1 & Hnm1 & Hlast1);
      [exact Hmax | lia | exact Hlast | | | exact Hmapped |].
    { intros e He. apply view_notes in He. by destruct (Hfresh _ He). }
    { rewrite view_keys. intros Hin. apply elem_of_map_inv in Hin as (x & Hx & Hin).
      destruct (Hfresh _ Hin) as [_ Hne]. apply Hne. symmetry. exact Hx. }
    change (run host (map trigger (p :: r)) s)
      with (run host (map trigger r) (step host (trigger p) s)).
    set (s1 := step host (trigger p) s) in *.
    destruct (IH s1) as (Hview' & Hmax' & Hnm' & Hlast'); [exact Hmax1 | | exact Hnotes | exact Hids | |].
    { rewrite <- view_length, Hview, length_app, view_length. cbn. lia. }
    { intros q Hq. destruct (Hall q) as (Hlq & Hmq & Hfq); [apply elem_of_cons; by right |].
      assert (Hqp : noteOf q <> noteOf p).
      { intros E. apply Hn. rewrite <- E. by apply (elem_of_map noteOf). }
      repeat split.
      - rewrite Hlast1 by exact Hqp. exact Hlq.
      - rewrite (noteMapping_notesMap (audioPlayer s)); [exact Hmq | exact Hnm1].
      - rewrite Hview in H. apply elem_of_app in H as [H | H]; [by destruct (Hfq _ H) |].
        apply list_elem_of_singleton in H as ->. unfold shown. cbn [fst snd].
        intros E. apply Hqp. symmetry. exact E.
      - rewrite Hview in H. apply elem_of_app in H as [H | H]; [by destruct (Hfq _ H) |].
        apply list_elem_of_singleton in H as ->. unfold shown. cbn [fst snd].
        intros E. apply Hi. rewrite E. by apply (elem_of_map idOf). }
    split; [| split; [exact Hmax' | split; [by rewrite Hnm' |]]].
    + rewrite Hview', Hview, <- app_assoc. reflexivity.
    + intros n Hn'. cbn [map] in Hn'. apply not_elem_of_cons in Hn' as [Hnp Hnr].
      rewrite Hlast' by exact Hnr. by apply Hlast1.
Qed.

End FortyOne.

Section FirstEvicted.
Import Browser AudioPlaybackController.
Abbreviation SourceInfo := AudioPlayer.SourceInfo.

Lemma cleanupSource_notesMap env id w :
  AudioPlayer.notesMap (snd (AudioPlayer.cleanupSource env id w))
  = AudioPlayer.notesMap w.
Proof.
  destruct w as [p os nm [nn cs]]. unfold AudioPlayer.cleanupSource. player_step.
  destruct (JsMap.get _ id) as [info |]; [| reflexivity].
  destruct (AudioPlayer.gainNode info); reflexivity.
Qed.

Lemma stopOldestSource_notesMap env w :
  AudioPlayer.notesMap (snd (AudioPlayer.stopOldestSource env w))
  = AudioPlayer.notesMap w.
Proof.
  unfold AudioPlayer.stopOldestSource. unfold Run.bind at 1. unfold Run.gets at 1.
  destruct (Nat.eqb _ 0); [reflexivity |].
  destruct (AudioPlayer.oldest _ None None); [| reflexivity].
  destruct (decide _); [reflexivity | apply cleanupSource_notesMap].
Qed.

Lemma run_app host l1 l2 s : run host (l1 ++ l2) s = run host l2 (run host l1 s).
Proof. unfold run. apply fold_left_app. Qed.

(** With the registry full and its first entry no younger than the others,
    a trigger of a new note evicts that first entry and goes last. *)
Lemma trigger_evicts_first host (p : Trigger) s x rest :
  bounded s ->
  view (registry s) = x :: rest ->
  length rest = 39%nat ->
  (forall y, y ∈ rest -> snd x <= snd y) ->
  lastPlayTimes (controller s) !! noteOf p = None ->
  AudioPlayer.noteMapping (audioPlayer s) (noteOf p) <> Js.Undefined ->
  (forall y, y ∈ rest -> snd (fst y) <> noteOf p /\ fst (fst y) <> idOf p) ->
  view (registry (step host (trigger p) s)) = (rest ++ [shown p])%list.
Proof.
  destruct p as [[env name] velocity].
  unfold trigger, shown, idOf, stampOf; unfold noteOf. cbn [fst snd].
  intros (Hok & Hmax & _) Hview Hlen Hmin Hlast Hmapped Hfresh.
  unfold step. rewrite playNote_passes by (by left). rewrite dispatch_steps.
  unfold registry in Hview, Hok. fold (reg (audioPlayer s)) in Hview, Hok.
  destruct (reg (audioPlayer s)) as [| [k1 i1] r] eqn:Ereg; [discriminate |].
  cbn [view map fst snd] in Hview. injection Hview as <- Hrest.
  fold (view r) in Hrest. cbn [snd] in Hmin.
  (* the eviction *)
  assert (Hsize : JsMap.size (registry s) = 40%nat).
  { unfold registry. fold (reg (audioPlayer s)). rewrite Ereg. cbn.
    rewrite <- Hlen, <- Hrest, view_length. reflexivity. }
  set (w1 := snd (AudioPlayer.stopOldestSource env (audioPlayer s))).
  assert (Hw1 : reg w1 = r).
  { subst w1. rewrite stopOldestSource_reg, Ereg. cbn [AudioPlayer.oldest].
    rewrite oldest_keeps.
    - destruct (decide (k1 = "")) as [-> | _].
      + exfalso. destruct Hok as (_ & Hne & _). apply Hne. cbn. apply elem_of_cons. by left.
      + cbn. destruct (decide (k1 = k1)); [reflexivity | contradiction].
    - intros e He. apply view_notes in He. rewrite Hrest in He.
      apply (Hmin _ He). }
  assert (Hev : afterEviction env s
                = {| controller := controller s; audioPlayer := w1 |}).
  { unfold afterEviction. rewrite Hmax, Hsize. cbn [Z.geb Z.of_nat Z.compare].
    change (Z.of_nat 40 >=? 40) with true. cbv iota.
    unfold onPlayer. subst w1.
    destruct (AudioPlayer.stopOldestSource env (audioPlayer s)) as [[] w]. reflexivity. }
  assert (Hbefore : beforeEngine env name s
                    = {| controller := recordPlay name (now env) (controller s);
                         audioPlayer := w1 |}).
  { unfold beforeEngine. rewrite Hev. unfold onPlayer. cbn [audioPlayer controller].
    rewrite stopNote_absent; [reflexivity |].
    rewrite Hw1. intros e He. apply view_notes in He. rewrite Hrest in He.
    by destruct (Hfresh _ He). }
  rewrite Hbefore. unfold engine.
  destruct (decide ("audioFile" = "oscillator")); [discriminate |].
  destruct (decide ("audioFile" = "sprite")); [discriminate |].
  assert (Hmapped1 : AudioPlayer.noteMapping w1 name <> Js.Undefined).
  { rewrite (noteMapping_notesMap (audioPlayer s)); [exact Hmapped |].
    subst w1. apply stopOldestSource_notesMap. }
  destruct (playNoteWithAudioFile_mapped env name velocity w1 Hmapped1)
    as (w' & Hplay & Hreg & _).
  unfold onPlayer. cbn [audioPlayer controller]. rewrite Hplay. cbn [snd].
  unfold registry. cbn [audioPlayer]. fold (reg w'). rewrite Hreg, Hw1.
  rewrite set_new.
  - unfold view. rewrite map_app. fold (view r). rewrite Hrest. reflexivity.
  - rewrite view_keys, Hrest. intros Hin.
    apply elem_of_map_inv in Hin as (y & Hy & Hin).
    destruct (Hfresh _ Hin) as [_ Hne]. apply Hne. symmetry. exact Hy.
Qed.

Lemma ids_distinct (l : list Trigger) :
  NoDup (map noteOf l) -> NoDup (map idOf l).
Proof.
  induction l as [| p r IH]; cbn [map]; intros Hnotes; [apply NoDup_nil_2 |].
  apply NoDup_cons in Hnotes as [Hp Hr]. apply NoDup_cons. split; [| by apply IH].
  intros Hin. apply Hp. apply elem_of_map_inv in Hin as (q & Hq & Hin).
  unfold idOf in Hq. apply elementId_inj in Hq. rewrite Hq.
  by apply (elem_of_map noteOf).
Qed.

(** Forty-one triggers of distinct notes, from the start. *)
Lemma first_of_forty_one_evicted host notesMap (first : Trigger)
    (middle : list Trigger) (last : Trigger) :
  length middle = 39%nat ->
  NoDup (map noteOf (first :: middle ++ [last])) ->
  (forall p, p ∈ first :: middle ++ [last] ->
     AudioPlayer.noteMapping (audioPlayer (initial notesMap)) (noteOf p)
       <> Js.Undefined) ->
  (forall p, p ∈ middle -> stampOf first <= stampOf p) ->
  view (registry (run host (map trigger (first :: middle ++ [last]))
                    (initial notesMap)))
  = map shown (middle ++ [last]).
Proof.
  intros Hlen Hnotes Hmapped Hstamps.
  pose proof (ids_distinct _ Hnotes) as Hids.
  change (first :: middle ++ [last])%list with ((first :: middle) ++ [last])%list.
  change (first :: middle ++ [last])%list with ((first :: middle) ++ [last])%list
    in Hnotes, Hids, Hmapped.
  rewrite map_app, run_app.
  rewrite map_app in Hnotes, Hids.
  apply NoDup_app in Hnotes as (Hn1 & Hn2 & _).
  apply NoDup_app in Hids as (Hi1 & Hi2 & _).
  set (s0 := initial notesMap) in *.
  destruct (triggers_append host (first :: middle) s0)
    as (Hview & Hmax & Hnm & Hlast); [reflexivity | cbn; lia | exact Hn1 | exact Hi1 | |].
  { intros p Hp. split; [reflexivity |]. split.
    - apply Hmapped, elem_of_app. by left.
    - intros x Hx. by apply elem_of_nil in Hx. }
  set (s40 := run host (map trigger (first :: middle)) s0) in *.
  cbn [map run fold_left]. change (run host [trigger last] s40) with (step host (trigger last) s40).
  cbn [app map] in Hview.
  rewrite (trigger_evicts_first host last s40 (shown first) (map shown middle)).
  - rewrite map_app. reflexivity.
  - subst s40. apply run_bounded, initial_bounded.
  - exact Hview.
  - rewrite length_map. exact Hlen.
  - intros y Hy. apply elem_of_map_inv in Hy as (q & -> & Hq).
    cbn. by apply Hstamps.
  - rewrite Hlast; [reflexivity |].
    intros Hin. apply (Hn2 (noteOf last)); [exact Hin |]. cbn. apply elem_of_cons. by left.
  - rewrite (noteMapping_notesMap (audioPlayer s0)); [| exact Hnm].
    apply Hmapped, elem_of_app. right. apply elem_of_cons. by left.
  - intros y Hy. apply elem_of_map_inv in Hy as (q & -> & Hq). cbn [shown fst snd].
    split.
    + intros E. apply (Hn2 (noteOf q)).
      * apply (elem_of_map noteOf). apply elem_of_cons. by right.
      * rewrite E. cbn. apply elem_of_cons. by left.
    + intros E. apply (Hi2 (idOf q)).
      * apply (elem_of_map idOf). apply elem_of_cons. by right.
      * rewrite E. cbn. apply elem_of_cons. by left.
Qed.

End FirstEvicted.

Section Concurrency41.
Import Browser AudioPlaybackController.
Abbreviation SourceInfo := AudioPlayer.SourceInfo.

(** C2.  From the system as it is built, with the maximum left at its
    default of 40, and whatever calls and callbacks follow:
    the registry never holds more than 40 instances;
    when playNote passes the debounce gate with the registry at the maximum,
    it first calls stopOldestSource, which removes exactly one instance, one
    whose start time is not above that of any other;
    and forty-one triggers of distinct mapped notes, the first of them
    started no later than the next thirty-nine, leave the registry with the
    instances of the last forty, in the order of their triggers, the
    instance of the first being the one evicted. *)
Theorem registry_never_exceeds_forty host notesMap events :
  let s := run host events (initial notesMap) in
  (JsMap.size (registry s) <= 40)%nat
  /\ (forall env,
        Z.of_nat (JsMap.size (registry s)) >= maxConcurrent (controller s) ->
        afterEviction env s
          = snd (onPlayer (AudioPlayer.stopOldestSource env) s)
        /\ exists id info,
             JsMap.get (registry s) id = Some info
             /\ (forall e, e ∈ registry s ->
                   AudioPlayer.startTime info <= AudioPlayer.startTime (snd e))
             /\ registry (afterEviction env s) = JsMap.delete (registry s) id
             /\ S (JsMap.size (registry (afterEviction env s)))
                = JsMap.size (registry s))
  /\ (forall env noteName velocity playbackMethod,
        dispatch host env noteName velocity playbackMethod s
        = onPlayer (engine host env noteName velocity playbackMethod)
            (beforeEngine env noteName s))
  /\ (forall (first : Trigger) (middle : list Trigger) (last : Trigger),
        length middle = 39%nat ->
        NoDup (map noteOf (first :: middle ++ [last])) ->
        (forall p, p ∈ first :: middle ++ [last] ->
           AudioPlayer.noteMapping (audioPlayer (initial notesMap)) (noteOf p)
             <> Js.Undefined) ->
        (forall p, p ∈ middle -> stampOf first <= stampOf p) ->
        view (registry (run host (map trigger (first :: middle ++ [last]))
                          (initial notesMap)))
        = map shown (middle ++ [last])).
Proof.
  intros s.
  assert (Hb : bounded s) by apply run_bounded, initial_bounded.
  pose proof Hb as (Hok & Hmax & Hsize).
  split; [exact Hsize |]. split; [| split].
  - intros env Hfull. unfold afterEviction.
    destruct (Z.geb_spec (Z.of_nat (JsMap.size (registry s)))
                (maxConcurrent (controller s))) as [_ | Hlt]; [| lia].
    split; [reflexivity |].
    assert (Hne : reg (audioPlayer s) <> []).
    { intros E. unfold registry in Hfull. fold (reg (audioPlayer s)) in Hfull.
      rewrite E, Hmax in Hfull. cbn in Hfull. lia. }
    destruct (stopOldestSource_evicts env (audioPlayer s) Hok Hne)
      as (id & info & Hget & Hmin & Hdel & Hsz).
    exists id, info. rewrite registry_onPlayer. auto.
  - intros env noteName velocity playbackMethod. apply dispatch_steps.
  - intros first middle last. apply first_of_forty_one_evicted.
Qed.

(** *** One voice per note *)

Lemma fold_stopOne_cons ids k i (r : JsMap.t SourceInfo) :
  k ∉ ids ->
  fold_left (fun m id => stopOne id m) ids ((k, i) :: r)
  = (k, i) :: fold_left (fun m id => stopOne id m) ids r.
Proof.
  revert r. induction ids as [| id ids IH]; intros r Hk; [reflexivity |].
  apply not_elem_of_cons in Hk as [Hne Hk]. cbn [fold_left].
  assert (Hone : stopOne id ((k, i) :: r) = (k, i) :: stopOne id r).
  { unfold stopOne. cbn [JsMap.get JsMap.delete].
    destruct (decide (k = id)); [congruence |].
    destruct (JsMap.get r id ≫= AudioPlayer.gainNode); reflexivity. }
  rewrite Hone. by apply IH.
Qed.

(** On a registry of audio elements, stopNote removes the instances of
    the note and nothing else. *)
Lemma fold_stopOne_filter name (m : JsMap.t SourceInfo) :
  regOk m ->
  fold_left (fun m id => stopOne id m)
    (JsMap.keys (filter (fun e => AudioPlayer.noteName (snd e) = name) m)) m
  = filter (fun e => AudioPlayer.noteName (snd e) <> name) m.
Proof.
  induction m as [| [k i] r IH]; intros Hok; [reflexivity |].
  assert (Hokr : regOk r).
  { destruct Hok as (Hwf & Hne & Hg). repeat split.
    - unfold JsMap.wf in *. cbn in Hwf. by apply NoDup_cons in Hwf as [_ ?].
    - intros Hin. apply Hne. cbn. apply elem_of_cons. by right.
    - intros e He. apply Hg, elem_of_cons. by right. }
  destruct Hok as (Hwf & _ & Hg).
  unfold JsMap.wf in Hwf. cbn in Hwf. apply NoDup_cons in Hwf as [Hk _].
  assert (Hgi : AudioPlayer.gainNode i = None)
    by (apply (Hg (k, i)), elem_of_cons; by left).
  rewrite !filter_cons. cbn [snd].
  destruct (decide (AudioPlayer.noteName i = name)) as [Htag | Htag].
  - destruct (decide (AudioPlayer.noteName i <> name)); [contradiction |].
    cbn [JsMap.keys map fst fold_left].
    assert (Hone : stopOne k ((k, i) :: r) = r).
    { unfold stopOne. cbn [JsMap.get JsMap.delete].
      destruct (decide (k = k)); [| contradiction]. cbn. rewrite Hgi. reflexivity. }
    rewrite Hone. by apply IH.
  - destruct (decide (AudioPlayer.noteName i <> name)); [| contradiction].
    rewrite fold_stopOne_cons.
    + f_equal. by apply IH.
    + intros Hin. apply Hk. apply elem_of_map_inv in Hin as (e & -> & He).
      apply list_elem_of_filter in He as [_ He]. by apply (elem_of_map fst).
Qed.

Lemma filter_set_tagged (P : string * SourceInfo -> Prop)
    `{forall e, Decision (P e)} (m : JsMap.t SourceInfo) k v :
  (forall e, e ∈ m -> ~ P e) -> (forall k', P (k', v)) ->
  filter P (JsMap.set m k v) = [(k, v)].
Proof.
  intros Hnone Hv. induction m as [| [k' v'] r IH]; cbn [JsMap.set].
  - rewrite filter_cons. destruct (decide (P (k, v))); [reflexivity |].
    exfalso. auto.
  - assert (Hr : forall e, e ∈ r -> ~ P e)
      by (intros e He; apply Hnone, elem_of_cons; by right).
    destruct (decide (k' = k)).
    + rewrite filter_cons. destruct (decide (P (k, v))); [| exfalso; auto].
      f_equal. by apply filter_none.
    + rewrite filter_cons. destruct (decide (P (k', v'))) as [Hp | _].
      * exfalso. apply (Hnone (k', v')); [apply elem_of_cons; by left | exact Hp].
      * by apply IH.
Qed.

Lemma playNote_audioFile_one_instance host env noteName velocity playbackMethod
    s sourceId s' :
  bounded s ->
  playbackMethod <> "oscillator" -> playbackMethod <> "sprite" ->
  playNote host env noteName velocity playbackMethod s = (Some sourceId, s') ->
  length (instancesOf noteName s') = 1%nat.
Proof.
  intros Hb Hosc Hspr Hplay.
  unfold playNote, Run.bind, Run.gets, Run.ret in Hplay.
  destruct (debounced _ _ _); [discriminate |].
  rewrite dispatch_steps in Hplay. unfold engine in Hplay.
  destruct (decide (playbackMethod = "oscillator")); [contradiction |].
  destruct (decide (playbackMethod = "sprite")); [contradiction |].
  set (s3 := beforeEngine env noteName s) in *.
  destruct (AudioPlayer.noteMapping (audioPlayer s3) noteName) eqn:Emap.
  1, 2: destruct (playNoteWithAudioFile_mapped env noteName velocity (audioPlayer s3))
          as (w' & Hw & Hreg & _); [by rewrite Emap |].
  3: { unfold onPlayer in Hplay.
       rewrite playNoteWithAudioFile_unmapped in Hplay by exact Emap. discriminate. }
  all: unfold onPlayer in Hplay; rewrite Hw in Hplay; injection Hplay as _ <-;
       unfold instancesOf; cbn [audioPlayer]; fold (reg w'); rewrite Hreg;
       destruct (afterEviction_room env s Hb) as (Hok1 & _);
       assert (Hreg3 : reg (audioPlayer s3)
                       = filter (fun e => AudioPlayer.noteName (snd e) <> noteName)
                           (registry (afterEviction env s)));
       [ subst s3; unfold beforeEngine; cbn [audioPlayer];
         rewrite onPlayer_world, stopNote_reg; by apply fold_stopOne_filter
       | rewrite Hreg3, filter_set_tagged; [reflexivity | | reflexivity];
         intros e He; apply list_elem_of_filter in He as [Hne _];
         intros E; by apply Hne ].
Qed.

(** X25.  From the system as it is built, whatever calls and callbacks came
    before: a playNote through the audio-file engine that returns an id
    leaves exactly one instance of its note in the registry.  The instances
    of that engine are audio elements without a gain node, and stopNote
    removes those at once. *)
Theorem audio_file_engine_one_voice host notesMap events env noteName velocity
    playbackMethod sourceId s' :
  playbackMethod <> "oscillator" -> playbackMethod <> "sprite" ->
  playNote host env noteName velocity playbackMethod
    (run host events (initial notesMap)) = (Some sourceId, s') ->
  length (instancesOf noteName s') = 1%nat.
Proof.
  intros Hosc Hspr Hplay.
  apply (playNote_audioFile_one_instance host env noteName velocity
           playbackMethod (run host events (initial notesMap)) sourceId s');
    [apply run_bounded, initial_bounded | exact Hosc | exact Hspr | exact Hplay].
Qed.

End Concurrency41.

(** ** Scheme switching *)

Section Schemes.
Import Browser AudioSchemes.

Lemma audioSchemes_own schemeId scheme :
  audioSchemes !! schemeId = Some scheme ->
  (schemeId = "popular" /\ scheme = popular)
  \/ (schemeId = "golden" /\ scheme = golden).
Proof.
  unfold audioSchemes. cbn [list_to_map foldr uncurry fst snd].
  rewrite lookup_insert. destruct (decide ("popular" = schemeId)) as [<- | _].
  - intros [= <-]. left. auto.
  - rewrite lookup_insert. destruct (decide ("golden" = schemeId)) as [<- | _].
    + intros [= <-]. right. auto.
    + rewrite lookup_empty. discriminate.
Qed.

(** A scheme id that is a scheme: the cache is emptied, the scheme and its
    table are installed, the promise resolves to true. *)
Lemma switchAudioScheme_known schemeId scheme m :
  audioSchemes !! schemeId = Some scheme ->
  let r := AudioManager.switchAudioScheme schemeId m in
  fst r = Resolved true
  /\ AudioManager.cacheSize (snd r) = 0%nat
  /\ AudioManager.currentScheme (snd r) = Some schemeId
  /\ AudioManager.notesMap (snd r) = Some (notesMap scheme).
Proof.
  intros Hown. unfold AudioManager.switchAudioScheme, Js.getProperty.
  rewrite Hown. cbn. unfold AudioManager.cacheSize. cbn.
  destruct (AudioManager.loader m); auto.
Qed.

Lemma legacy_switchAudioScheme_known schemeId scheme m table :
  audioSchemes !! schemeId = Some scheme ->
  LegacyAudioManager.notesMap m = Some table ->
  let r := LegacyAudioManager.switchAudioScheme schemeId m in
  fst r = Resolved true
  /\ JsMap.size (LegacyAudioManager.audioBuffers (snd r)) = 0%nat
  /\ (forall audioFile, LegacyAudioManager.mustDecode (snd r) audioFile = true)
  /\ LegacyAudioManager.currentScheme (snd r) = schemeId
  /\ LegacyAudioManager.notesMap (snd r) = Some (notesMap scheme).
Proof.
  intros Hown Htable. unfold LegacyAudioManager.switchAudioScheme, Js.getProperty.
  rewrite Hown, Htable. cbn. auto.
Qed.

(** A scheme id that is neither a scheme nor a name of Object.prototype:
    the promise resolves to false and nothing changes. *)
Lemma switchAudioScheme_unknown schemeId m :
  audioSchemes !! schemeId = None -> Js.inherited schemeId = false ->
  AudioManager.switchAudioScheme schemeId m = (Resolved false, m).
Proof.
  intros Hnone Hplain. unfold AudioManager.switchAudioScheme, Js.getProperty.
  rewrite Hnone, Hplain. reflexivity.
Qed.

Lemma legacy_switchAudioScheme_unknown schemeId m :
  audioSchemes !! schemeId = None -> Js.inherited schemeId = false ->
  LegacyAudioManager.switchAudioScheme schemeId m = (Resolved false, m).
Proof.
  intros Hnone Hplain. unfold LegacyAudioManager.switchAudioScheme, Js.getProperty.
  rewrite Hnone, Hplain. reflexivity.
Qed.

(** C6, at the input that the guard lets through.  "toString" is not a
    scheme, yet [audioSchemes["toString"]] is the function
    Object.prototype.toString: both versions of switchAudioScheme empty the
    cache, set the current scheme to "toString", leave the note map
    undefined, and end in a rejected promise instead of the answer false. *)
Theorem switchAudioScheme_toString m legacy table :
  audioSchemes !! "toString" = None
  /\ AudioManager.switchAudioScheme "toString" m
     = (Rejected,
        {| AudioManager.currentScheme := Some "toString";
           AudioManager.notesMap := None;
           AudioManager.loader := JsMap.clear <$> AudioManager.loader m |})
  /\ (LegacyAudioManager.notesMap legacy = Some table ->
      let r := LegacyAudioManager.switchAudioScheme "toString" legacy in
      fst r = Rejected
      /\ LegacyAudioManager.currentScheme (snd r) = "toString"
      /\ LegacyAudioManager.notesMap (snd r) = None
      /\ LegacyAudioManager.audioBuffers (snd r) = []).
Proof.
  split; [reflexivity |]. split; [reflexivity |].
  intros Htable. unfold LegacyAudioManager.switchAudioScheme.
  change (Js.getProperty audioSchemes "toString") with (@Js.Inherited Scheme).
  rewrite Htable. cbn. auto.
Qed.

End Schemes.

(** ** The fetch listener of the service worker *)

Section Fetch.
Import ServiceWorker.

Variable env : Env.

(** Opening a cache adds no entry. *)
Lemma matchAll_open caches name key :
  matchAll (JsMap.set caches name (opened caches name)) key
  = matchAll caches key.
Proof.
  unfold opened. induction caches as [| [n c] r IH]; cbn; [reflexivity |].
  destruct (decide (n = name)) as [-> | Hne]; cbn; [reflexivity |].
  destruct (JsMap.get c key); [reflexivity | exact IH].
Qed.

Lemma opened_open caches name :
  opened (JsMap.set caches name (opened caches name)) name = opened caches name.
Proof. unfold opened at 1. rewrite get_set_eq. reflexivity. Qed.

Lemma opened_put caches name key r :
  JsMap.get (opened (put caches name key r) name) key = Some r.
Proof. unfold put, opened at 1. rewrite get_set_eq. cbn. apply get_set_eq. Qed.

(** The listener looks at a request: GET, and not of a browser extension. *)
Definition handles (request : Request) : Prop :=
  method request = "GET"
  /\ Js.startsWith (href (url request)) "chrome-extension:" = false
  /\ Js.startsWith (href (url request)) "safari-extension:" = false.

Definition isAudioFile (request : Request) : bool :=
  Js.includes (pathname (url request)) "/audio/".

(** Neither the request nor, for an audio path, the path is cached. *)
Definition fullMiss (caches : CacheStorage) (request : Request) : Prop :=
  matchAll caches (href (url request)) = None
  /\ (isAudioFile request = true ->
      JsMap.get (opened caches STATIC_CACHE)
                (scope env +:+ pathname (url request)) = None).

Definition passesThrough (caches : CacheStorage) (request : Request) : Prop :=
  onFetch env caches request
  = {| handled := PassThrough; storage := caches; effects := [] |}.

Lemma onFetch_not_get caches request :
  method request <> "GET" -> passesThrough caches request.
Proof.
  intros Hm. unfold passesThrough, onFetch.
  rewrite bool_decide_eq_false_2 by exact Hm. reflexivity.
Qed.

Lemma onFetch_extension caches request :
  Js.startsWith (href (url request)) "chrome-extension:" = true
  \/ Js.startsWith (href (url request)) "safari-extension:" = true ->
  passesThrough caches request.
Proof.
  intros Hext. unfold passesThrough, onFetch.
  destruct (bool_decide (method request = "GET")); cbn [negb]; [| reflexivity].
  destruct Hext as [-> | ->]; [reflexivity |].
  rewrite orb_true_r. reflexivity.
Qed.

Ltac enter H :=
  destruct H as (Hget & Hchrome & Hsafari); unfold onFetch;
  rewrite (bool_decide_eq_true_2 _ Hget), Hchrome, Hsafari; cbn [negb orb].

Lemma onFetch_hit caches request cached :
  handles request ->
  matchAll caches (href (url request)) = Some cached ->
  onFetch env caches request
  = {| handled := RespondWith (Some cached); storage := caches;
       effects := [MatchRequest (href (url request))] |}.
Proof. intros H Hhit. enter H. rewrite Hhit. reflexivity. Qed.

Lemma onFetch_path_hit caches request cached :
  handles request ->
  matchAll caches (href (url request)) = None ->
  isAudioFile request = true ->
  JsMap.get (opened caches STATIC_CACHE)
            (scope env +:+ pathname (url request)) = Some cached ->
  let r := onFetch env caches request in
  handled r = RespondWith (Some cached) /\ fetches r = 0%nat
  /\ effects r = [MatchRequest (href (url request));
                  MatchPath (scope env +:+ pathname (url request))].
Proof.
  intros H Hmiss Haudio Hpath. enter H. rewrite Hmiss.
  unfold isAudioFile in Haudio. rewrite Haudio, opened_open, Hpath.
  cbn. auto.
Qed.

(** After both misses the network is asked once, and its response is the
    answer whatever becomes of the store. *)
Lemma onFetch_network caches request response :
  handles request -> fullMiss caches request ->
  network env request = Some response ->
  let r := onFetch env caches request in
  handled r = RespondWith (Some response) /\ fetches r = 1%nat.
Proof.
  intros H [Hmiss Hpath] Hnet. enter H. rewrite Hmiss.
  unfold isAudioFile in Hpath.
  destruct (Js.includes (pathname (url request)) "/audio/").
  - rewrite opened_open, (Hpath eq_refl), Hnet.
    destruct (cacheable response); cbn; auto.
  - rewrite Hnet. destruct (cacheable response); cbn; auto.
Qed.

Lemma onFetch_stored caches request response :
  handles request -> fullMiss caches request ->
  network env request = Some response ->
  cacheable response = true -> putSucceeds env = true ->
  JsMap.get (opened (storage (onFetch env caches request)) STATIC_CACHE)
            (href (url request)) = Some response.
Proof.
  intros H [Hmiss Hpath] Hnet Hok Hput. enter H. rewrite Hmiss.
  unfold isAudioFile in Hpath.
  destruct (Js.includes (pathname (url request)) "/audio/").
  - rewrite opened_open, (Hpath eq_refl), Hnet, Hok, Hput. cbn.
    apply opened_put.
  - rewrite Hnet, Hok, Hput. cbn. apply opened_put.
Qed.

Lemma onFetch_not_stored caches request response :
  handles request -> fullMiss caches request ->
  network env request = Some response ->
  cacheable response = false \/ putSucceeds env = false ->
  forall key,
    matchAll (storage (onFetch env caches request)) key = matchAll caches key.
Proof.
  intros H [Hmiss Hpath] Hnet Hno key. enter H. rewrite Hmiss.
  unfold isAudioFile in Hpath.
  destruct (Js.includes (pathname (url request)) "/audio/").
  - rewrite opened_open, (Hpath eq_refl), Hnet.
    destruct (cacheable response), (putSucceeds env), Hno as [Hno | Hno];
      try discriminate; cbn; apply matchAll_open.
  - rewrite Hnet.
    destruct (cacheable response), (putSucceeds env), Hno as [Hno | Hno];
      try discriminate; cbn; try reflexivity; apply matchAll_open.
Qed.

Lemma cacheable_spec response :
  cacheable response = true <-> status response = 200 /\ type response = "basic".
Proof.
  unfold cacheable. rewrite andb_true_iff, Z.eqb_eq, bool_decide_eq_true.
  reflexivity.
Qed.

(** The network fails: the page fallback exists on the branch of the other
    requests only; an audio path gets the 408 answer whatever its name. *)
Lemma onFetch_offline caches request :
  handles request -> fullMiss caches request ->
  network env request = None ->
  let r := onFetch env caches request in
  fetches r = 1%nat
  /\ handled r
     = if isAudioFile request then RespondWith (Some timeoutResponse)
       else if Js.includes (href (url request)) ".html"
            then RespondWith (matchAll caches (scope env +:+ "/index.html"))
            else RespondWith (Some timeoutResponse).
Proof.
  intros H [Hmiss Hpath] Hnet. enter H. rewrite Hmiss.
  unfold isAudioFile in *.
  destruct (Js.includes (pathname (url request)) "/audio/").
  - rewrite opened_open, (Hpath eq_refl), Hnet. cbn. auto.
  - rewrite Hnet. destruct (Js.includes (href (url request)) ".html"); cbn; auto.
Qed.

End Fetch.

Section FetchClaim.
Import ServiceWorker.

(** C7, as the code has it.  The listener leaves alone a request that is not
    a GET or that belongs to a browser extension.  A request found in the
    caches is answered from them without a fetch.  For an audio path that is
    not found, the path alone is looked up in the static cache before any
    fetch.  After the misses there is exactly one fetch; its response is the
    answer, and it is stored when it is a basic response of status 200 and
    the store succeeds, and in no other case.  When the fetch fails, an audio
    path is answered 408; another request whose URL contains .html is
    answered with the match of /index.html, and the rest with 408. *)
Theorem fetch_is_cache_first env caches request :
  (method request <> "GET" -> passesThrough env caches request)
  /\ (Js.startsWith (href (url request)) "chrome-extension:" = true
      \/ Js.startsWith (href (url request)) "safari-extension:" = true ->
      passesThrough env caches request)
  /\ (handles request ->
      (forall cached,
         matchAll caches (href (url request)) = Some cached ->
         handled (onFetch env caches request) = RespondWith (Some cached)
         /\ fetches (onFetch env caches request) = 0%nat
         /\ storage (onFetch env caches request) = caches)
      /\ (forall cached,
            matchAll caches (href (url request)) = None ->
            isAudioFile request = true ->
            JsMap.get (opened caches STATIC_CACHE)
                      (scope env +:+ pathname (url request)) = Some cached ->
            handled (onFetch env caches request) = RespondWith (Some cached)
            /\ fetches (onFetch env caches request) = 0%nat)
      /\ (fullMiss env caches request ->
          fetches (onFetch env caches request) = 1%nat
          /\ (forall response,
                network env request = Some response ->
                handled (onFetch env caches request)
                  = RespondWith (Some response)
                /\ (status response = 200 -> type response = "basic" ->
                    putSucceeds env = true ->
                    JsMap.get
                      (opened (storage (onFetch env caches request)) STATIC_CACHE)
                      (href (url request)) = Some response)
                /\ (status response <> 200 \/ type response <> "basic"
                    \/ putSucceeds env = false ->
                    forall key,
                      matchAll (storage (onFetch env caches request)) key
                      = matchAll caches key))
          /\ (network env request = None ->
              handled (onFetch env caches request)
              = if isAudioFile request
                then RespondWith (Some timeoutResponse)
                else if Js.includes (href (url request)) ".html"
                     then RespondWith
                            (matchAll caches (scope env +:+ "/index.html"))
                     else RespondWith (Some timeoutResponse)))).
Proof.
  split; [apply onFetch_not_get |]. split; [apply onFetch_extension |].
  intros Hh. split; [| split].
  - intros cached Hhit. rewrite (onFetch_hit env caches request cached Hh Hhit).
    auto.
  - intros cached Hmiss Haudio Hpath.
    destruct (onFetch_path_hit env caches request cached Hh Hmiss Haudio Hpath)
      as (Hr & Hf & _). auto.
  - intros Hmiss. split; [| split].
    + destruct (network env request) as [response |] eqn:Hnet.
      * apply (onFetch_network env caches request response Hh Hmiss Hnet).
      * apply (onFetch_offline env caches request Hh Hmiss Hnet).
    + intros response Hnet. split; [| split].
      * apply (onFetch_network env caches request response Hh Hmiss Hnet).
      * intros Hs Ht Hput.
        apply (onFetch_stored env caches request response Hh Hmiss Hnet);
          [apply cacheable_spec; auto | exact Hput].
      * intros Hno.
        apply (onFetch_not_stored env caches request response Hh Hmiss Hnet).
        destruct (cacheable response) eqn:Hc; [| by left].
        apply cacheable_spec in Hc as [Hs Ht].
        destruct Hno as [Hno | [Hno | Hno]]; [contradiction | contradiction |].
        by right.
    + intros Hnet. apply (onFetch_offline env caches request Hh Hmiss Hnet).
Qed.

(** An audio page requested while offline, the start page being cached. *)
Definition pianoOrigin : string := "https://piano.example".

Definition audioPage : Request :=
  {| method := "GET";
     url := {| origin := pianoOrigin; pathname := "/audio/help.html";
               search := EmptyString |} |}.

Definition indexPage : Response :=
  {| status := 200; type := "basic"; body := "<!DOCTYPE html>" |}.

Definition offline : Env :=
  {| scope := pianoOrigin; network := fun _ => None; putSucceeds := true |}.

Definition installed : CacheStorage :=
  [(STATIC_CACHE, [(pianoOrigin +:+ "/index.html", indexPage)])].

(** C7, the input at which the claim as worded fails: a GET of a URL with
    .html in it, on an audio path, the network down and /index.html cached.
    The answer is the 408 response, not the cached page. *)
Lemma fetch_audio_page_offline :
  method audioPage = "GET"
  /\ Js.includes (href (url audioPage)) ".html" = true
  /\ matchAll installed (href (url audioPage)) = None
  /\ network offline audioPage = None
  /\ matchAll installed (scope offline +:+ "/index.html") = Some indexPage
  /\ handled (onFetch offline installed audioPage)
     = RespondWith (Some timeoutResponse)
  /\ timeoutResponse <> indexPage.
Proof. repeat split; try reflexivity. discriminate. Qed.

End FetchClaim.

(** ** The scenarios of the specification, run *)

Section Scenarios.
Import Browser AudioPlaybackController.

Definition firstPress : Env :=
  {| currentTime := 1.5; now := 1000; idStamp := 1000; startStamp := 1000;
     random := "k3x9q2m1z" |}.

(** 50 ms after the first press. *)
Definition earlyPress : Env :=
  {| currentTime := 1.55; now := 1050; idStamp := 1050; startStamp := 1050;
     random := "p0o9i8u7y" |}.

(** 200 ms after the first press. *)
Definition secondPress : Env :=
  {| currentTime := 1.7; now := 1200; idStamp := 1200; startStamp := 1200;
     random := "a7c1e5g9i" |}.

(** The system after note 5 was played once through an engine. *)
Definition pressed (playbackMethod : string) : System :=
  run exampleHost [(firstPress, PlayNote "5" 0.7 playbackMethod)]
    (initial (Some AudioConfig.NOTES_MAP)).

(** The voices of a note in the table of the 'audio-player' oscillator. *)
Definition voicesOf (noteName : string) (s : System)
  : list (string * Oscillator.SourceInfo) :=
  match JsMap.get (AudioPlayer.oscillators (audioPlayer s)) "audio-player" with
  | Some o =>
      filter (fun e => Oscillator.noteName (snd e) = noteName)
        (Oscillator.activeSources o)
  | None => []
  end.

Lemma playNote_debounce_witness :
  playNote exampleHost earlyPress "5" 0.7 "audioFile" (pressed "audioFile")
  = (None, pressed "audioFile")
  /\ length (instancesOf "5" (pressed "audioFile")) = 1%nat.
Proof.
  split; [| reflexivity].
  apply (proj1 (proj2 (playNote_debounce exampleHost earlyPress
                         (pressed "audioFile") "5" 0.7 "audioFile")) 1000).
  - vm_compute. reflexivity.
  - lia.
  - vm_compute. reflexivity.
Defined.

Lemma audio_file_engine_one_voice_witness :
  length (instancesOf "5"
            (snd (playNote exampleHost secondPress "5" 0.7 "audioFile"
                    (pressed "audioFile")))) = 1%nat.
Proof.
  apply (audio_file_engine_one_voice exampleHost (Some AudioConfig.NOTES_MAP)
           [(firstPress, PlayNote "5" 0.7 "audioFile")] secondPress "5" 0.7
           "audioFile" "5_1200").
  - discriminate.
  - discriminate.
  - vm_compute. reflexivity.
Defined.

(** C3, the input at which the code misses what the claim and its own
    comment say: note 5 played twice through the oscillator engine, 200 ms
    apart.  Both calls pass the gate and the second returns an id.  The
    stopNote of the controller looks at the registry of the player, which
    holds no instance of the note, before and after; the voices are in the
    table of the oscillator, which now holds two of the note, the first not
    stopped and not yet ended. *)
Lemma oscillator_engine_two_voices :
  let r := playNote exampleHost secondPress "5" 0.7 "oscillator"
             (pressed "oscillator") in
  debounceTime (controller (pressed "oscillator")) < now secondPress - now firstPress
  /\ fst r = Some "osc_5_1200_a7c1e5g9i"
  /\ length (instancesOf "5" (snd r)) = 0%nat
  /\ map fst (voicesOf "5" (snd r))
     = ["osc_5_1000_k3x9q2m1z"; "osc_5_1200_a7c1e5g9i"].
Proof. vm_compute. repeat split; reflexivity. Qed.


End Scenarios.

Section FortyOneNotes.
Import Browser AudioPlaybackController.

(** A note map with the notes 1 to 41, and a press of each, one second
    apart. *)
Definition wideMap : gmap string AudioConfig.NoteMapping :=
  list_to_map
    (map (fun n : nat => (pretty n, AudioConfig.sample (pretty n +:+ ".mp3")))
       (seq 1 41)).

Definition pressOf (n : nat) : Trigger :=
  ({| currentTime := 0; now := 1000 * Z.of_nat n; idStamp := 1000 * Z.of_nat n;
      startStamp := 1000 * Z.of_nat n; random := "r" |},
   pretty n, 0.7%float).

Lemma registry_never_exceeds_forty_witness :
  view (registry
          (run exampleHost (map trigger (map pressOf (seq 1 41)))
             (initial (Some wideMap))))
  = map shown (map pressOf (seq 2 40)).
Proof.
  apply (proj2 (proj2 (proj2
           (registry_never_exceeds_forty exampleHost (Some wideMap) [])))
           (pressOf 1) (map pressOf (seq 2 39)) (pressOf 41)).
  - reflexivity.
  - apply (bool_decide_unpack _). vm_compute. exact I.
  - apply Forall_forall. repeat constructor; vm_compute; discriminate.
  - apply Forall_forall. repeat constructor; vm_compute; discriminate.
Defined.

End FortyOneNotes.

Section FetchOnline.
Import ServiceWorker.

Definition scorePage : Request :=
  {| method := "GET";
     url := {| origin := pianoOrigin; pathname := "/score.html";
               search := EmptyString |} |}.

Definition online : Env :=
  {| scope := pianoOrigin; network := fun _ => Some indexPage;
     putSucceeds := true |}.

Lemma fetch_is_cache_first_witness :
  handled (onFetch online [] scorePage) = RespondWith (Some indexPage)
  /\ fetches (onFetch online [] scorePage) = 1%nat
  /\ matchAll (storage (onFetch online [] scorePage)) (href (url scorePage))
     = Some indexPage.
Proof.
  assert (Hh : handles scorePage) by (repeat split; reflexivity).
  assert (Hm : fullMiss online [] scorePage) by (split; [reflexivity | discriminate]).
  destruct (proj2 (proj2 (proj2 (proj2 (fetch_is_cache_first online [] scorePage)) Hh))
              Hm) as (Hone & Hnet & _).
  destruct (Hnet indexPage eq_refl) as (Hr & _ & _).
  split; [exact Hr |]. split; [exact Hone | reflexivity].
Defined.

End FetchOnline.

Section BeyondTheTable.
Import Browser Oscillator.




End BeyondTheTable.

(** ** More of the Oscillator class: stopNote, stopAll, cleanupSource *)

Section MapFolds.
Context {V : Type}.
Implicit Types m : JsMap.t V.

(** Deleting keys one after the other. *)
Definition deleteAll m (ids : list string) : JsMap.t V :=
  fold_left (fun m id => JsMap.delete m id) ids m.

Lemma deleteAll_cons ids k v (r : JsMap.t V) :
  k ∉ ids -> deleteAll ((k, v) :: r) ids = (k, v) :: deleteAll r ids.
Proof.
  unfold deleteAll. revert r.
  induction ids as [| id ids IH]; intros r Hk; [reflexivity |].
  apply not_elem_of_cons in Hk as [Hne Hk]. cbn [fold_left JsMap.delete].
  destruct (decide (k = id)); [contradiction |]. by apply IH.
Qed.

Lemma deleteAll_filter (P : V -> Prop) `{forall v, Decision (P v)} m :
  JsMap.wf m ->
  deleteAll m (JsMap.keys (filter (fun e => P (snd e)) m))
  = filter (fun e => ~ P (snd e)) m.
Proof.
  unfold JsMap.wf, JsMap.keys.
  induction m as [| [k v] r IH]; intros Hwf; [reflexivity |].
  cbn [map fst] in Hwf. apply NoDup_cons in Hwf as [Hk Hwf].
  rewrite !filter_cons. cbn [snd].
  destruct (decide (P v)) as [Hp | Hp].
  - destruct (decide (~ P v)); [contradiction |].
    cbn [map fst]. unfold deleteAll. cbn [fold_left JsMap.delete].
    destruct (decide (k = k)); [| contradiction]. by apply IH.
  - destruct (decide (~ P v)); [| contradiction].
    rewrite deleteAll_cons.
    + f_equal. by apply IH.
    + intros Hin. apply Hk. apply elem_of_map_inv in Hin as (e & -> & He).
      apply list_elem_of_filter in He as [_ He]. by apply (elem_of_map fst).
Qed.

Lemma deleteAll_keys m : JsMap.wf m -> deleteAll m (JsMap.keys m) = [].
Proof.
  unfold JsMap.wf, JsMap.keys, deleteAll.
  induction m as [| [k v] r IH]; intros Hwf; [reflexivity |].
  cbn [map fst] in Hwf. apply NoDup_cons in Hwf as [_ Hwf].
  cbn [map fst fold_left JsMap.delete].
  destruct (decide (k = k)); [| contradiction]. by apply IH.
Qed.

Lemma keys_filter_NoDup (P : string * V -> Prop) `{forall e, Decision (P e)} m :
  JsMap.wf m -> NoDup (JsMap.keys (filter P m)).
Proof.
  unfold JsMap.wf, JsMap.keys.
  induction m as [| e r IH]; intros Hwf; [apply NoDup_nil_2 |].
  cbn [map] in Hwf. apply NoDup_cons in Hwf as [Hk Hwf].
  rewrite filter_cons. destruct (decide (P e)); [| by apply IH].
  cbn [map]. apply NoDup_cons. split; [| by apply IH].
  intros Hin. apply Hk. apply elem_of_map_inv in Hin as (e' & -> & He).
  apply list_elem_of_filter in He as [_ He]. by apply (elem_of_map fst).
Qed.

(** What a loop over keys reads of the entries, when each key is looked up
    in the map as it was before the loop. *)
Lemma flat_map_lookup {B} (f : V -> list B) m (l : JsMap.t V) :
  JsMap.wf m -> (forall e, e ∈ l -> e ∈ m) ->
  flat_map (fun id => match JsMap.get m id with
                      | Some v => f v
                      | None => []
                      end) (JsMap.keys l)
  = flat_map (fun e => f (snd e)) l.
Proof.
  intros Hwf. induction l as [| [k v] r IH]; intros Hin; [reflexivity |].
  cbn [JsMap.keys map fst flat_map snd].
  rewrite (elem_get m k v Hwf) by (apply Hin, elem_of_cons; by left).
  f_equal. apply IH. intros e He. apply Hin, elem_of_cons. by right.
Qed.


Lemma elem_of_delete m k e : e ∈ JsMap.delete m k -> e ∈ m.
Proof.
  induction m as [| [k' v'] r IH]; cbn [JsMap.delete]; [done |].
  destruct (decide (k' = k)); rewrite ?elem_of_cons; intuition.
Qed.

End MapFolds.

Section Voices.
Import Browser Oscillator OscillatorVoices.

Lemma voiced_id s : voiced s (activeSources (this s)) [] = s.
Proof. destruct s as [[] [n cs]]. unfold voiced. cbn. by rewrite app_nil_r. Qed.

Lemma voiced_voiced s m cs m' cs' :
  voiced (voiced s m cs) m' cs' = voiced s m' (cs ++ cs').
Proof. unfold voiced. cbn. by rewrite app_assoc. Qed.



Lemma cleanupSource_absent env sourceId s :
  JsMap.get (activeSources (this s)) sourceId = None ->
  cleanupSource env sourceId s = (tt, s).
Proof.
  destruct s as [o [n cs]]. cbn [this]. intros Habsent.
  unfold cleanupSource. osc_step. rewrite Habsent. reflexivity.
Qed.

Lemma cleanupSource_present env sourceId s info :
  JsMap.get (activeSources (this s)) sourceId = Some info ->
  cleanupSource env sourceId s
  = (tt, voiced s (JsMap.delete (activeSources (this s)) sourceId)
           (cleanupCalls env info)).
Proof.
  destruct s as [o [n cs]]. cbn [this]. intros Hheld.
  unfold cleanupSource, voiced, cleanupCalls. osc_step. rewrite Hheld.
  rewrite <- !app_assoc. reflexivity.
Qed.

(** cleanupSource on the ids of a list without repetition. *)
Lemma forEach_cleanupSource env ids s :
  NoDup ids ->
  Run.forEach ids (cleanupSource env) s
  = (tt, voiced s (deleteAll (activeSources (this s)) ids)
           (flat_map (fun id =>
              match JsMap.get (activeSources (this s)) id with
              | Some info => cleanupCalls env info
              | None => []
              end) ids)).
Proof.
  revert s. induction ids as [| id ids IH]; intros s Hnd.
  - cbn. by rewrite voiced_id.
  - apply NoDup_cons in Hnd as [Hid Hnd]. cbn [Run.forEach]. unfold Run.bind.
    assert (Hrest : forall m' : JsMap.t SourceInfo,
              (forall k, k ∈ ids -> JsMap.get m' k
                                   = JsMap.get (activeSources (this s)) k) ->
              flat_map (fun k => match JsMap.get m' k with
                                 | Some info => cleanupCalls env info
                                 | None => []
                                 end) ids
              = flat_map (fun k =>
                  match JsMap.get (activeSources (this s)) k with
                  | Some info => cleanupCalls env info
                  | None => []
                  end) ids).
    { intros m' Hsame. clear IH Hnd Hid.
      induction ids as [| k r IHr]; [reflexivity |].
      cbn [flat_map]. rewrite Hsame by (apply elem_of_cons; by left).
      f_equal. apply IHr. intros k' Hk'. apply Hsame, elem_of_cons. by right. }
    destruct (JsMap.get (activeSources (this s)) id) as [info |] eqn:E.
    + rewrite (cleanupSource_present env id s info E), IH by exact Hnd.
      rewrite voiced_voiced. cbn [flat_map]. rewrite E.
      unfold voiced at 2 3. cbn [this withActiveSources activeSources].
      rewrite Hrest; [reflexivity |].
      intros k Hk. apply get_delete_ne. intros ->. contradiction.
    + rewrite (cleanupSource_absent env id s E), IH by exact Hnd.
      cbn [flat_map]. rewrite E. cbn [app].
      unfold deleteAll. cbn [fold_left].
      rewrite (delete_absent _ _ E). reflexivity.
Qed.



End Voices.


Section VoicesInvariant.
Import Browser Oscillator OscillatorVoices.

Lemma cleanupSource_voicesOk env sourceId s :
  voicesOk s -> voicesOk (snd (cleanupSource env sourceId s)).
Proof.
  intros Hok. unfold voicesOk in *.
  destruct (JsMap.get (activeSources (this s)) sourceId) as [info |] eqn:E.
  - rewrite (cleanupSource_present env sourceId s info E). cbn.
    by apply wf_delete.
  - by rewrite (cleanupSource_absent env sourceId s E).
Qed.

Lemma playSustainedNote_voices host env noteName velocity opts s :
  activeSources (this (snd (playSustainedNote host env noteName velocity opts s)))
  = activeSources (this s).
Proof.
  destruct s as [o [n cs]]. unfold playSustainedNote. osc_step.
  destruct (JsMap.get _ noteName); [reflexivity |].
  destruct (Js.truthy _); reflexivity.
Qed.

Lemma stopSustainedNote_voices env noteName s :
  activeSources (this (snd (stopSustainedNote env noteName s)))
  = activeSources (this s).
Proof.
  destruct s as [o [n cs]]. unfold stopSustainedNote. osc_step.
  destruct (JsMap.get _ noteName); reflexivity.
Qed.

Lemma playNote_voicesOk host env noteName velocity customOptions s :
  voicesOk s ->
  voicesOk (snd (playNote host env noteName velocity customOptions s)).
Proof.
  intros Hok.
  destruct (o_sustainMode customOptions || sustainMode (this s))%bool eqn:E.
  - rewrite playNote_sustaining by exact E.
    unfold voicesOk. rewrite playSustainedNote_voices. exact Hok.
  - unfold voicesOk in *.
    destruct (playNote_this host env noteName velocity customOptions s E)
      as [-> | (sourceId & info & ->)]; [exact Hok |].
    by apply wf_set.
Qed.

Lemma invoke_voicesOk host m s : voicesOk s -> voicesOk (invoke host m s).
Proof.
  intros Hok. destruct m as [env []]; unfold invoke.
  - by apply playNote_voicesOk.
  - unfold voicesOk. rewrite playSustainedNote_voices. exact Hok.
  - unfold voicesOk. rewrite stopSustainedNote_voices. exact Hok.
  - unfold stopAllSustainedNotes. unfold Run.bind, Run.gets, Run.modify.
    assert (H : voicesOk (snd (Run.forEach
                  (JsMap.keys (activeSustainedNotes (this s)))
                  (stopSustainedNote env) s))).
    { apply (forEach_preserves voicesOk); [| exact Hok].
      intros x s0 H0. unfold voicesOk. rewrite stopSustainedNote_voices.
      exact H0. }
    destruct (Run.forEach _ _ s) as [[] s1]. exact H.
  - by apply cleanupSource_voicesOk.
  - unfold stopNote. unfold Run.bind, Run.gets.
    apply (forEach_preserves voicesOk); [| exact Hok].
    intros x s0 H0. by apply cleanupSource_voicesOk.
  - unfold voicesOk, stopAll, stopAllSustainedNotes.
    unfold Run.bind, Run.gets, Run.modify.
    destruct (Run.forEach _ _ s) as [[] s1].
    assert (H : voicesOk (snd (Run.forEach
                  (JsMap.keys (activeSustainedNotes
                     (this (onThis (withActiveSources JsMap.clear) s1))))
                  (stopSustainedNote env)
                  (onThis (withActiveSources JsMap.clear) s1)))).
    { apply (forEach_preserves voicesOk); [| apply NoDup_nil_2].
      intros x s0 H0. unfold voicesOk. rewrite stopSustainedNote_voices.
      exact H0. }
    destruct (Run.forEach _ _ _) as [[] s2]. exact H.
  - unfold voicesOk, setType. destruct (bool_decide _); exact Hok.
  - exact Hok.
  - exact Hok.
  - exact Hok.
  - exact Hok.
Qed.

Lemma run_voicesOk host methods s : voicesOk s -> voicesOk (run host methods s).
Proof.
  unfold run. revert s. induction methods as [| m r IH]; intros s Hok; cbn.
  - exact Hok.
  - apply IH. by apply invoke_voicesOk.
Qed.

Lemma initial_voicesOk o : voicesOk (initial o).
Proof. unfold voicesOk. cbn. apply NoDup_nil_2. Qed.

(** X1.  stopNote(noteName) on an instance in any state it can reach: the voices
    of the note leave the table, in the order of their start, each with the
    five calls of its cleanup; the other voices and the sustained notes are
    as before. *)
Theorem oscillator_stopNote_removes_note host o methods env name :
  let s := run host methods (initial o) in
  let s' := snd (stopNote env name s) in
  activeSources (this s')
  = filter (fun e => noteName (snd e) <> name) (activeSources (this s))
  /\ calls (audioContext s')
     = (calls (audioContext s) ++
        flat_map (fun e => cleanupCalls env (snd e))
          (filter (fun e => noteName (snd e) = name) (activeSources (this s))))%list
  /\ nextNode (audioContext s') = nextNode (audioContext s)
  /\ activeSustainedNotes (this s') = activeSustainedNotes (this s)
  /\ options (this s') = options (this s).
Proof.
  intros s s'.
  assert (Hok : voicesOk s) by apply run_voicesOk, initial_voicesOk.
  assert (E : stopNote env name s
              = (tt, voiced s
                       (deleteAll (activeSources (this s))
                          (JsMap.keys (filter (fun e => noteName (snd e) = name)
                                         (activeSources (this s)))))
                       (flat_map (fun id =>
                          match JsMap.get (activeSources (this s)) id with
                          | Some info => cleanupCalls env info
                          | None => []
                          end)
                          (JsMap.keys (filter (fun e => noteName (snd e) = name)
                                         (activeSources (this s))))))).
  { unfold stopNote, Run.bind, Run.gets. apply forEach_cleanupSource.
    apply (keys_filter_NoDup (fun e => noteName (snd e) = name)). exact Hok. }
  subst s'. rewrite E.
  cbn [snd voiced this audioContext calls nextNode withActiveSources
       activeSources activeSustainedNotes options].
  split; [| split; [| auto]].
  - exact (deleteAll_filter (fun v : SourceInfo => noteName v = name) _ Hok).
  - f_equal. apply flat_map_lookup; [exact Hok |].
    intros e He. by apply list_elem_of_filter in He as [_ He].
Qed.




End VoicesInvariant.


(** ** The waveform of an instance *)

Section Waveform.
Import Browser Oscillator OscillatorVoices OscillatorSetters.

Lemma playSustainedNote_options host env noteName velocity opts s :
  options (this (snd (playSustainedNote host env noteName velocity opts s)))
  = options (this s).
Proof.
  destruct s as [o [n cs]]. unfold playSustainedNote. osc_step.
  destruct (JsMap.get _ noteName); [reflexivity |].
  destruct (Js.truthy _); reflexivity.
Qed.

Lemma stopSustainedNote_options env noteName s :
  options (this (snd (stopSustainedNote env noteName s))) = options (this s).
Proof.
  destruct s as [o [n cs]]. unfold stopSustainedNote. osc_step.
  destruct (JsMap.get _ noteName); reflexivity.
Qed.

Lemma cleanupSource_options env sourceId s :
  options (this (snd (cleanupSource env sourceId s))) = options (this s).
Proof.
  destruct s as [o [n cs]]. unfold cleanupSource. osc_step.
  destruct (JsMap.get _ sourceId); reflexivity.
Qed.

Lemma playNote_options host env noteName velocity customOptions s :
  options (this (snd (playNote host env noteName velocity customOptions s)))
  = options (this s).
Proof.
  destruct (o_sustainMode customOptions || sustainMode (this s))%bool eqn:E.
  - rewrite playNote_sustaining by exact E. apply playSustainedNote_options.
  - destruct (playNote_this host env noteName velocity customOptions s E)
      as [-> | (sourceId & info & ->)]; reflexivity.
Qed.

Lemma forEach_options {A} (body : A -> Run.M Heap unit) l s :
  (forall x s, options (this (snd (body x s))) = options (this s)) ->
  options (this (snd (Run.forEach l body s))) = options (this s).
Proof.
  intros Hbody.
  apply (forEach_preserves (fun s' => options (this s') = options (this s)));
    [| reflexivity].
  intros x s0 H0. by rewrite Hbody.
Qed.

Lemma stopAllSustainedNotes_options env s :
  options (this (snd (stopAllSustainedNotes env s))) = options (this s).
Proof.
  unfold stopAllSustainedNotes. unfold Run.bind, Run.gets, Run.modify.
  pose proof (forEach_options (stopSustainedNote env)
                (JsMap.keys (activeSustainedNotes (this s))) s
                (stopSustainedNote_options env)) as H.
  destruct (Run.forEach _ _ s) as [[] s1]. exact H.
Qed.

Lemma stopAll_options env s :
  options (this (snd (stopAll env s))) = options (this s).
Proof.
  unfold stopAll. unfold Run.bind at 1. unfold Run.gets at 1.
  unfold Run.bind at 1.
  pose proof (forEach_options (cleanupSource env)
                (JsMap.keys (activeSources (this s))) s
                (cleanupSource_options env)) as H.
  destruct (Run.forEach _ _ s) as [[] s1]. cbn [snd] in H.
  unfold Run.bind at 1. unfold Run.modify at 1.
  rewrite stopAllSustainedNotes_options. exact H.
Qed.

Lemma setType_spec waveform o :
  (waveform ∈ getSupportedTypes ->
   type (options (setType waveform o)) = waveform)
  /\ (waveform ∉ getSupportedTypes -> setType waveform o = o).
Proof.
  unfold setType, getSupportedTypes. split; intros H.
  - rewrite bool_decide_eq_true_2 by exact H. reflexivity.
  - rewrite bool_decide_eq_false_2 by exact H. reflexivity.
Qed.

Lemma invoke_supported host m s : supported s -> supported (invoke host m s).
Proof.
  unfold supported. intros Hok. destruct m as [env []]; unfold invoke.
  - by rewrite playNote_options.
  - by rewrite playSustainedNote_options.
  - by rewrite stopSustainedNote_options.
  - by rewrite stopAllSustainedNotes_options.
  - by rewrite cleanupSource_options.
  - unfold stopNote. unfold Run.bind, Run.gets.
    rewrite forEach_options; [exact Hok | apply cleanupSource_options].
  - by rewrite stopAll_options.
  - cbn [onThis this].
    destruct (decide (waveform ∈ getSupportedTypes)) as [Hin | Hout].
    + rewrite (proj1 (setType_spec waveform (this s)) Hin). exact Hin.
    + rewrite (proj2 (setType_spec waveform (this s)) Hout). exact Hok.
  - exact Hok.
  - exact Hok.
  - exact Hok.
  - exact Hok.
Qed.

(** X3.  An instance whose waveform is one of the four supported ones when it is
    made keeps a supported waveform whatever is called on it: setType takes
    a supported waveform and ignores any other, and nothing else writes the
    option. *)
Theorem waveform_stays_supported host o methods waveform :
  supported (initial o) ->
  let s := run host methods (initial o) in
  supported s
  /\ (waveform ∉ getSupportedTypes -> setType waveform (this s) = this s)
  /\ (waveform ∈ getSupportedTypes ->
      type (options (setType waveform (this s))) = waveform).
Proof.
  intros Hinit s. split; [| split].
  - subst s. unfold run. revert Hinit. generalize (initial o).
    induction methods as [| m r IH]; intros s0 H0; cbn [fold_left].
    + exact H0.
    + apply IH. by apply invoke_supported.
  - apply setType_spec.
  - apply setType_spec.
Qed.

Lemma waveform_stays_supported_witness :
  type (options (this
    (run exampleHost
       [ ({| currentTime := 0; now := 0; idStamp := 0; startStamp := 0;
             random := "r" |}, DoSetType "noise");
         ({| currentTime := 0; now := 0; idStamp := 0; startStamp := 0;
             random := "r" |}, DoSetType "square");
         ({| currentTime := 0; now := 0; idStamp := 0; startStamp := 0;
             random := "r" |}, DoSetType "") ]
       (initial defaultOptions))))
  ∈ getSupportedTypes.
Proof.
  apply (waveform_stays_supported exampleHost defaultOptions _ "noise").
  unfold supported, getSupportedTypes. cbn.
  apply elem_of_cons. right. apply elem_of_cons. right.
  apply elem_of_cons. left. reflexivity.
Defined.

End Waveform.


(** ** Which notes sound *)

Section Sounding.
Import Browser Oscillator.

(** [g] maps every entry of the table to a frequency that is a number, not
    zero, between 130 Hz and 1570 Hz, and a level that the browser takes. *)
Definition audibleOnTable (g : float -> float) : bool :=
  forallb (fun i =>
    Js.truthy (g (entry i))
    && PrimFloat.ltb 130 (g (entry i)) && PrimFloat.ltb (g (entry i)) 1570
    && isLevel (g (entry i)))
    (seq 0 19).

Lemma audibleOnTable_spec g i :
  audibleOnTable g = true -> (i < 19)%nat ->
  Js.truthy (g (entry i)) = true
  /\ PrimFloat.ltb 130 (g (entry i)) = true
  /\ PrimFloat.ltb (g (entry i)) 1570 = true
  /\ isLevel (g (entry i)) = true.
Proof.
  intros Hc Hi. unfold audibleOnTable in Hc. rewrite forallb_forall in Hc.
  assert (Hin : In i (seq 0 19)) by (apply in_seq; lia).
  specialize (Hc i Hin). apply andb_true_iff in Hc as [Hc H4].
  apply andb_true_iff in Hc as [Hc H3].
  apply andb_true_iff in Hc as [H1 H2]. auto.
Qed.

Lemma getFrequencyForNote_audible host o (k : Z) :
  configured host -> accurateSemitone host -> 1 <= k <= 19 ->
  Js.truthy (getFrequencyForNote host o (Js.toString k)) = true
  /\ PrimFloat.ltb 130 (getFrequencyForNote host o (Js.toString k)) = true
  /\ PrimFloat.ltb (getFrequencyForNote host o (Js.toString k)) 1570 = true
  /\ isLevel (getFrequencyForNote host o (Js.toString k)) = true.
Proof.
  intros Hc Hs Hk. rewrite getFrequencyForNote_table by assumption.
  assert (Hi : (Z.to_nat (k - 1) < 19)%nat) by lia.
  revert Hi. generalize (Z.to_nat (k - 1)). intros i Hi.
  unfold tuned, pitchShift, semitone.
  unfold accurateSemitone, semitoneValues in Hs.
  set (s := Math_pow host 2 (1 / 12)) in *.
  assert (Hs' : s = 0x1.0f38f92d97962p+0%float
                \/ s = 0x1.0f38f92d97963p+0%float
                \/ s = 0x1.0f38f92d97964p+0%float).
  { rewrite !elem_of_cons in Hs. rewrite elem_of_nil in Hs. tauto. }
  clearbody s. clear Hs.
  destruct (bool_decide _ || bool_decide _)%bool;
    destruct (decide (currentPitch o = "low"));
    try destruct (decide (currentPitch o = "high"));
    try (destruct Hs' as [-> | [-> | ->]]).
  all: match goal with
       | |- Js.truthy ?a = true /\ _ =>
           let g := eval pattern (entry i) in a in
           match g with
           | ?f _ =>
               apply (audibleOnTable_spec f i);
               [vm_compute; reflexivity | exact Hi]
           end
       end.
Qed.

(** An exponential ramp to a level that is zero is refused. *)
Lemma zero_isZeroLevel v : PrimFloat.eqb v 0 = true -> isZeroLevel v = true.
Proof.
  unfold isZeroLevel. rewrite FloatAxioms.eqb_spec, FloatAxioms.leb_spec,
    FloatAxioms.abs_spec.
  destruct (Prim2SF v) as [[] | [] | | [] m e]; cbn; try discriminate;
    intros _; reflexivity.
Qed.

(** X4.  With the table of audio-config.js loaded and Math.pow(2, 1/12)
    accurate to one unit in the last place, playNote of a note 1 to 19
    outside the sustain mode, whatever the pitch, the waveform and the
    options.  The frequency lies between 130 Hz and 1570 Hz, and the browser
    takes it.  When the browser accepts every call of the try block (the
    type, the five calls of the envelope, start and stop), playNote returns
    the id built from the note, the time and the random suffix, and
    registers the voice under it.  When it refuses one of them, playNote
    answers null: the two nodes stay made and connected, the calls before
    the refused one stand, and no voice is registered.  That is the case
    when the level after the decay, velocity * volume * sustain, is 0. *)
Theorem playNote_table_note_sounds host env o ctx (k : Z) velocity customOptions :
  configured host -> accurateSemitone host -> 1 <= k <= 19 ->
  sustainMode o = false -> o_sustainMode customOptions = false ->
  let noteName := Js.toString k in
  let frequency := getFrequencyForNote host o noteName in
  let opts := merge (options o) customOptions in
  let oscillator := nextNode ctx in
  let gain := S (nextNode ctx) in
  let l := scheduled env opts frequency velocity oscillator gain in
  let sourceId :=
    "osc_" +:+ noteName +:+ "_" +:+ Js.toString (idStamp env) +:+ "_"
      +:+ random env in
  let r := playNote host env noteName velocity customOptions
             {| this := o; audioContext := ctx |} in
  PrimFloat.ltb 130 frequency = true
  /\ PrimFloat.ltb frequency 1570 = true
  /\ refuses (SetFrequency oscillator frequency) = false
  /\ (allAccepted l = true ->
      fst r = Some sourceId
      /\ JsMap.get (activeSources (this (snd r))) sourceId
         = Some {| oscillator := oscillator; gainNode := gain;
                   noteName := noteName; startTime := currentTime env |})
  /\ (allAccepted l = false ->
      fst r = None
      /\ this (snd r) = o
      /\ nextNode (audioContext (snd r)) = S (S (nextNode ctx))
      /\ calls (audioContext (snd r))
         = (calls ctx ++
            [ CreateOscillator oscillator; CreateGain gain;
              Connect oscillator (Node gain); Connect gain Destination ] ++
            accepted l)%list)
  /\ (PrimFloat.eqb (velocity * volume opts * sustain opts) 0 = true ->
      allAccepted l = false).
Proof.
  intros Hc Hs Hk Hsus Hcustom noteName frequency opts oscillator gain l
    sourceId r.
  destruct (getFrequencyForNote_audible host o k Hc Hs Hk)
    as (Ht & Hlo & Hhi & Hlevel).
  fold noteName in Ht, Hlo, Hhi, Hlevel. fold frequency in Ht, Hlo, Hhi, Hlevel.
  assert (Hr : r = playNote host env noteName velocity customOptions
                     {| this := o; audioContext := ctx |}) by reflexivity.
  rewrite playNote_plain in Hr
    by (rewrite ?Hsus, ?Hcustom; (reflexivity || exact Ht)).
  cbv zeta in Hr. fold frequency opts in Hr. fold gain in Hr.
  fold oscillator in Hr. fold l in Hr.
  fold sourceId in Hr.
  split; [exact Hlo |]. split; [exact Hhi |].
  split; [cbn [refuses]; by rewrite Hlevel |].
  split; [| split].
  - intros Hl. rewrite Hl in Hr. rewrite Hr. cbn [fst snd this].
    split; [reflexivity |]. apply get_set_eq.
  - intros Hl. rewrite Hl in Hr. rewrite Hr.
    cbn [fst snd this audioContext nextNode calls]. repeat split.
    by rewrite <- app_assoc.
  - intros Hzero. subst l. unfold scheduled, adsr.
    rewrite !allAccepted_app. unfold allAccepted at 2.
    cbn [forallb].
    assert (Href : refuses (ExponentialRampToValueAtTime gain
                     (velocity * volume opts * sustain opts)
                     (currentTime env + attack opts + decay opts)) = true).
    { cbn [refuses]. rewrite (zero_isZeroLevel _ Hzero).
      by rewrite orb_true_r. }
    rewrite Href. cbn [negb andb]. by rewrite !andb_false_r.
Qed.

(** The instance of the manager, note 12 at velocity 0.7: an id.  The same
    after setVolume(0): null. *)
Lemma playNote_table_note_sounds_witness :
  fst (playNote exampleHost firstPress "12" 0.7 noOptions
         {| this := createOscillator; audioContext := fresh |})
  = Some "osc_12_1000_k3x9q2m1z"
  /\ fst (playNote exampleHost firstPress "12" 0.7 noOptions
            {| this := setVolume 0 createOscillator; audioContext := fresh |})
     = None.
Proof.
  assert (Hacc : accurateSemitone exampleHost).
  { unfold accurateSemitone, semitoneValues. apply elem_of_cons. right.
    apply elem_of_cons. left. reflexivity. }
  split.
  - destruct (playNote_table_note_sounds exampleHost firstPress
                createOscillator fresh 12 0.7 noOptions)
      as (_ & _ & _ & Hid & _).
    + reflexivity.
    + exact Hacc.
    + lia.
    + reflexivity.
    + reflexivity.
    + apply Hid. vm_compute. reflexivity.
  - destruct (playNote_table_note_sounds exampleHost firstPress
                (setVolume 0 createOscillator) fresh 12 0.7 noOptions)
      as (_ & _ & _ & _ & Hnull & Hzero).
    + reflexivity.
    + exact Hacc.
    + lia.
    + reflexivity.
    + reflexivity.
    + apply Hnull, Hzero. vm_compute. reflexivity.
Defined.

(** NaN times a number is NaN. *)
Lemma mul_nan_l x : (PrimFloat.nan * x)%float = PrimFloat.nan.
Proof.
  rewrite <- (FloatAxioms.SF2Prim_Prim2SF (PrimFloat.nan * x)).
  rewrite FloatAxioms.mul_spec.
  change (Prim2SF PrimFloat.nan) with SpecFloat.S754_nan.
  destruct (Prim2SF x); reflexivity.
Qed.

(** X5.  A note name that parseInt does not read as a number ("C4", the empty
    string) has the frequency NaN, on a host whose Math.pow answers NaN for
    the exponent NaN as the language requires: playNote and
    playSustainedNote answer null, make no node and leave the instance as it
    is. *)
Theorem playNote_unreadable_note host env s noteName velocity customOptions opts :
  Js.parseInt noteName = None ->
  Math_pow host 2 PrimFloat.nan = PrimFloat.nan ->
  JsMap.get (activeSustainedNotes (this s)) noteName = None ->
  playNote host env noteName velocity customOptions s = (None, s)
  /\ playSustainedNote host env noteName velocity opts s = (None, s).
Proof.
  intros Hparse Hpow Hfree.
  assert (Hf : Js.truthy (getFrequencyForNote host (this s) noteName) = false).
  { unfold getFrequencyForNote. rewrite Hparse. cbn [fmap option_fmap option_map].
    assert (Hnone : match NOTE_FREQUENCIES host with
                    | Some _ => None
                    | None => None
                    end = @None float) by (destruct (NOTE_FREQUENCIES host); reflexivity).
    rewrite Hnone.
    change (PrimFloat.nan / 12)%float with PrimFloat.nan. rewrite Hpow.
    assert (Hbase : (pitchShift (currentPitch (this s)) 261.63 * PrimFloat.nan)%float
                    = PrimFloat.nan).
    { unfold pitchShift.
      destruct (decide (currentPitch (this s) = "low")); [reflexivity |].
      destruct (decide (currentPitch (this s) = "high")); reflexivity. }
    rewrite Hbase. unfold tuned.
    destruct (bool_decide _ || bool_decide _)%bool;
      [rewrite mul_nan_l |]; reflexivity. }
  assert (Hsus : playSustainedNote host env noteName velocity opts s = (None, s)).
  { destruct s as [o [n cs]]. cbn [this] in *.
    unfold playSustainedNote. osc_step. rewrite Hfree, Hf. reflexivity. }
  split; [| exact Hsus].
  destruct (o_sustainMode customOptions || sustainMode (this s))%bool eqn:E.
  - rewrite playNote_sustaining by exact E.
    destruct s as [o [n cs]]. cbn [this] in *.
    unfold playSustainedNote. osc_step. rewrite Hfree, Hf. reflexivity.
  - by apply playNote_unresolved.
Qed.

Lemma playNote_unreadable_note_witness :
  playNote exampleHost firstPress "C4" 0.7 noOptions (initial defaultOptions)
  = (None, initial defaultOptions).
Proof.
  apply (playNote_unreadable_note exampleHost firstPress (initial defaultOptions) "C4" 0.7 noOptions
           (options (this (initial defaultOptions)))).
  - reflexivity.
  - reflexivity.
  - reflexivity.
Defined.

End Sounding.


(** ** The oscillator manager *)

Section Manager.
Import Browser OscillatorVoices OscillatorManager.

(** With the defaults of the constructor and no options, the instance is
    the one of [Oscillator.createOscillator]. *)
Lemma createOscillator_default id :
  fst (createOscillator id noOptions initial) = Oscillator.createOscillator.
Proof. reflexivity. Qed.





End Manager.


(** ** Stopping audio elements *)

Section PlayerStops.
Import Browser AudioPlayer AudioPlayerStops.

Lemma cleanupSource_element env id w :
  elementsOnly (reg w) ->
  cleanupSource env id w
  = (tt, withSources (fun _ => JsMap.delete (reg w) id) w).
Proof.
  intros Hel. destruct w as [[m v b] os nm [nn cs]]. unfold reg in *.
  cbn [player activeSources] in *. unfold cleanupSource. player_step.
  cbn [activeSources].
  destruct (JsMap.get m id) as [info |] eqn:E.
  - pose proof (Hel (id, info) (get_Some_elem _ _ _ E)) as Hg.
    cbn [snd] in Hg. rewrite Hg. reflexivity.
  - rewrite (delete_absent _ _ E). reflexivity.
Qed.

Lemma forEach_cleanupSource_element env ids w :
  elementsOnly (reg w) ->
  Run.forEach ids (cleanupSource env) w
  = (tt, withSources (fun _ => deleteAll (reg w) ids) w).
Proof.
  revert w. induction ids as [| id ids IH]; intros w Hel.
  - destruct w as [[m v b] os nm [nn cs]]. reflexivity.
  - cbn [Run.forEach]. unfold Run.bind.
    rewrite (cleanupSource_element env id w Hel), IH.
    + reflexivity.
    + intros e He. apply Hel. eapply elem_of_delete, He.
Qed.

Lemma forEach_ext {S A} (P : S -> Prop) (b1 b2 : A -> Run.M S unit) l s :
  (forall x s, P s -> b1 x s = b2 x s) ->
  (forall x s, P s -> P (snd (b2 x s))) ->
  P s -> Run.forEach l b1 s = Run.forEach l b2 s.
Proof.
  intros Hsame Hkeep. revert s.
  induction l as [| x r IH]; intros s Hs; [reflexivity |].
  cbn [Run.forEach]. unfold Run.bind. rewrite (Hsame x s Hs).
  specialize (Hkeep x s Hs). destruct (b2 x s) as [[] s1]. by apply IH.
Qed.

(** X7.  The player in any state the system can reach, where its registry holds
    audio elements only.  stopNote drops the instances of the note,
    stopAll and cleanupAllSources drop every instance, and none of them
    issues a call to the browser: the audio element of a dropped instance
    is not paused.  An element is paused by its own cleanup callback, run
    when the sample ends or when its timer of five seconds fires. *)
Theorem player_stop_leaves_elements_playing host notesMap events env name
    sourceId element :
  let w := AudioPlaybackController.audioPlayer
             (AudioPlaybackController.run host events
                (AudioPlaybackController.initial notesMap)) in
  stopNote env name w
  = (tt, withSources (fun m =>
           filter (fun e => noteName (snd e) <> name) m) w)
  /\ stopAll env w = (tt, withSources (fun _ => []) w)
  /\ cleanupAllSources env w = (tt, withSources (fun _ => []) w)
  /\ (forall f, context (withSources f w) = context w)
  /\ fire env (ElementCleanup sourceId element) w
     = (tt, withSources (fun m => JsMap.delete m sourceId)
              (withContext (fun a =>
                 {| nextNode := nextNode a;
                    calls := calls a ++ [Pause element] |}) w)).
Proof.
  intros w.
  assert (Hb : bounded (AudioPlaybackController.run host events
                          (AudioPlaybackController.initial notesMap)))
    by apply run_bounded, initial_bounded.
  destruct Hb as ((Hwf & Hne & Hel) & _ & _).
  change (AudioPlaybackController.registry _) with (reg w) in Hwf, Hne, Hel.
  fold (elementsOnly (reg w)) in Hel.
  split; [| split; [| split; [| split]]].
  - unfold stopNote. unfold Run.bind at 1. unfold Run.gets at 1.
    rewrite (forEach_ext (fun w0 => elementsOnly (reg w0)) _ (cleanupSource env)).
    2: { intros id w0 H0. unfold Run.bind at 1. unfold Run.gets at 1.
         fold (reg w0).
         destruct (JsMap.get (reg w0) id) as [info |] eqn:E; [| reflexivity].
         pose proof (H0 (id, info) (get_Some_elem _ _ _ E)) as Hg.
         cbn [snd] in Hg. cbn [mbind option_bind]. rewrite Hg. reflexivity. }
    2: { intros id w0 H0. rewrite (cleanupSource_element env id w0 H0).
         intros e He. apply H0. eapply elem_of_delete, He. }
    2: exact Hel.
    rewrite (forEach_cleanupSource_element env _ w Hel).
    pose proof (deleteAll_filter (fun v : SourceInfo => noteName v = name) _ Hwf)
      as Hdel.
    unfold reg in Hdel |- *. rewrite Hdel.
    destruct w as [[m v b] os nm [nn cs]]. reflexivity.
  - unfold stopAll. unfold Run.bind at 1. unfold Run.gets at 1.
    unfold Run.bind at 1.
    rewrite (forEach_cleanupSource_element env _ w Hel).
    unfold Run.modify. destruct w as [[m v b] os nm [nn cs]]. reflexivity.
  - unfold cleanupAllSources. unfold Run.bind at 1. unfold Run.gets at 1.
    rewrite (forEach_cleanupSource_element env _ w Hel).
    fold (reg w). rewrite (deleteAll_keys _ Hwf). reflexivity.
  - reflexivity.
  - unfold fire, elementCleanup.
    destruct w as [[m v b] os nm [nn cs]]. player_step. reflexivity.
Qed.

End PlayerStops.


(** ** The controller: what it records and what it ignores *)

Section ControllerMore.
Import Browser AudioPlaybackController ControllerState.

Lemma dispatch_controller host env noteName velocity playbackMethod s :
  controller (snd (dispatch host env noteName velocity playbackMethod s))
  = recordPlay noteName (now env) (controller s).
Proof.
  rewrite dispatch_steps, onPlayer_controller.
  unfold beforeEngine. cbn [controller]. rewrite onPlayer_controller.
  f_equal. unfold afterEviction.
  destruct (_ >=? _); [apply onPlayer_controller | reflexivity].
Qed.

(** X8.  reset() forgets every trigger time and empties the cooldown set: the
    next playNote of any note passes the gate as a first trigger does.  It
    leaves the maximum, the window and the player alone, so the instances
    that sound stay registered. *)
Theorem reset_forgets_triggers host env s noteName velocity playbackMethod :
  let s' := onController reset s in
  playNote host env noteName velocity playbackMethod s'
  = dispatch host env noteName velocity playbackMethod s'
  /\ (Js.inherited noteName = false ->
      getLastPlayTime (controller s') noteName = Time 0)
  /\ isNoteInCooldown noteName (controller s') = false
  /\ audioPlayer s' = audioPlayer s
  /\ maxConcurrent (controller s') = maxConcurrent (controller s)
  /\ debounceTime (controller s') = debounceTime (controller s).
Proof.
  intros s'. split; [| split; [| auto]].
  - apply playNote_passes. left. apply lookup_empty.
  - intros Hplain. unfold getLastPlayTime, Js.getProperty.
    cbn [s' onController controller reset lastPlayTimes].
    rewrite lookup_empty, Hplain. reflexivity.
Qed.

(** X9.  A playNote that passes the gate records its time for its note, whether
    the engine then starts an instance or answers null, and for no other
    note; one that is suppressed records nothing.  [__proto__] is the one
    name for which the assignment does nothing. *)
Theorem playNote_records_trigger host env s noteName velocity playbackMethod :
  noteName <> "__proto__" -> now env <> 0 ->
  let s' := snd (playNote host env noteName velocity playbackMethod s) in
  (debounced (controller s) noteName (now env) = false ->
   getLastPlayTime (controller s') noteName = Time (now env)
   /\ forall other, other <> noteName ->
        getLastPlayTime (controller s') other
        = getLastPlayTime (controller s) other)
  /\ (debounced (controller s) noteName (now env) = true -> s' = s).
Proof.
  intros Hname Hnow s'. subst s'. unfold playNote, Run.bind, Run.gets, Run.ret.
  destruct (debounced (controller s) noteName (now env)); split;
    try discriminate; try reflexivity.
  intros _. rewrite dispatch_controller.
  unfold getLastPlayTime, Js.getProperty, recordPlay, Js.setProperty.
  cbn [lastPlayTimes]. destruct (decide (noteName = "__proto__")); [contradiction |].
  split.
  - rewrite lookup_insert_eq. unfold Js.orDefault.
    destruct (Z.eqb_spec (now env) 0); [contradiction | reflexivity].
  - intros other Hother. rewrite lookup_insert_ne by congruence. reflexivity.
Qed.

Lemma playNote_records_trigger_witness :
  getLastPlayTime
    (controller (snd (playNote exampleHost firstPress "20" 0.7 "audioFile"
                        (initial (Some AudioConfig.NOTES_MAP))))) "20"
  = Time 1000
  /\ fst (playNote exampleHost firstPress "20" 0.7 "audioFile"
            (initial (Some AudioConfig.NOTES_MAP))) = None.
Proof.
  split; [| reflexivity].
  apply (playNote_records_trigger exampleHost firstPress
           (initial (Some AudioConfig.NOTES_MAP)) "20" 0.7 "audioFile").
  - discriminate.
  - discriminate.
  - reflexivity.
Defined.

(** X10.  With the window set to 0, as the control panel does when the sustain
    mode is switched on, no playNote is suppressed as long as the clock does
    not run backwards; switching the mode off sets the window to 150 ms
    again. *)
Theorem sustain_mode_disables_debounce host env s noteName velocity playbackMethod :
  (forall t, lastPlayTimes (controller s) !! noteName = Some t -> t <= now env) ->
  let on := updateDebounceForSustainMode true s in
  let off := updateDebounceForSustainMode false s in
  playNote host env noteName velocity playbackMethod on
  = dispatch host env noteName velocity playbackMethod on
  /\ debounceTime (controller on) = 0
  /\ debounceTime (controller off) = 150
  /\ lastPlayTimes (controller on) = lastPlayTimes (controller s)
  /\ audioPlayer on = audioPlayer s.
Proof.
  intros Hclock on off. split; [| auto].
  apply playNote_passes.
  cbn [on updateDebounceForSustainMode onController controller setDebounceTime
       lastPlayTimes debounceTime].
  destruct (lastPlayTimes (controller s) !! noteName) as [t |] eqn:E;
    [| by left].
  right. right. exists t. split; [reflexivity |].
  specialize (Hclock t eq_refl). lia.
Qed.

Lemma sustain_mode_disables_debounce_witness :
  playNote exampleHost earlyPress "5" 0.7 "oscillator"
    (updateDebounceForSustainMode true (pressed "oscillator"))
  = dispatch exampleHost earlyPress "5" 0.7 "oscillator"
      (updateDebounceForSustainMode true (pressed "oscillator")).
Proof.
  apply (sustain_mode_disables_debounce exampleHost earlyPress
           (pressed "oscillator") "5" 0.7 "oscillator").
  intros t Ht. vm_compute in Ht. injection Ht as <-. vm_compute. discriminate.
Defined.

Lemma onPlayer_onController {A} (m : Run.M AudioPlayer.World A) g s :
  onPlayer m (onController g s)
  = (fst (onPlayer m s), onController g (snd (onPlayer m s))).
Proof.
  unfold onPlayer, onController. cbn [audioPlayer controller].
  destruct (m (audioPlayer s)) as [a w]. reflexivity.
Qed.

(** X11.  The cooldown set is kept by its four methods and read by none of the
    others: what playNote returns and does is the same whatever the set
    holds. *)
Theorem cooldown_does_not_gate_playNote host env s f noteName velocity
    playbackMethod other :
  let r := playNote host env noteName velocity playbackMethod s in
  playNote host env noteName velocity playbackMethod
    (onController (withCooldown f) s)
  = (fst r, onController (withCooldown f) (snd r))
  /\ isNoteInCooldown other (addNoteToCooldown other (controller s)) = true
  /\ isNoteInCooldown other (removeNoteFromCooldown other (controller s)) = false
  /\ isNoteInCooldown other (clearNoteCooldown (controller s)) = false.
Proof.
  intros r. split; [| split; [| split]].
  - subst r. unfold playNote, Run.bind, Run.gets, Run.ret.
    change (debounced (controller (onController (withCooldown f) s)) noteName
              (now env))
      with (debounced (controller s) noteName (now env)).
    destruct (debounced (controller s) noteName (now env)); [reflexivity |].
    rewrite !dispatch_steps.
    assert (He : afterEviction env (onController (withCooldown f) s)
                 = onController (withCooldown f) (afterEviction env s)).
    { unfold afterEviction, registry.
      cbn [onController controller audioPlayer withCooldown maxConcurrent].
      destruct (_ >=? _); [| reflexivity].
      rewrite onPlayer_onController. reflexivity. }
    assert (Hb : beforeEngine env noteName (onController (withCooldown f) s)
                 = onController (withCooldown f) (beforeEngine env noteName s)).
    { unfold beforeEngine. rewrite He, onPlayer_onController. reflexivity. }
    rewrite Hb. apply onPlayer_onController.
  - unfold isNoteInCooldown, addNoteToCooldown, withCooldown. cbn.
    apply bool_decide_eq_true_2. set_solver.
  - unfold isNoteInCooldown, removeNoteFromCooldown, withCooldown. cbn.
    apply bool_decide_eq_false_2. set_solver.
  - unfold isNoteInCooldown, clearNoteCooldown, withCooldown. cbn.
    apply bool_decide_eq_false_2. set_solver.
Qed.

End ControllerMore.


(** ** The maximum of concurrent instances, at any value *)

Section AnyMaximum.
Import Browser AudioPlaybackController ControllerState.

Lemma fire_registry env f s :
  registry (snd (onPlayer (AudioPlayer.fire env f) s)) = registry s
  \/ exists id,
       registry (snd (onPlayer (AudioPlayer.fire env f) s))
       = JsMap.delete (registry s) id.
Proof.
  rewrite registry_onPlayer. unfold registry. fold (reg (audioPlayer s)).
  destruct f as [id | id | o g | id h | id src g]; unfold AudioPlayer.fire.
  - right. exists id. apply cleanupSource_reg.
  - left. unfold Run.bind at 1. unfold Run.gets at 1.
    destruct (JsMap.get _ _); [apply onOscillator_reg | reflexivity].
  - left. destruct (audioPlayer s) as [p os nm [nn cs]].
    unfold reg. player_step. reflexivity.
  - right. exists id. unfold AudioPlayer.elementCleanup.
    destruct (audioPlayer s) as [p os nm [nn cs]].
    unfold reg. player_step. reflexivity.
  - right. exists id. destruct (audioPlayer s) as [p os nm [nn cs]].
    unfold reg. player_step. reflexivity.
Qed.

(** One playNote, whatever the maximum is. *)
Lemma playNote_size host env noteName velocity playbackMethod s :
  regOk (registry s) ->
  let s' := snd (playNote host env noteName velocity playbackMethod s) in
  regOk (registry s')
  /\ maxConcurrent (controller s') = maxConcurrent (controller s)
  /\ (JsMap.size (registry s')
      <= Nat.max (JsMap.size (registry s))
           (Nat.max (Z.to_nat (maxConcurrent (controller s))) 1))%nat.
Proof.
  intros Hok s'. subst s'. unfold playNote, Run.bind, Run.gets, Run.ret.
  destruct (debounced _ _ _); [cbn [snd]; split; [exact Hok | split; [reflexivity | lia]] |].
  rewrite dispatch_controller.
  rewrite dispatch_steps, registry_onPlayer.
  set (s3 := beforeEngine env noteName s).
  assert (Ha : regOk (registry (afterEviction env s))
               /\ (JsMap.size (registry (afterEviction env s))
                   <= JsMap.size (registry s))%nat
               /\ (Z.of_nat (JsMap.size (registry s))
                     >= maxConcurrent (controller s) ->
                   registry s <> [] ->
                   S (JsMap.size (registry (afterEviction env s)))
                   = JsMap.size (registry s))).
  { unfold afterEviction.
    destruct (Z.geb_spec (Z.of_nat (JsMap.size (registry s)))
                (maxConcurrent (controller s))) as [Hfull | Hroom].
    - rewrite registry_onPlayer. split; [by apply stopOldestSource_regOk |].
      split; [apply stopOldestSource_size |].
      intros _ Hne.
      destruct (stopOldestSource_evicts env (audioPlayer s) Hok Hne)
        as (id & info & _ & _ & _ & Hsz). exact Hsz.
    - split; [exact Hok |]. split; [lia |]. intros Hfull. lia. }
  destruct Ha as (Hok1 & Hle1 & Hevict).
  destruct (stopNote_room env noteName (afterEviction env s)
              (JsMap.size (registry (afterEviction env s))) Hok1 (le_n _))
    as (Hok2 & Hsize2).
  assert (Hreg3 : reg (audioPlayer s3)
                  = registry (snd (onPlayer (AudioPlayer.stopNote env noteName)
                                     (afterEviction env s)))) by reflexivity.
  assert (Hsize : (JsMap.size (reg (audioPlayer s3)) + 1
                   <= Nat.max (JsMap.size (registry s))
                        (Nat.max (Z.to_nat (maxConcurrent (controller s))) 1))%nat).
  { rewrite Hreg3.
    destruct (Z.geb_spec (Z.of_nat (JsMap.size (registry s)))
                (maxConcurrent (controller s))) as [Hfull | Hroom].
    - destruct (registry s) as [| e r] eqn:E.
      + cbn in Hle1. lia.
      + assert (Hne : e :: r <> []) by discriminate.
        specialize (Hevict ltac:(lia) Hne). lia.
    - lia. }
  split; [| split; [reflexivity |]].
  - destruct (engine_reg host env noteName velocity playbackMethod (audioPlayer s3))
      as [-> | ->]; rewrite Hreg3; [exact Hok2 |].
    apply regOk_set; [exact Hok2 | apply elementId_nonempty | reflexivity].
  - destruct (engine_reg host env noteName velocity playbackMethod (audioPlayer s3))
      as [-> | ->]; [lia |].
    etransitivity; [apply size_set | lia].
Qed.

(** The registry is in order, the maximum is [n], and the registry is
    within it. *)
Definition within (n : nat) (s : System) : Prop :=
  regOk (registry s)
  /\ maxConcurrent (controller s) = Z.of_nat n
  /\ (JsMap.size (registry s) <= n)%nat.

Lemma step_within host n e s :
  (1 <= n)%nat -> within n s -> within n (step host e s).
Proof.
  intros Hn (Hok & Hmax & Hsize).
  destruct e as [env [noteName velocity method | noteName | | time | m | f]];
    unfold step.
  - destruct (playNote_size host env noteName velocity method s Hok)
      as (Hok' & Hmax' & Hsize').
    split; [exact Hok' |]. split; [by rewrite Hmax' |].
    rewrite Hmax in Hsize'. lia.
  - destruct (stopNote_room env noteName s n Hok Hsize) as (Hok' & Hsize').
    unfold within. rewrite onPlayer_controller. auto.
  - unfold within. rewrite onPlayer_controller, registry_onPlayer, stopAll_reg.
    split; [apply regOk_nil | split; [exact Hmax | cbn; lia]].
  - by split.
  - by split.
  - unfold within. rewrite onPlayer_controller.
    destruct (fire_registry env f s) as [-> | [id ->]]; [auto |].
    split; [by apply regOk_delete |]. split; [exact Hmax |].
    etransitivity; [apply size_delete | exact Hsize].
Qed.

Lemma run_within host n events s :
  (1 <= n)%nat -> within n s -> within n (run host events s).
Proof.
  intros Hn. unfold run. revert s.
  induction events as [| e r IH]; intros s Hw; cbn; [exact Hw |].
  apply IH. by apply step_within.
Qed.

(** X12.  setMaxConcurrent(max) in any state the system can reach.  The call
    itself stops nothing.  A playNote after it leaves the registry no larger
    than the larger of its size before and of max (of 1, when max is
    below 1): above the maximum each trigger evicts one instance and adds at
    most one.  When max is 1 or more and the registry is within it, it stays
    within it whatever calls and callbacks follow. *)
Theorem setMaxConcurrent_bounds_registry host notesMap events (max : nat) more
    env noteName velocity playbackMethod :
  let s := run host events (initial notesMap) in
  let s1 := onController (setMaxConcurrent (Z.of_nat max)) s in
  registry s1 = registry s
  /\ (JsMap.size (registry
                    (snd (playNote host env noteName velocity playbackMethod s1)))
      <= Nat.max (JsMap.size (registry s)) (Nat.max max 1))%nat
  /\ ((1 <= max)%nat -> (JsMap.size (registry s) <= max)%nat ->
      (JsMap.size (registry (run host more s1)) <= max)%nat).
Proof.
  intros s s1.
  assert (Hb : bounded s) by apply run_bounded, initial_bounded.
  destruct Hb as (Hok & _ & _).
  split; [reflexivity |]. split.
  - destruct (playNote_size host env noteName velocity playbackMethod s1 Hok)
      as (_ & _ & Hsize).
    cbn [s1 onController controller setMaxConcurrent maxConcurrent] in Hsize.
    rewrite Nat2Z.id in Hsize. exact Hsize.
  - intros Hmax Hsize.
    assert (Hw : within max s1) by (split; [exact Hok | split; [reflexivity | exact Hsize]]).
    apply (run_within host max more s1 Hmax Hw).
Qed.

Lemma setMaxConcurrent_bounds_registry_witness :
  (JsMap.size
     (registry
        (run exampleHost (map trigger (map pressOf (seq 1 5)))
           (onController (setMaxConcurrent 2) (initial (Some wideMap)))))
   <= 2)%nat.
Proof.
  apply (proj2 (proj2 (setMaxConcurrent_bounds_registry exampleHost
                         (Some wideMap) [] 2
                         (map trigger (map pressOf (seq 1 5)))
                         firstPress "1" 0.7 "audioFile"))).
  - lia.
  - cbn. lia.
Defined.

End AnyMaximum.


(** ** js/audio.js: instances with a gain node *)

Section Gain.
Import Browser AudioPlayer GainSources.

Lemma said_nil w : said w [] = w.
Proof.
  destruct w as [p os nm [nn cs]]. unfold said, withContext. cbn.
  by rewrite app_nil_r.
Qed.

Lemma said_said w cs ds : said (said w cs) ds = said w (cs ++ ds).
Proof. unfold said, withContext. cbn. by rewrite app_assoc. Qed.

Lemma reg_said w cs : reg (said w cs) = reg w.
Proof. reflexivity. Qed.

(** stopNote on instances that all have a gain node: each instance of the
    note gets the two ramps and the timer; the registry is not touched. *)
Lemma stopNote_fades env name w :
  JsMap.wf (reg w) -> gainOnly (reg w) ->
  stopNote env name w
  = (tt, said w (flat_map (fadeOut env)
                   (filter (fun e => noteName (snd e) = name) (reg w)))).
Proof.
  intros Hwf Hgain. unfold stopNote. unfold Run.bind at 1. unfold Run.gets at 1.
  fold (reg w).
  assert (Hsub : forall e,
            e ∈ filter (fun e => noteName (snd e) = name) (reg w) -> e ∈ reg w).
  { intros e He. by apply list_elem_of_filter in He as [_ He]. }
  revert Hsub. generalize (filter (fun e => noteName (snd e) = name) (reg w)).
  intros l. rewrite <- (said_nil w) at 1.
  change (flat_map (fadeOut env) l) with ([] ++ flat_map (fadeOut env) l)%list.
  generalize (@nil Call) as done.
  induction l as [| [id info] r IH]; intros done Hsub.
  - cbn. by rewrite app_nil_r.
  - cbn [JsMap.keys map fst Run.forEach]. unfold Run.bind at 1.
    assert (Hin : (id, info) ∈ reg w) by (apply Hsub, elem_of_cons; by left).
    destruct (Hgain _ Hin) as [g Hg]. cbn [snd] in Hg.
    pose proof (elem_get _ _ _ Hwf Hin) as Hget.
    unfold Run.bind at 1. unfold Run.gets at 1.
    change (activeSources (player (said w done))) with (reg w).
    rewrite Hget. cbn [mbind option_bind]. rewrite Hg.
    assert (Hcalls : Run.bind (call (ExponentialRampToValueAtTime g 0.001
                                       (currentTime env + 0.02)))
                       (fun _ =>
                     Run.bind (call (LinearRampToValueAtTime g 0.001
                                       (currentTime env + 0.03)))
                       (fun _ => call (SetTimeout (CleanupSource id) 25)))
                       (said w done)
                     = (tt, said w (done ++ fadeOut env (id, info)))).
    { unfold fadeOut. cbn [snd fst]. rewrite Hg.
      destruct w as [p os nm [nn cs]]. unfold said. player_step.
      rewrite <- !app_assoc. reflexivity. }
    rewrite Hcalls. cbn [flat_map]. rewrite app_assoc.
    apply IH. intros e He. apply Hsub, elem_of_cons. by right.
Qed.

(** cleanupSource, as the timer of stopNote calls it. *)
Lemma cleanupSource_teardown env id w info :
  JsMap.get (reg w) id = Some info ->
  cleanupSource env id w
  = (tt, withSources (fun m => JsMap.delete m id) (said w (teardown env info))).
Proof.
  intros Hget. destruct w as [[m v b] os nm [nn cs]]. unfold reg in Hget.
  cbn [player activeSources] in Hget.
  unfold cleanupSource, teardown, said. player_step. cbn [activeSources].
  rewrite Hget. destruct (gainNode info).
  - rewrite <- !app_assoc. reflexivity.
  - rewrite app_nil_r. reflexivity.
Qed.

End Gain.


Section LegacyOverlap.
Import Browser GainSources.

(** The instance that _playAudioBuffer registers. *)
Definition bufferSource (env : Env) (name : string) (h : nat)
  : AudioPlayer.SourceInfo :=
  {| AudioPlayer.source := h; AudioPlayer.gainNode := Some (S h);
     AudioPlayer.noteName := name;
     AudioPlayer.startTime := startStamp env;
     AudioPlayer.type := "webAudio" |}.

Lemma legacy_playNote_cached env s noteName velocity table mapping audioBuffer :
  LegacyAudioManager.isReady (LegacyAudioManager.manager s) = true ->
  LegacyAudioManager.hasContext (LegacyAudioManager.manager s) = true ->
  LegacyAudioManager.debounced (LegacyAudioManager.manager s) noteName (now env)
    = false ->
  Z.of_nat (JsMap.size (reg (LegacyAudioManager.sources s)))
    < LegacyAudioManager.maxConcurrent (LegacyAudioManager.manager s) ->
  LegacyAudioManager.notesMap (LegacyAudioManager.manager s) = Some table ->
  table !! noteName = Some mapping ->
  JsMap.get (LegacyAudioManager.audioBuffers (LegacyAudioManager.manager s))
    (AudioConfig.file mapping) = Some audioBuffer ->
  JsMap.wf (reg (LegacyAudioManager.sources s)) ->
  gainOnly (reg (LegacyAudioManager.sources s)) ->
  exists s',
    LegacyAudioManager.playNote env noteName velocity s
    = (LegacyAudioManager.Returned (Some (elementId env noteName)), s')
    /\ reg (LegacyAudioManager.sources s')
       = JsMap.set (reg (LegacyAudioManager.sources s)) (elementId env noteName)
           (bufferSource env noteName
              (nextNode (AudioPlayer.context (LegacyAudioManager.sources s)))).
Proof.
  intros Hready Hctx Hdeb Hroom Htable Hnote Hbuf Hwf Hgain.
  unfold LegacyAudioManager.playNote.
  unfold Run.bind at 1. unfold Run.gets at 1.
  rewrite Hready, Hctx, Hdeb. cbn [negb].
  unfold LegacyAudioManager.dispatch.
  unfold Run.bind at 1. unfold Run.gets at 1.
  unfold Run.bind at 1. unfold Run.gets at 1.
  fold (reg (LegacyAudioManager.sources s)).
  destruct (Z.geb_spec (Z.of_nat (JsMap.size (reg (LegacyAudioManager.sources s))))
              (LegacyAudioManager.maxConcurrent (LegacyAudioManager.manager s)));
    [lia |].
  unfold Run.bind at 1. unfold Run.ret at 1.
  unfold Run.bind at 1. unfold LegacyAudioManager.onSources at 1.
  rewrite (stopNote_fades env noteName (LegacyAudioManager.sources s) Hwf Hgain).
  generalize (flat_map (fadeOut env)
                (filter (fun e => AudioPlayer.noteName (snd e) = noteName)
                   (reg (LegacyAudioManager.sources s)))).
  intros faded.
  destruct s as [[ready ctx vol bufs scheme nmap last maxc deb]
                   [[m v b] os nm [nn cs]] web].
  cbn [LegacyAudioManager.manager LegacyAudioManager.sources
       LegacyAudioManager.isReady LegacyAudioManager.hasContext
       LegacyAudioManager.notesMap LegacyAudioManager.audioBuffers
       LegacyAudioManager.webAudio] in *.
  subst ready ctx nmap.
  unfold LegacyAudioManager.playNoteWithOscillator,
    LegacyAudioManager.playAudioBuffer, said, reg, elementId, bufferSource.
  cbv [Run.bind Run.ret Run.gets Run.modify
       LegacyAudioManager.onSources LegacyAudioManager.onManager
       LegacyAudioManager.manager LegacyAudioManager.sources
       LegacyAudioManager.webAudio LegacyAudioManager.recordPlay
       LegacyAudioManager.withContext
       LegacyAudioManager.isReady LegacyAudioManager.hasContext
       LegacyAudioManager.volume LegacyAudioManager.audioBuffers
       LegacyAudioManager.currentScheme LegacyAudioManager.notesMap
       LegacyAudioManager.lastPlayTimes LegacyAudioManager.maxConcurrent
       LegacyAudioManager.debounceTime
       AudioPlayer.call AudioPlayer.create
       AudioPlayer.withSources AudioPlayer.withContext AudioPlayer.player
       AudioPlayer.context AudioPlayer.oscillators AudioPlayer.notesMap
       AudioPlayer.activeSources AudioPlayer.volume AudioPlayer.audioBuffer
       Browser.nextNode Browser.calls negb andb].
  unfold Js.getProperty. rewrite Hnote. cbn [mbind option_bind].
  rewrite Hbuf. eexists. split; reflexivity.
Qed.

(** X13.  js/audio.js, a trigger that passes the gate with the registry below the
    maximum and the sample of the note decoded: the call returns the id of a
    new instance, and every instance that was registered stays registered.
    Those of the same note are only told to fade, and leave when their
    timer of 25 ms fires; until then the note has more than one instance. *)
Theorem legacy_replay_overlaps env s noteName velocity table mapping audioBuffer :
  LegacyAudioManager.isReady (LegacyAudioManager.manager s) = true ->
  LegacyAudioManager.hasContext (LegacyAudioManager.manager s) = true ->
  LegacyAudioManager.debounced (LegacyAudioManager.manager s) noteName (now env)
    = false ->
  Z.of_nat (JsMap.size (reg (LegacyAudioManager.sources s)))
    < LegacyAudioManager.maxConcurrent (LegacyAudioManager.manager s) ->
  LegacyAudioManager.notesMap (LegacyAudioManager.manager s) = Some table ->
  table !! noteName = Some mapping ->
  JsMap.get (LegacyAudioManager.audioBuffers (LegacyAudioManager.manager s))
    (AudioConfig.file mapping) = Some audioBuffer ->
  JsMap.wf (reg (LegacyAudioManager.sources s)) ->
  gainOnly (reg (LegacyAudioManager.sources s)) ->
  elementId env noteName ∉ JsMap.keys (reg (LegacyAudioManager.sources s)) ->
  let r := LegacyAudioManager.playNote env noteName velocity s in
  let registered :=
    (elementId env noteName,
     bufferSource env noteName
       (nextNode (AudioPlayer.context (LegacyAudioManager.sources s)))) in
  fst r = LegacyAudioManager.Returned (Some (elementId env noteName))
  /\ reg (LegacyAudioManager.sources (snd r))
     = (reg (LegacyAudioManager.sources s) ++ [registered])%list
  /\ filter (fun e => AudioPlayer.noteName (snd e) = noteName)
       (reg (LegacyAudioManager.sources (snd r)))
     = (filter (fun e => AudioPlayer.noteName (snd e) = noteName)
          (reg (LegacyAudioManager.sources s)) ++ [registered])%list
  /\ forall id info env',
       JsMap.get (reg (LegacyAudioManager.sources s)) id = Some info ->
       reg (snd (AudioPlayer.fire env' (CleanupSource id)
                   (LegacyAudioManager.sources (snd r))))
       = (JsMap.delete (reg (LegacyAudioManager.sources s)) id ++ [registered])%list.
Proof.
  intros Hready Hctx Hdeb Hroom Htable Hnote Hbuf Hwf Hgain Hfresh r registered.
  destruct (legacy_playNote_cached env s noteName velocity table mapping
              audioBuffer Hready Hctx Hdeb Hroom Htable Hnote Hbuf Hwf Hgain)
    as (s' & Hplay & Hreg).
  subst r. rewrite Hplay. cbn [fst snd]. rewrite Hreg.
  rewrite (set_new _ _ _ Hfresh). fold registered.
  split; [reflexivity |]. split; [reflexivity |]. split.
  - rewrite filter_app. f_equal. rewrite filter_cons.
    destruct (decide (AudioPlayer.noteName (snd registered) = noteName))
      as [_ | Hno]; [reflexivity |].
    exfalso. apply Hno. reflexivity.
  - intros id info env' Hget. unfold AudioPlayer.fire.
    rewrite cleanupSource_reg, Hreg, (set_new _ _ _ Hfresh). fold registered.
    assert (Hne : id <> elementId env noteName).
    { intros ->. apply Hfresh. by apply get_Some_keys in Hget. }
    clear Hplay Hreg Hwf Hgain Hfresh Hroom.
    induction (reg (LegacyAudioManager.sources s)) as [| [k v] rest IH];
      [discriminate |].
    cbn [JsMap.get] in Hget. cbn [app JsMap.delete].
    destruct (decide (k = id)); [reflexivity |].
    cbn [app]. f_equal. by apply IH.
Qed.

End LegacyOverlap.


Section LegacyExample.
Import Browser GainSources.

(** The manager of js/audio.js with its context made and the sample of
    note 5 decoded. *)
Definition legacyWarm : LegacyAudioManager.System :=
  {| LegacyAudioManager.manager :=
       {| LegacyAudioManager.isReady := true;
          LegacyAudioManager.hasContext := true;
          LegacyAudioManager.volume := 0.9;
          LegacyAudioManager.audioBuffers :=
            [("/audio/f4-b5/a05.mp3", {| bufferDuration := 1.5 |})];
          LegacyAudioManager.currentScheme := "popular";
          LegacyAudioManager.notesMap :=
            Some (AudioSchemes.notesMap AudioSchemes.popular);
          LegacyAudioManager.lastPlayTimes := ∅;
          LegacyAudioManager.maxConcurrent := 40;
          LegacyAudioManager.debounceTime := 150 |};
     LegacyAudioManager.sources :=
       {| AudioPlayer.player := AudioPlayer.new;
          AudioPlayer.oscillators := JsMap.empty;
          AudioPlayer.notesMap := None;
          AudioPlayer.context := fresh |};
     LegacyAudioManager.webAudio := true |}.

Lemma legacy_replay_overlaps_witness :
  JsMap.keys
    (filter (fun e => AudioPlayer.noteName (snd e) = "5")
       (reg (LegacyAudioManager.sources
               (snd (LegacyAudioManager.playNote secondPress "5" 0.7
                       (snd (LegacyAudioManager.playNote firstPress "5" 0.7
                               legacyWarm)))))))
  = ["5_1000"; "5_1200"].
Proof.
  pose proof (legacy_replay_overlaps secondPress
                (snd (LegacyAudioManager.playNote firstPress "5" 0.7 legacyWarm))
                "5" 0.7 (AudioSchemes.notesMap AudioSchemes.popular)
                (AudioSchemes.local "a05.mp3") {| bufferDuration := 1.5 |}) as H.
  cbn zeta in H.
  destruct H as (_ & _ & Hfilter & _).
  - reflexivity.
  - reflexivity.
  - reflexivity.
  - vm_compute. reflexivity.
  - reflexivity.
  - reflexivity.
  - reflexivity.
  - apply (bool_decide_unpack _). vm_compute. exact I.
  - intros e He. vm_compute in He.
    apply list_elem_of_singleton in He. subst e. eexists. reflexivity.
  - apply (bool_decide_unpack _). vm_compute. exact I.
  - rewrite Hfilter. vm_compute. reflexivity.
Defined.

End LegacyExample.


(** ** The service worker: install and activate *)

Section WorkerLife.
Import ServiceWorker ServiceWorkerLife.

(** A response of the named cache is found by caches.match. *)
Lemma matchAll_opened caches name key r :
  JsMap.get (opened caches name) key = Some r ->
  is_Some (matchAll caches key).
Proof.
  unfold opened. induction caches as [| [n c] rest IH]; cbn; [discriminate |].
  destruct (decide (n = name)) as [-> | Hne]; cbn.
  - intros ->. by eexists.
  - intros H. destruct (JsMap.get c key); [by eexists | by apply IH].
Qed.

Lemma putAll_get cache l key :
  key ∈ map fst l -> is_Some (JsMap.get (putAll cache l) key).
Proof.
  unfold putAll. revert cache.
  induction l as [| [k v] rest IH]; intros cache Hin;
    [by apply elem_of_nil in Hin |].
  cbn [fold_left fst snd].
  destruct (decide (key ∈ map fst rest)) as [Hlater | Hlast];
    [by apply IH |].
  cbn [map fst] in Hin. apply elem_of_cons in Hin as [-> | Hin];
    [| contradiction].
  assert (Hkeep : forall c : JsMap.t Response,
            JsMap.get (fold_left (fun c e => JsMap.set c (fst e) (snd e))
                         rest c) k = JsMap.get c k).
  { clear IH. induction rest as [| [k' v'] rest' IHr]; intros c;
      [reflexivity |].
    cbn [fold_left fst snd]. rewrite IHr.
    - apply get_set_ne. intros ->. apply Hlast. cbn. apply elem_of_cons.
      by left.
    - intros Hin. apply Hlast. cbn. apply elem_of_cons. by right. }
  rewrite Hkeep, get_set_eq. by eexists.
Qed.

Lemma append_empty (s : string) : s +:+ EmptyString = s.
Proof.
  induction s as [| c s IH]; [reflexivity |]. by rewrite append_cons, IH.
Qed.

Lemma fetchAll_keys env paths responses path :
  fetchAll env paths = Some responses -> path ∈ paths ->
  exists r, (scope env +:+ path, r) ∈ responses.
Proof.
  revert responses. induction paths as [| p rest IH]; intros responses Hf Hin;
    [by apply elem_of_nil in Hin |].
  cbn [fetchAll] in Hf.
  destruct (network env (resourceRequest env p)) as [r |]; [| discriminate].
  destruct (ok r); [| discriminate].
  destruct (fetchAll env rest) as [l |]; [| discriminate].
  injection Hf as <-.
  apply elem_of_cons in Hin as [-> | Hin].
  - exists r. apply elem_of_cons. left.
    unfold resourceRequest, href. cbn [url origin pathname search].
    by rewrite !append_empty.
  - destruct (IH l eq_refl Hin) as [r' Hr']. exists r'.
    apply elem_of_cons. by right.
Qed.

Lemma fetchAll_Some env paths :
  (forall path, path ∈ paths ->
     exists r, network env (resourceRequest env path) = Some r /\ ok r = true) ->
  is_Some (fetchAll env paths).
Proof.
  induction paths as [| p rest IH]; intros Hall; [by eexists |].
  cbn [fetchAll].
  destruct (Hall p) as (r & -> & ->); [apply elem_of_cons; by left |].
  destruct IH as [l ->]; [| by eexists].
  intros path Hp. apply Hall, elem_of_cons. by right.
Qed.

(** After an install in which every resource was fetched, each resource is
    in the static cache under its URL. *)
Lemma onInstall_cached env caches path :
  (forall p, p ∈ STATIC_RESOURCES ->
     exists r, network env (resourceRequest env p) = Some r /\ ok r = true) ->
  putSucceeds env = true ->
  path ∈ STATIC_RESOURCES ->
  is_Some (JsMap.get (opened (onInstall env caches) STATIC_CACHE)
             (scope env +:+ path)).
Proof.
  intros Hnet Hput Hpath. unfold onInstall.
  destruct (fetchAll_Some env STATIC_RESOURCES Hnet) as [responses Hf].
  rewrite Hf, Hput. unfold opened at 1. rewrite get_set_eq. cbn [default].
  destruct (fetchAll_keys env STATIC_RESOURCES responses path Hf Hpath)
    as [r Hr].
  apply putAll_get. by apply (elem_of_map fst) in Hr.
Qed.

Lemma append_inj (prefix a b : string) : prefix +:+ a = prefix +:+ b -> a = b.
Proof.
  induction prefix as [| c p IH]; [auto |]. rewrite !append_cons.
  intros H. injection H as H. by apply IH.
Qed.

(** A key that no cache holds is found in the cache that is set. *)
Lemma matchAll_set_miss (caches : JsMap.t (JsMap.t Response)) name cache key :
  matchAll caches key = None ->
  matchAll (JsMap.set caches name cache) key = JsMap.get cache key.
Proof.
  induction caches as [| [n c] rest IH]; cbn.
  - intros _. by destruct (JsMap.get cache key).
  - destruct (JsMap.get c key) eqn:E; [discriminate |]. intros Hrest.
    destruct (decide (n = name)) as [-> | Hne]; cbn.
    + rewrite Hrest. by destruct (JsMap.get cache key).
    + rewrite E. by apply IH.
Qed.

Lemma putAll_keep (cache : JsMap.t Response) l key :
  key ∉ map fst l -> JsMap.get (putAll cache l) key = JsMap.get cache key.
Proof.
  unfold putAll. revert cache.
  induction l as [| [k v] rest IH]; intros cache Hout; [reflexivity |].
  cbn [fold_left fst snd]. rewrite IH.
  - apply get_set_ne. intros ->. apply Hout. cbn. apply elem_of_cons. by left.
  - intros Hin. apply Hout. cbn. apply elem_of_cons. by right.
Qed.

Lemma putAll_cons (cache : JsMap.t Response) k v l :
  putAll cache ((k, v) :: l) = putAll (JsMap.set cache k v) l.
Proof. reflexivity. Qed.

Lemma fetchAll_fst env paths responses :
  fetchAll env paths = Some responses ->
  map fst responses = map (fun p => scope env +:+ p) paths.
Proof.
  revert responses. induction paths as [| p rest IH]; intros responses Hf;
    cbn [fetchAll] in Hf.
  - by injection Hf as <-.
  - destruct (network env (resourceRequest env p)) as [r |]; [| discriminate].
    destruct (ok r); [| discriminate].
    destruct (fetchAll env rest) as [l |]; [| discriminate].
    injection Hf as <-. cbn [map fst]. rewrite (IH l eq_refl).
    unfold resourceRequest, href. cbn [url origin pathname search].
    by rewrite !append_empty.
Qed.

(** What the static cache holds for a resource after cache.addAll: the
    response of its fetch. *)
Lemma fetchAll_get env paths responses cache path r :
  fetchAll env paths = Some responses -> NoDup paths -> path ∈ paths ->
  network env (resourceRequest env path) = Some r ->
  JsMap.get (putAll cache responses) (scope env +:+ path) = Some r.
Proof.
  revert responses cache.
  induction paths as [| p rest IH]; intros responses cache Hf Hnd Hin Hnet;
    [by apply elem_of_nil in Hin |].
  cbn [fetchAll] in Hf.
  destruct (network env (resourceRequest env p)) as [rp |] eqn:Hp;
    [| discriminate].
  destruct (ok rp); [| discriminate].
  destruct (fetchAll env rest) as [l |] eqn:Hl; [| discriminate].
  injection Hf as <-. apply NoDup_cons in Hnd as [Hfresh Hnd].
  rewrite putAll_cons.
  apply elem_of_cons in Hin as [-> | Hin].
  - rewrite putAll_keep.
    + unfold resourceRequest, href. cbn [url origin pathname search].
      rewrite !append_empty, get_set_eq. congruence.
    + rewrite (fetchAll_fst env rest l Hl). intros Hin.
      apply elem_of_map_inv in Hin as (p' & Heq & Hp').
      apply append_inj in Heq. by subst p'.
  - by apply IH.
Qed.

Lemma STATIC_RESOURCES_NoDup : NoDup STATIC_RESOURCES.
Proof. apply (bool_decide_unpack _). vm_compute. exact I. Qed.

(** After an install in which every resource was fetched, the static cache
    holds for each resource the response of its fetch. *)
Lemma onInstall_holds env caches path r :
  (forall p, p ∈ STATIC_RESOURCES ->
     exists r, network env (resourceRequest env p) = Some r /\ ok r = true) ->
  putSucceeds env = true ->
  path ∈ STATIC_RESOURCES ->
  network env (resourceRequest env path) = Some r ->
  JsMap.get (opened (onInstall env caches) STATIC_CACHE) (scope env +:+ path)
  = Some r.
Proof.
  intros Hnet Hput Hpath Hr. unfold onInstall.
  destruct (fetchAll_Some env STATIC_RESOURCES Hnet) as [responses Hf].
  rewrite Hf, Hput. unfold opened at 1. rewrite get_set_eq. cbn [default].
  by apply (fetchAll_get env STATIC_RESOURCES);
    [| apply STATIC_RESOURCES_NoDup | |].
Qed.

(** The install touches the static cache only. *)
Lemma onInstall_matchAll_miss env caches key :
  matchAll caches key = None ->
  matchAll (onInstall env caches) key
  = JsMap.get (opened (onInstall env caches) STATIC_CACHE) key.
Proof.
  intros Hmiss. unfold onInstall.
  assert (Hopen : matchAll (JsMap.set caches STATIC_CACHE
                              (opened caches STATIC_CACHE)) key = None)
    by (by rewrite matchAll_open).
  assert (Hset : forall (cs : JsMap.t (JsMap.t Response)) cache,
            matchAll cs key = None ->
            matchAll (JsMap.set cs STATIC_CACHE cache) key
            = JsMap.get (opened (JsMap.set cs STATIC_CACHE cache) STATIC_CACHE)
                key).
  { intros cs cache Hcs. rewrite (matchAll_set_miss _ _ _ _ Hcs).
    unfold opened. by rewrite get_set_eq. }
  destruct (fetchAll env STATIC_RESOURCES) as [responses |].
  - destruct (putSucceeds env).
    + by apply Hset.
    + by apply Hset.
  - by apply Hset.
Qed.

End WorkerLife.

Section WorkerTheorems.
Import ServiceWorker ServiceWorkerLife.

Lemma fetchAll_None env paths :
  (exists path, path ∈ paths
     /\ forall r, network env (resourceRequest env path) = Some r -> ok r = false) ->
  fetchAll env paths = None.
Proof.
  intros (path & Hin & Hbad).
  induction paths as [| p rest IH]; [by apply elem_of_nil in Hin |].
  cbn [fetchAll]. apply elem_of_cons in Hin as [<- | Hin].
  - destruct (network env (resourceRequest env path)) as [r |]; [| reflexivity].
    by rewrite (Hbad r eq_refl).
  - destruct (network env (resourceRequest env p)) as [r |]; [| reflexivity].
    destruct (ok r); [| reflexivity]. by rewrite (IH Hin).
Qed.

(** X14.  An install in which every static resource is fetched with an ok
    response and stored.  From then on, whatever the network does, a GET of
    a static resource is answered without a fetch, with the response that
    the caches hold for its URL; so is a GET of one of the audio files with
    any query string, with the response of the caches for the URL or else
    the one of the static cache for the path.  A request outside the audio
    paths whose URL contains .html and is not cached, made while the network
    is down, is answered with what the caches hold for /index.html, which
    is there: when no cache held it before the install, the response that
    the install fetched for it. *)
Theorem install_serves_offline env caches later path query page :
  (forall p, p ∈ STATIC_RESOURCES ->
     exists r, network env (resourceRequest env p) = Some r /\ ok r = true) ->
  putSucceeds env = true ->
  scope later = scope env ->
  path ∈ STATIC_RESOURCES ->
  let caches' := onInstall env caches in
  let plain := resourceRequest env path in
  let versioned :=
    {| method := "GET";
       url := {| origin := scope env; pathname := path; search := query |} |} in
  let index := scope env +:+ "/index.html" in
  (handles plain ->
   fetches (onFetch later caches' plain) = 0%nat
   /\ is_Some (matchAll caches' (href (url plain)))
   /\ handled (onFetch later caches' plain)
      = RespondWith (matchAll caches' (href (url plain))))
  /\ (handles versioned -> Js.includes path "/audio/" = true ->
      fetches (onFetch later caches' versioned) = 0%nat
      /\ exists r,
           handled (onFetch later caches' versioned) = RespondWith (Some r)
           /\ (matchAll caches' (href (url versioned)) = Some r
               \/ matchAll caches' (href (url versioned)) = None
                  /\ JsMap.get (opened caches' STATIC_CACHE)
                       (scope env +:+ path) = Some r))
  /\ (handles page -> isAudioFile page = false ->
      Js.includes (href (url page)) ".html" = true ->
      matchAll caches' (href (url page)) = None ->
      network later page = None ->
      handled (onFetch later caches' page) = RespondWith (matchAll caches' index)
      /\ is_Some (matchAll caches' index)
      /\ forall r,
           matchAll caches index = None ->
           network env (resourceRequest env "/index.html") = Some r ->
           matchAll caches' index = Some r).
Proof.
  intros Hnet Hput Hscope Hpath caches' plain versioned index.
  assert (Hcached : forall p, p ∈ STATIC_RESOURCES ->
            is_Some (JsMap.get (opened caches' STATIC_CACHE) (scope env +:+ p)))
    by (intros p Hp; by apply onInstall_cached).
  split; [| split].
  - intros Hh. destruct (Hcached path Hpath) as [r0 Hr0].
    destruct (matchAll_opened caches' STATIC_CACHE _ r0 Hr0) as [r Hr].
    assert (Hkey : href (url plain) = scope env +:+ path).
    { unfold plain, resourceRequest, href. cbn [url origin pathname search].
      by rewrite !append_empty. }
    rewrite <- Hkey in Hr.
    rewrite (onFetch_hit later caches' plain r Hh Hr), Hr.
    split; [reflexivity |]. split; [by exists r | reflexivity].
  - intros Hh Haudio.
    destruct (matchAll caches' (href (url versioned))) as [r |] eqn:Hfull.
    + rewrite (onFetch_hit later caches' versioned r Hh Hfull).
      split; [reflexivity |]. exists r. split; [reflexivity | by left].
    + destruct (Hcached path Hpath) as [r Hr].
      pose proof Hr as Hr'. rewrite <- Hscope in Hr'.
      destruct (onFetch_path_hit later caches' versioned r Hh Hfull Haudio Hr')
        as (Hhandled & Hzero & _).
      split; [exact Hzero |]. exists r. split; [exact Hhandled |].
      right. by split.
  - intros Hh Hnot Hhtml Hmiss Hdown.
    assert (Hm : fullMiss later caches' page).
    { split; [exact Hmiss |]. rewrite Hnot. discriminate. }
    destruct (onFetch_offline later caches' page Hh Hm Hdown) as (_ & Hhandled).
    rewrite Hnot, Hhtml, Hscope in Hhandled.
    assert (Hidx : "/index.html" ∈ STATIC_RESOURCES).
    { unfold STATIC_RESOURCES. apply elem_of_cons. right. apply elem_of_cons.
      by left. }
    split; [exact Hhandled |]. split.
    + destruct (Hcached _ Hidx) as [r0 Hr0].
      by apply (matchAll_opened caches' STATIC_CACHE _ r0).
    + intros r Hfresh Hr. unfold caches', index.
      rewrite onInstall_matchAll_miss by exact Hfresh.
      by apply onInstall_holds.
Qed.

Lemma install_serves_offline_witness :
  fetches (onFetch offline (onInstall online [])
             {| method := "GET";
                url := {| origin := pianoOrigin;
                          pathname := "/audio/f4-b5/a07.mp3";
                          search := "?v=3" |} |}) = 0%nat.
Proof.
  destruct (install_serves_offline online [] offline
              "/audio/f4-b5/a07.mp3" "?v=3" scorePage) as (_ & Haudio & _).
  - intros p _. exists indexPage. split; reflexivity.
  - reflexivity.
  - reflexivity.
  - apply (bool_decide_unpack _). vm_compute. exact I.
  - destruct Haudio as [Hzero _].
    + repeat split; reflexivity.
    + reflexivity.
    + exact Hzero.
Defined.

(** X15.  cache.addAll is all or nothing, and the listener swallows its failure:
    when one static resource cannot be fetched with an ok response, or the
    store fails, the install ends with no response added to any cache. *)
Theorem install_failure_stores_nothing env caches key :
  (exists path, path ∈ STATIC_RESOURCES
     /\ forall r, network env (resourceRequest env path) = Some r -> ok r = false)
  \/ putSucceeds env = false ->
  matchAll (onInstall env caches) key = matchAll caches key.
Proof.
  intros Hfail. unfold onInstall.
  destruct Hfail as [Hbad | Hput].
  - rewrite (fetchAll_None env STATIC_RESOURCES Hbad). apply matchAll_open.
  - rewrite Hput. destruct (fetchAll env STATIC_RESOURCES); apply matchAll_open.
Qed.

Lemma install_failure_stores_nothing_witness :
  matchAll (onInstall offline installed) (pianoOrigin +:+ "/js/main.js") = None.
Proof.
  rewrite (install_failure_stores_nothing offline installed
             (pianoOrigin +:+ "/js/main.js")).
  - reflexivity.
  - left. exists "/". split; [apply elem_of_cons; by left | discriminate].
Defined.

(** A cache of the current version. *)
Definition current (name : string) : Prop :=
  ~ (name <> STATIC_CACHE /\ name <> CACHE_NAME).

Lemma current_spec name :
  current name <-> name = STATIC_CACHE \/ name = CACHE_NAME.
Proof.
  unfold current. split.
  - intros Hk. destruct (decide (name = STATIC_CACHE)); [by left |].
    destruct (decide (name = CACHE_NAME)); [by right |].
    exfalso. apply Hk. by split.
  - intros [-> | ->] [H1 H2]; contradiction.
Qed.

Lemma onActivate_cons n c rest :
  onActivate ((n, c) :: rest)
  = if decide (current n) then (n, c) :: onActivate rest else onActivate rest.
Proof. unfold onActivate, current. rewrite filter_cons. reflexivity. Qed.

Lemma onActivate_get caches name :
  current name -> JsMap.get (onActivate caches) name = JsMap.get caches name.
Proof.
  intros Hname. induction caches as [| [n c] rest IH]; [reflexivity |].
  rewrite onActivate_cons. cbn [JsMap.get].
  destruct (decide (current n)) as [Hk | Hd].
  - cbn [JsMap.get]. destruct (decide (n = name)); [reflexivity | exact IH].
  - destruct (decide (n = name)) as [-> | _]; [contradiction | exact IH].
Qed.

Lemma onActivate_miss caches key :
  (forall name cache, (name, cache) ∈ caches -> current name ->
     JsMap.get cache key = None) ->
  matchAll (onActivate caches) key = None.
Proof.
  induction caches as [| [n c] rest IH]; intros Hnone; [reflexivity |].
  assert (Hrest : forall name cache, (name, cache) ∈ rest -> current name ->
            JsMap.get cache key = None).
  { intros name cache Hin. apply Hnone, elem_of_cons. by right. }
  rewrite onActivate_cons. destruct (decide (current n)) as [Hk | Hd].
  - cbn [matchAll]. rewrite (Hnone n c); [by apply IH | | exact Hk].
    apply elem_of_cons. by left.
  - by apply IH.
Qed.

Lemma onActivate_twice caches : onActivate (onActivate caches) = onActivate caches.
Proof.
  induction caches as [| [n c] rest IH]; [reflexivity |].
  rewrite onActivate_cons. destruct (decide (current n)) as [Hk | Hd];
    [| exact IH].
  rewrite onActivate_cons. destruct (decide (current n)); [| contradiction].
  by rewrite IH.
Qed.

(** X16.  The activate listener keeps the two caches of the current version, with
    what they hold, and deletes every other cache.  A response of the static
    cache is still found afterwards; one that only a deleted cache held is
    not.  A second activation changes nothing. *)
Theorem activate_keeps_current_caches caches key :
  let caches' := onActivate caches in
  (forall name, name ∈ JsMap.keys caches' ->
     name = STATIC_CACHE \/ name = CACHE_NAME)
  /\ JsMap.get caches' STATIC_CACHE = JsMap.get caches STATIC_CACHE
  /\ JsMap.get caches' CACHE_NAME = JsMap.get caches CACHE_NAME
  /\ (is_Some (JsMap.get (opened caches STATIC_CACHE) key) ->
      is_Some (matchAll caches' key))
  /\ ((forall name cache, (name, cache) ∈ caches ->
         name = STATIC_CACHE \/ name = CACHE_NAME -> JsMap.get cache key = None) ->
      matchAll caches' key = None)
  /\ onActivate caches' = caches'.
Proof.
  intros caches'. subst caches'.
  split; [| split; [| split; [| split; [| split]]]].
  - intros name Hin. apply elem_of_map_inv in Hin as ([n c] & -> & He).
    apply list_elem_of_filter in He as [Hk _]. by apply current_spec.
  - apply onActivate_get, current_spec. by left.
  - apply onActivate_get, current_spec. by right.
  - intros [r Hr]. apply (matchAll_opened _ STATIC_CACHE key r).
    unfold opened in *.
    rewrite onActivate_get by (apply current_spec; by left). exact Hr.
  - intros Hnone. apply onActivate_miss. intros name cache Hin Hk.
    apply (Hnone name cache Hin). by apply current_spec.
  - apply onActivate_twice.
Qed.

End WorkerTheorems.


(** ** The playlist of the background music *)

Section Playlist.
Import MusicPlayer.

Lemma rem_next i n :
  0 <= i < n -> Z.rem (i + 1) n = if i + 1 =? n then 0 else i + 1.
Proof.
  intros Hi. rewrite Z.rem_mod_nonneg by lia.
  destruct (Z.eqb_spec (i + 1) n) as [E | E].
  - rewrite E. apply Z_mod_same_full.
  - apply Z.mod_small. lia.
Qed.

Lemma rem_previous i n :
  0 <= i < n -> Z.rem (i - 1 + n) n = if i =? 0 then n - 1 else i - 1.
Proof.
  intros Hi. rewrite Z.rem_mod_nonneg by lia.
  destruct (Z.eqb_spec i 0) as [E | E].
  - subst i. replace (0 - 1 + n) with (n - 1) by lia. apply Z.mod_small. lia.
  - replace (i - 1 + n) with (i - 1 + 1 * n) by lia.
    rewrite Z.mod_add by lia. apply Z.mod_small. lia.
Qed.

Lemma at_inside l i :
  0 <= i < Z.of_nat (length l) -> exists track, at_ l i = Some track
    /\ l !! Z.to_nat i = Some track.
Proof.
  intros Hi. unfold at_. destruct (Z.ltb_spec i 0); [lia |].
  destruct (l !! Z.to_nat i) as [track |] eqn:E; [by exists track |].
  apply lookup_ge_None in E. lia.
Qed.

(** Loading and showing the track of an index of the playlist. *)
Lemma load_shows p :
  0 <= currentTrackIndex p < length_ p ->
  exists loaded p',
    loadCurrentTrack p = Some loaded /\ updateTrackInfo loaded = Some p'
    /\ shows p'
    /\ playlist p' = playlist p
    /\ currentTrackIndex p' = currentTrackIndex p
    /\ isPlaying p' = isPlaying p
    /\ plays p' = plays p.
Proof.
  intros Hi. destruct (at_inside (playlist p) (currentTrackIndex p) Hi)
    as (track & Hat & Hlook).
  unfold loadCurrentTrack. rewrite Hat.
  eexists. eexists. split; [reflexivity |].
  unfold updateTrackInfo. cbn [playlist currentTrackIndex]. rewrite Hat.
  split; [reflexivity |].
  split; [| repeat split].
  split; [exact Hi |]. exists track. cbn. auto.
Qed.

Lemma play_shows p :
  shows p -> exists p', play p = Some p' /\ shows p'
    /\ playlist p' = playlist p
    /\ currentTrackIndex p' = currentTrackIndex p.
Proof.
  intros (Hi & track & Hlook & Hsrc & Ht & Ha). unfold play. rewrite Hsrc.
  eexists. split; [reflexivity |]. split; [| split; reflexivity].
  split; [exact Hi |]. exists track. cbn. auto.
Qed.

Lemma resume_shows p :
  shows p -> exists p', resume p = Some p' /\ shows p'
    /\ playlist p' = playlist p
    /\ currentTrackIndex p' = currentTrackIndex p.
Proof.
  intros Hs. unfold resume. destruct (isPlaying p); [by apply play_shows |].
  by exists p.
Qed.

(** A move to an index of the playlist. *)
Lemma move_shows p index :
  0 <= index < length_ p ->
  exists p',
    moveTo index p = Some p'
    /\ shows p' /\ playlist p' = playlist p /\ currentTrackIndex p' = index.
Proof.
  intros Hi. destruct (load_shows (withIndex index p))
    as (loaded & p1 & E & E1 & Hs & Hl & Hx & _).
  { exact Hi. }
  unfold moveTo. rewrite E, E1.
  destruct (resume_shows p1 Hs) as (p2 & E2 & Hs2 & Hl2 & Hx2).
  exists p2. split; [exact E2 |]. split; [exact Hs2 |].
  split; [by rewrite Hl2, Hl | by rewrite Hx2, Hx].
Qed.

Lemma next_shows p :
  shows p -> exists p', playNext p = Some p' /\ shows p'
    /\ playlist p' = playlist p
    /\ currentTrackIndex p' = Z.rem (currentTrackIndex p + 1) (length_ p).
Proof.
  intros [Hi _]. apply move_shows.
  rewrite Z.rem_mod_nonneg by lia. apply Z.mod_pos_bound. lia.
Qed.

Lemma previous_shows p :
  shows p -> exists p', playPrevious p = Some p' /\ shows p'
    /\ playlist p' = playlist p
    /\ currentTrackIndex p'
       = Z.rem (currentTrackIndex p - 1 + length_ p) (length_ p).
Proof.
  intros [Hi _]. apply move_shows.
  rewrite Z.rem_mod_nonneg by lia. apply Z.mod_pos_bound. lia.
Qed.

Lemma press_shows b p :
  shows p -> exists p', press b p = Some p' /\ shows p'
                        /\ playlist p' = playlist p.
Proof.
  intros Hs. destruct b; cbn [press].
  - destruct (next_shows p Hs) as (p' & E & Hs' & Hl & _). by exists p'.
  - destruct (previous_shows p Hs) as (p' & E & Hs' & Hl & _). by exists p'.
  - unfold togglePlayPause. destruct (isPlaying p).
    + eexists. split; [reflexivity |]. split; [exact Hs | reflexivity].
    + destruct (play_shows p Hs) as (p' & E & Hs' & Hl & _). by exists p'.
  - eexists. split; [reflexivity |]. split; [exact Hs | reflexivity].
Qed.

Lemma run_shows buttons p :
  shows p -> exists p', run buttons p = Some p' /\ shows p'
                        /\ playlist p' = playlist p.
Proof.
  revert p. induction buttons as [| b rest IH]; intros p Hs.
  - exists p. auto.
  - cbn [run]. destruct (press_shows b p Hs) as (p1 & -> & Hs1 & Hl1).
    destruct (IH p1 Hs1) as (p2 & Hr & Hs2 & Hl2).
    exists p2. split; [exact Hr |]. split; [exact Hs2 | congruence].
Qed.

(** X17.  On a playlist that is not empty, after init() and any presses of the
    buttons: no press fails; the index stays one of the playlist and the
    panel and the audio element show that track; next moves one track on and
    wraps from the last to the first, previous moves one track back and
    wraps from the first to the last; and previous after next, as next after
    previous, comes back to the same track. *)
Theorem playlist_navigation_wraps l buttons :
  l <> [] ->
  exists p0 p,
    initial l = Some p0 /\ run buttons p0 = Some p
    /\ shows p /\ playlist p = l
    /\ exists next previous back forth,
         playNext p = Some next /\ playPrevious p = Some previous
         /\ currentTrackIndex next
            = (if currentTrackIndex p + 1 =? Z.of_nat (length l) then 0
               else currentTrackIndex p + 1)
         /\ currentTrackIndex previous
            = (if currentTrackIndex p =? 0 then Z.of_nat (length l) - 1
               else currentTrackIndex p - 1)
         /\ playPrevious next = Some back
         /\ playNext previous = Some forth
         /\ currentTrackIndex back = currentTrackIndex p
         /\ currentTrackIndex forth = currentTrackIndex p
         /\ src back = src p /\ src forth = src p.
Proof.
  intros Hne.
  assert (Hlen : 0 < Z.of_nat (length l)) by (destruct l; [done | cbn; lia]).
  destruct (load_shows
              {| playlist := l; currentTrackIndex := 0; isPlaying := false;
                 src := None; shownTitle := None; shownArtist := None;
                 plays := 0 |})
    as (loaded & p0 & Hload & Hshow & Hs0 & Hl0 & _).
  { cbn. unfold length_. cbn. lia. }
  assert (Hinit : initial l = Some p0) by (unfold initial; by rewrite Hload).
  destruct (run_shows buttons p0 Hs0) as (p & Hrun & Hs & Hl).
  exists p0, p. split; [exact Hinit |]. split; [exact Hrun |].
  split; [exact Hs |]. cbn in Hl0. split; [congruence |].
  assert (Hpl : playlist p = l) by congruence.
  destruct (next_shows p Hs) as (next & Hnext & Hsn & Hln & Hn).
  destruct (previous_shows p Hs) as (previous & Hprev & Hsp & Hlp & Hp).
  destruct (previous_shows next Hsn) as (back & Hback & Hsb & Hlb & Hb).
  destruct (next_shows previous Hsp) as (forth & Hforth & Hsf & Hlf & Hf).
  exists next, previous, back, forth.
  assert (Hlenp : length_ p = Z.of_nat (length l)) by (unfold length_; by rewrite Hpl).
  assert (Hlenn : length_ next = Z.of_nat (length l))
    by (unfold length_; by rewrite Hln, Hpl).
  assert (Hlenv : length_ previous = Z.of_nat (length l))
    by (unfold length_; by rewrite Hlp, Hpl).
  pose proof Hs as (Hi & tp & Htp & Hsrcp & _). rewrite Hlenp in Hi.
  rewrite Hlenp in Hn, Hp. rewrite Hlenn in Hb. rewrite Hlenv in Hf.
  rewrite rem_next in Hn by lia. rewrite rem_previous in Hp by lia.
  assert (Hnr : 0 <= currentTrackIndex next < Z.of_nat (length l)).
  { rewrite Hn.
    destruct (Z.eqb_spec (currentTrackIndex p + 1) (Z.of_nat (length l))); lia. }
  assert (Hpr : 0 <= currentTrackIndex previous < Z.of_nat (length l)).
  { rewrite Hp. destruct (Z.eqb_spec (currentTrackIndex p) 0); lia. }
  rewrite rem_previous in Hb by exact Hnr. rewrite rem_next in Hf by exact Hpr.
  assert (Hb' : currentTrackIndex back = currentTrackIndex p).
  { rewrite Hb, Hn.
    destruct (Z.eqb_spec (currentTrackIndex p + 1) (Z.of_nat (length l)));
      [rewrite Z.eqb_refl; lia |].
    destruct (Z.eqb_spec (currentTrackIndex p + 1) 0); lia. }
  assert (Hf' : currentTrackIndex forth = currentTrackIndex p).
  { rewrite Hf, Hp.
    destruct (Z.eqb_spec (currentTrackIndex p) 0) as [E | E].
    - replace (Z.of_nat (length l) - 1 + 1) with (Z.of_nat (length l)) by lia.
      rewrite Z.eqb_refl. lia.
    - destruct (Z.eqb_spec (currentTrackIndex p - 1 + 1) (Z.of_nat (length l)));
        lia. }
  assert (Hsrc : forall q, shows q -> playlist q = l ->
            currentTrackIndex q = currentTrackIndex p -> src q = src p).
  { intros q (_ & tq & Htq & Hsq & _) Hlq Hiq.
    rewrite Hsq, Hsrcp. rewrite Hlq, Hiq in Htq. rewrite Hpl in Htp.
    congruence. }
  split; [exact Hnext |]. split; [exact Hprev |]. split; [exact Hn |].
  split; [exact Hp |]. split; [exact Hback |]. split; [exact Hforth |].
  split; [exact Hb' |]. split; [exact Hf' |]. split.
  - apply Hsrc; [exact Hsb | congruence | exact Hb'].
  - apply Hsrc; [exact Hsf | congruence | exact Hf'].
Qed.

Lemma playlist_navigation_wraps_witness :
  exists p, initial tracks ≫= run [Toggle; Started; Next; Next; Previous] = Some p
            /\ currentTrackIndex p = 1.
Proof.
  destruct (playlist_navigation_wraps tracks [Toggle; Started; Next; Next; Previous])
    as (p0 & p & Hinit & Hrun & _); [discriminate |].
  exists p. rewrite Hinit. cbn [mbind option_bind]. split; [exact Hrun |].
  vm_compute in Hinit. injection Hinit as <-.
  vm_compute in Hrun. injection Hrun as <-. reflexivity.
Defined.

End Playlist.


(** ** The keyboard tables *)

Section KeyboardTables.
Import Keyboard.

Lemma indexOf_None l x : x ∉ l -> indexOf l x = None.
Proof.
  induction l as [| y rest IH]; intros Hx; [reflexivity |].
  apply not_elem_of_cons in Hx as [Hne Hx]. cbn [indexOf].
  destruct (decide (y = x)); [congruence |]. by rewrite IH.
Qed.

(** X18.  The tables of PianoManager agree with the notes of audio-config.js.
    For a black key n of NOTES, findAdjacentWhiteKeys gives the keys n - 1
    and n + 1, both white; for a white key, as for any name that is no black
    key and no member of Object.prototype, it gives the empty array.  The
    white keys of NOTES, in order, are the order of getNextWhiteKey, which
    maps each white key to the one after it and the last to itself; a name
    that is no white key is mapped to the first white key, not to itself. *)
Theorem keyboard_tables_agree :
  (forall name, (name, black) ∈ NOTES ->
     let n := default 0 (Js.parseInt name) in
     findAdjacentWhiteKeys name
       = Keys [Js.toString (n - 1); Js.toString (n + 1)]
     /\ keyType (Js.toString (n - 1)) = Some white
     /\ keyType (Js.toString (n + 1)) = Some white)
  /\ (forall name, (name, black) ∉ NOTES -> Js.inherited name = false ->
        findAdjacentWhiteKeys name = Keys [])
  /\ map fst (List.filter (fun e => bool_decide (snd e = white)) NOTES)
     = noteOrder
  /\ (forall i w, noteOrder !! i = Some w ->
        getNextWhiteKey w = default w (noteOrder !! S i))
  /\ (forall name, name ∉ noteOrder -> getNextWhiteKey name = "1").
Proof.
  split; [| split; [| split; [| split]]].
  - intros name Hin. unfold NOTES in Hin.
    repeat (apply elem_of_cons in Hin as [Heq | Hin];
            [first [ discriminate Heq
                   | injection Heq as ->; vm_compute; auto ] |]).
    by apply elem_of_nil in Hin.
  - intros name Hblack Hplain. unfold findAdjacentWhiteKeys, Js.getProperty.
    rewrite Hplain.
    destruct (noteMap !! name) as [l |] eqn:E; [| reflexivity].
    exfalso. apply Hblack. unfold noteMap in E.
    repeat (cbn [list_to_map foldr uncurry fst snd] in E;
            rewrite lookup_insert in E;
            destruct (decide (_ = name)) as [<- | _];
            [apply (bool_decide_unpack _); vm_compute; exact I |]).
    cbn in E. rewrite lookup_empty in E. discriminate.
  - reflexivity.
  - intros i w Hw. unfold noteOrder in Hw.
    do 11 (destruct i as [| i]; [injection Hw as <-; reflexivity |]).
    discriminate.
  - intros name Hout. unfold getNextWhiteKey.
    rewrite (indexOf_None _ _ Hout). reflexivity.
Qed.

(** X19.  For each note 1 to 19, the path that the fallback manager builds from
    the number of the note is the file that NOTES_MAP names for it; a note
    that parseInt does not read gives the file aNaN.mp3. *)
Theorem fallback_path_matches_notes_map (k : Z) note :
  (1 <= k <= 19 ->
   AudioConfig.file <$> (AudioConfig.NOTES_MAP !! Js.toString k)
   = Some (FallbackAudioManager.audioFilePath (Js.toString k)))
  /\ (Js.parseInt note = None ->
      FallbackAudioManager.audioFilePath note
      = "https://cdn.jsdelivr.net/gh/bruce-peng24/qingsongpiano@main/audio/f4-b5/aNaN.mp3").
Proof.
  split.
  - intros Hk.
    assert (H : k = 1 \/ k = 2 \/ k = 3 \/ k = 4 \/ k = 5 \/ k = 6 \/ k = 7 \/
                k = 8 \/ k = 9 \/ k = 10 \/ k = 11 \/ k = 12 \/ k = 13 \/
                k = 14 \/ k = 15 \/ k = 16 \/ k = 17 \/ k = 18 \/ k = 19) by lia.
    clear Hk.
    repeat (destruct H as [-> | H]; [vm_compute; reflexivity |]).
    subst k. vm_compute. reflexivity.
  - intros Hnone. unfold FallbackAudioManager.audioFilePath. rewrite Hnone.
    reflexivity.
Qed.

End KeyboardTables.


(** ** The core manager: timbres and the route of playNote *)

Section Core.
Import Browser AudioSchemes CoreManager.

Lemma onCore_keeps {A} o (m : Run.M Oscillator.Heap A) s :
  AudioPlaybackController.controller (snd (onCore o m s))
  = AudioPlaybackController.controller s
  /\ AudioPlaybackController.registry (snd (onCore o m s))
     = AudioPlaybackController.registry s.
Proof. unfold onCore. destruct (m _) as [a h]. split; reflexivity. Qed.

Lemma onCore_result {A} o (m : Run.M Oscillator.Heap A) s :
  fst (onCore o m s)
  = fst (m {| Oscillator.this := o;
              Oscillator.audioContext :=
                AudioPlayer.context (AudioPlaybackController.audioPlayer s) |}).
Proof. unfold onCore. destruct (m _) as [a h]. reflexivity. Qed.

(** X20.  The route of playNote in the core manager.  A manager that is not
    ready, or has no audio context, answers null and changes nothing,
    whatever its timbre.  With the timbre 'oscillator' the note goes to the
    'audio-core' oscillator, at the volume of the manager, and the answer is
    the one of that oscillator's playNote; the playback controller is not
    asked: no trigger time is read or recorded and the registry of the
    player is not touched, so the note is not debounced.  With another
    timbre and the player made, the call is the controller's playNote with
    the engine 'audioFile' on the note map of the manager; with the context
    made and the player not, it answers null. *)
Theorem core_playNote_routes host env noteName velocity c :
  (isReady c = false \/ system c = None ->
   playNote host env noteName velocity c = (None, c))
  /\ (forall s,
        isReady c = true -> currentTimbre c = "oscillator" ->
        system c = Some s ->
        let r := playNote host env noteName velocity c in
        fst r
        = fst (Oscillator.playNote host env noteName velocity
                 Oscillator.noOptions
                 {| Oscillator.this := coreOscillator c s;
                    Oscillator.audioContext :=
                      AudioPlayer.context
                        (AudioPlaybackController.audioPlayer s) |})
        /\ exists s',
             system (snd r) = Some s'
             /\ AudioPlaybackController.controller s'
                = AudioPlaybackController.controller s
             /\ AudioPlaybackController.registry s'
                = AudioPlaybackController.registry s)
  /\ (forall s,
        isReady c = true -> currentTimbre c <> "oscillator" ->
        system c = Some s ->
        playNote host env noteName velocity c
        = if hasPlayer c
          then
            (fst (AudioPlaybackController.playNote host env noteName velocity
                    "audioFile" (synced c s)),
             withSystem
               (Some (snd (AudioPlaybackController.playNote host env noteName
                             velocity "audioFile" (synced c s)))) c)
          else (None, c)).
Proof.
  split; [| split].
  - intros [Hready | Hsys]; unfold playNote, playNoteWithOscillator.
    + rewrite Hready. reflexivity.
    + rewrite Hsys. destruct (negb (isReady c)); [reflexivity |].
      destruct (decide _); reflexivity.
  - intros s Hready Htimbre Hsys r. subst r.
    unfold playNote, playNoteWithOscillator. rewrite Hready, Hsys.
    cbn [negb]. destruct (decide (currentTimbre c = "oscillator"));
      [| contradiction].
    pose proof (onCore_keeps (coreOscillator c s)
                  (Oscillator.playNote host env noteName velocity
                     Oscillator.noOptions) s) as [Hc Hr].
    pose proof (onCore_result (coreOscillator c s)
                  (Oscillator.playNote host env noteName velocity
                     Oscillator.noOptions) s) as Hres.
    destruct (onCore _ _ s) as [a s']. cbn [fst snd] in *.
    split; [exact Hres |].
    exists s'. split; [reflexivity |]. split; [exact Hc | exact Hr].
  - intros s Hready Htimbre Hsys. unfold playNote. rewrite Hready, Hsys.
    cbn [negb]. destruct (decide (currentTimbre c = "oscillator"));
      [contradiction |].
    destruct (hasPlayer c); [| reflexivity].
    destruct (AudioPlaybackController.playNote _ _ _ _ _ _). reflexivity.
Qed.

(** The manager after ensureContext and setTimbre('oscillator'), and note 5
    played twice, 50 ms apart: both calls return an id. *)
Lemma core_playNote_routes_witness :
  let c := setTimbre "oscillator" (ensureContext new) in
  let first := playNote exampleHost firstPress "5" 0.7 c in
  let second := playNote exampleHost earlyPress "5" 0.7 (snd first) in
  fst first = Some "osc_5_1000_k3x9q2m1z"
  /\ fst second = Some "osc_5_1050_p0o9i8u7y".
Proof.
  intros c first second. split; [reflexivity |].
  destruct (proj1 (proj2 (core_playNote_routes exampleHost earlyPress "5" 0.7
                            (snd first)))
              (default (AudioPlaybackController.initial None)
                 (system (snd first))))
    as (Hfst & _).
  - reflexivity.
  - reflexivity.
  - vm_compute. reflexivity.
  - fold second in Hfst. rewrite Hfst. vm_compute. reflexivity.
Defined.

Lemma setTimbre_scheme timbre schemeId c :
  timbre = "audio" \/ timbre = "golden" -> timbre <> "oscillator" ->
  schemeId = (if decide (timbre = "golden") then "golden" else "popular") ->
  setTimbre timbre c
  = {| isReady := isReady c; volume := volume c; currentTimbre := timbre;
       schemes := snd (AudioManager.switchAudioScheme schemeId (schemes c));
       system := system c; hasPlayer := hasPlayer c;
       timbreChanged := timbreChanged c ++ [timbre] |}.
Proof.
  intros Hin Hosc ->. unfold setTimbre.
  rewrite bool_decide_eq_true_2
    by (rewrite !elem_of_cons; destruct Hin; auto).
  destruct (decide (timbre = "oscillator")); [contradiction |]. reflexivity.
Qed.

(** X21.  setTimbre takes 'audio', 'golden' and 'oscillator' and ignores any other
    name.  'audio' and 'golden' switch to the scheme 'popular' and 'golden':
    the note map is that of the scheme and the cache of decoded samples is
    empty; the scheme ids it passes are schemes, so the switch never fails.
    'oscillator' leaves the scheme and the note map as they are and, on an
    audio context, makes sure that the 'audio-core' oscillator exists, its
    volume set from the manager.  Each accepted call dispatches one
    timbreChanged event. *)
Theorem setTimbre_selects_scheme timbre c :
  (timbre <> "audio" -> timbre <> "golden" -> timbre <> "oscillator" ->
   setTimbre timbre c = c)
  /\ (let c' := setTimbre "audio" c in
      currentTimbre c' = "audio"
      /\ fst (AudioManager.switchAudioScheme "popular" (schemes c))
         = Resolved true
      /\ AudioManager.notesMap (schemes c') = Some (notesMap popular)
      /\ AudioManager.currentScheme (schemes c') = Some "popular"
      /\ AudioManager.cacheSize (schemes c') = 0%nat
      /\ timbreChanged c' = (timbreChanged c ++ ["audio"])%list)
  /\ (let c' := setTimbre "golden" c in
      currentTimbre c' = "golden"
      /\ fst (AudioManager.switchAudioScheme "golden" (schemes c))
         = Resolved true
      /\ AudioManager.notesMap (schemes c') = Some (notesMap golden)
      /\ AudioManager.currentScheme (schemes c') = Some "golden"
      /\ AudioManager.cacheSize (schemes c') = 0%nat
      /\ timbreChanged c' = (timbreChanged c ++ ["golden"])%list)
  /\ (let c' := setTimbre "oscillator" c in
      currentTimbre c' = "oscillator"
      /\ schemes c' = schemes c
      /\ timbreChanged c' = (timbreChanged c ++ ["oscillator"])%list
      /\ (system c = None -> system c' = None)
      /\ (forall s, system c = Some s ->
           exists s',
             system c' = Some s'
             /\ JsMap.get (AudioPlayer.oscillators
                             (AudioPlaybackController.audioPlayer s'))
                  "audio-core"
                = Some (coreOscillator c s)
             /\ AudioPlayer.context (AudioPlaybackController.audioPlayer s')
                = AudioPlayer.context (AudioPlaybackController.audioPlayer s)
             /\ AudioPlaybackController.controller s'
                = AudioPlaybackController.controller s
             /\ AudioPlaybackController.registry s'
                = AudioPlaybackController.registry s)).
Proof.
  split; [| split; [| split]].
  - intros H1 H2 H3. unfold setTimbre.
    rewrite bool_decide_eq_false_2; [reflexivity |].
    rewrite !elem_of_cons, elem_of_nil. tauto.
  - cbn zeta. rewrite (setTimbre_scheme "audio" "popular" c);
      [| by left | intros [=] | reflexivity].
    assert (Hown : audioSchemes !! "popular" = Some popular)
      by (vm_compute; reflexivity).
    destruct (switchAudioScheme_known "popular" popular (schemes c) Hown)
      as (H1 & H2 & H3 & H4).
    cbn [currentTimbre schemes timbreChanged].
    repeat split; (assumption || reflexivity).
  - cbn zeta. rewrite (setTimbre_scheme "golden" "golden" c);
      [| by right | intros [=] | reflexivity].
    assert (Hown : audioSchemes !! "golden" = Some golden)
      by (vm_compute; reflexivity).
    destruct (switchAudioScheme_known "golden" golden (schemes c) Hown)
      as (H1 & H2 & H3 & H4).
    cbn [currentTimbre schemes timbreChanged].
    repeat split; (assumption || reflexivity).
  - cbn zeta. unfold setTimbre.
    rewrite bool_decide_eq_true_2
      by (rewrite !elem_of_cons; right; right; by left).
    destruct (decide ("oscillator" = "oscillator")); [| contradiction].
    unfold preinitializeOscillator. cbn [system volume].
    destruct (system c) as [s |] eqn:E.
    + cbn. split; [reflexivity |]. split; [reflexivity |].
      split; [reflexivity |]. split; [discriminate |]. intros s0 [= <-].
      eexists. split; [reflexivity |]. cbn.
      split; [apply get_set_eq | auto].
    + cbn. split; [reflexivity |]. split; [reflexivity |].
      split; [reflexivity |]. split; [auto | discriminate].
Qed.

End Core.


(** ** Which instance stopOldestSource takes *)

Section OldestFirst.
Import Browser AudioPlayer.

(** The scan from an instance already chosen: it keeps it, or it moves to
    the first instance that is strictly older than it and than everything
    before. *)
Lemma oldest_scan entries id0 t0 :
  (oldest entries (Some id0) (Some t0) = Some id0
   /\ forall e, e ∈ entries -> t0 <= startTime (snd e))
  \/ exists pre id info post,
       entries = (pre ++ (id, info) :: post)%list
       /\ oldest entries (Some id0) (Some t0) = Some id
       /\ startTime info < t0
       /\ (forall e, e ∈ pre -> startTime info < startTime (snd e))
       /\ (forall e, e ∈ post -> startTime info <= startTime (snd e)).
Proof.
  revert id0 t0. induction entries as [| [k i] r IH]; intros id0 t0.
  - left. split; [reflexivity |]. intros e He. by apply elem_of_nil in He.
  - cbn [oldest]. destruct (Z.ltb_spec (startTime i) t0) as [Hlt | Hge].
    + right. destruct (IH k (startTime i)) as [[Hk Hall] |
        (pre & id & info & post & -> & Ho & Hlt' & Hpre & Hpost)].
      * exists [], k, i, r. split; [reflexivity |]. split; [exact Hk |].
        split; [exact Hlt |]. split; [| exact Hall].
        intros e He. by apply elem_of_nil in He.
      * exists ((k, i) :: pre), id, info, post.
        split; [reflexivity |]. split; [exact Ho |]. split; [lia |].
        split; [| exact Hpost].
        intros e He. apply elem_of_cons in He as [-> | He]; [exact Hlt' |].
        by apply Hpre.
    + destruct (IH id0 t0) as [[Hk Hall] |
        (pre & id & info & post & -> & Ho & Hlt' & Hpre & Hpost)].
      * left. split; [exact Hk |].
        intros e He. apply elem_of_cons in He as [-> | He]; [exact Hge |].
        by apply Hall.
      * right. exists ((k, i) :: pre), id, info, post.
        split; [reflexivity |]. split; [exact Ho |]. split; [exact Hlt' |].
        split; [| exact Hpost].
        intros e He. apply elem_of_cons in He as [-> | He]; [cbn; lia |].
        by apply Hpre.
Qed.

Lemma delete_middle (pre post : JsMap.t SourceInfo) id info :
  id ∉ JsMap.keys pre ->
  JsMap.delete (pre ++ (id, info) :: post) id = (pre ++ post)%list.
Proof.
  induction pre as [| [k v] pre IH]; intros Hid; cbn [app JsMap.delete].
  - destruct (decide (id = id)); [reflexivity | contradiction].
  - cbn [JsMap.keys map fst] in Hid. apply not_elem_of_cons in Hid as [Hne Hid].
    destruct (decide (k = id)); [congruence |]. f_equal. by apply IH.
Qed.

(** X22.  stopOldestSource() on the player in any state the system can reach.  On
    an empty registry it does nothing.  Otherwise it removes one instance:
    every instance registered before it started strictly later, and every
    instance registered after it started at the same time or later.  So
    among instances of the same start time, the one registered first goes.
    The rest of the registry keeps its order, and no call goes to the
    browser. *)
Theorem stopOldestSource_takes_first_oldest host notesMap events env :
  let w := AudioPlaybackController.audioPlayer
             (AudioPlaybackController.run host events
                (AudioPlaybackController.initial notesMap)) in
  let w' := snd (stopOldestSource env w) in
  (reg w = [] -> w' = w)
  /\ (reg w <> [] ->
      exists pre id info post,
        reg w = (pre ++ (id, info) :: post)%list
        /\ (forall e, e ∈ pre -> startTime info < startTime (snd e))
        /\ (forall e, e ∈ post -> startTime info <= startTime (snd e))
        /\ reg w' = (pre ++ post)%list)
  /\ context w' = context w.
Proof.
  intros w w'.
  assert (Hb : bounded (AudioPlaybackController.run host events
                          (AudioPlaybackController.initial notesMap)))
    by apply run_bounded, initial_bounded.
  destruct Hb as ((Hwf & Hne & Hel) & _ & _).
  change (AudioPlaybackController.registry _) with (reg w) in Hwf, Hne, Hel.
  assert (Hctx : context w' = context w).
  { subst w'. unfold stopOldestSource. unfold Run.bind at 1. unfold Run.gets at 1.
    destruct (Nat.eqb _ 0); [reflexivity |].
    destruct (oldest _ None None) as [id |]; [| reflexivity].
    destruct (decide (id = "")); [reflexivity |].
    rewrite (cleanupSource_element env id w Hel). reflexivity. }
  split; [| split; [| exact Hctx]].
  - intros Hempty. subst w'. unfold stopOldestSource.
    unfold Run.bind at 1. unfold Run.gets at 1.
    fold (reg w). rewrite Hempty. reflexivity.
  - intros Hfull. subst w'. rewrite stopOldestSource_reg.
    destruct (reg w) as [| [k i] r] eqn:E; [contradiction |].
    cbn [oldest].
    unfold JsMap.wf in Hwf. cbn [JsMap.keys map fst] in Hwf, Hne.
    apply NoDup_cons in Hwf as [Hk Hwf].
    destruct (oldest_scan r k (startTime i)) as [[-> Hall] |
      (pre & id & info & post & -> & -> & Hlt & Hpre & Hpost)].
    + destruct (decide (k = "")) as [-> | _].
      { exfalso. apply Hne, elem_of_cons. by left. }
      exists [], k, i, r. split; [reflexivity |].
      split; [intros e He; by apply elem_of_nil in He |].
      split; [exact Hall |].
      cbn [JsMap.delete]. destruct (decide (k = k)); [reflexivity | contradiction].
    + destruct (decide (id = "")) as [-> | _].
      { exfalso. apply Hne, elem_of_cons. right.
        rewrite map_app. apply elem_of_app. right. cbn. apply elem_of_cons.
        by left. }
      exists ((k, i) :: pre), id, info, post. split; [reflexivity |].
      split.
      { intros e He. apply elem_of_cons in He as [-> | He]; [exact Hlt |].
        by apply Hpre. }
      split; [exact Hpost |].
      change ((k, i) :: pre ++ (id, info) :: post)%list
        with (((k, i) :: pre) ++ (id, info) :: post)%list.
      apply delete_middle.
      cbn [JsMap.keys map fst]. rewrite map_app in Hk, Hwf.
      apply not_elem_of_cons. split.
      * intros ->. apply Hk. apply elem_of_app. right. cbn.
        apply elem_of_cons. by left.
      * apply NoDup_app in Hwf as (_ & Hdisj & _).
        intros Hin. apply (Hdisj id Hin). cbn. apply elem_of_cons. by left.
Qed.

End OldestFirst.


(** ** The loader: which files are fetched *)

Section Loader.
Import AudioLoader.

Lemma count_app x l1 l2 : count x (l1 ++ l2)%list = (count x l1 + count x l2)%nat.
Proof. unfold count. by rewrite List.filter_app, length_app. Qed.

(** A file that is neither loaded nor loading has used up its fetches. *)
Definition budget (filePath : string) (n : nat) (l : t) : Prop :=
  (count filePath (started l)
   + (if bool_decide (filePath ∈ loadedFiles l ∪ loadingPromises l) then 0 else 1)
   <= n + 1)%nat.

Lemma step_budget filePath e n l :
  budget filePath n l ->
  budget filePath (if resets filePath e then S n else n) (step e l).
Proof.
  unfold budget. intros Hb. destruct e as [f | f ok |]; cbn [step resets].
  - unfold loadAudioFile.
    destruct (bool_decide (f ∈ loadedFiles l)) eqn:E1; [exact Hb |].
    destruct (bool_decide (f ∈ loadingPromises l)) eqn:E2; [exact Hb |].
    cbn [started loadedFiles loadingPromises]. rewrite count_app.
    apply bool_decide_eq_false in E1. apply bool_decide_eq_false in E2.
    destruct (decide (f = filePath)) as [-> | Hne].
    + rewrite (bool_decide_eq_true_2 (filePath ∈ _ ∪ ({[filePath]} ∪ _)))
        by set_solver.
      rewrite (bool_decide_eq_false_2 (filePath ∈ loadedFiles l ∪ _)) in Hb
        by set_solver.
      unfold count at 2. cbn. rewrite bool_decide_eq_true_2 by reflexivity.
      cbn. lia.
    + unfold count at 2. cbn. rewrite bool_decide_eq_false_2 by exact Hne.
      cbn.
      destruct (bool_decide (filePath ∈ loadedFiles l ∪ loadingPromises l)) eqn:E.
      * apply bool_decide_eq_true in E.
        rewrite bool_decide_eq_true_2 by set_solver. lia.
      * apply bool_decide_eq_false in E.
        rewrite bool_decide_eq_false_2 by set_solver. lia.
  - unfold settle. destruct (bool_decide (f ∈ inFlight l));
      [| destruct ok; [exact Hb |]; destruct (bool_decide (f = filePath)); lia].
    cbn [started loadedFiles loadingPromises].
    destruct ok.
    + destruct (decide (f = filePath)) as [-> | Hne].
      * rewrite bool_decide_eq_true_2 by set_solver.
        destruct (bool_decide _) in Hb; lia.
      * destruct (bool_decide (filePath ∈ loadedFiles l ∪ loadingPromises l)) eqn:E.
        -- apply bool_decide_eq_true in E.
           rewrite bool_decide_eq_true_2 by set_solver. lia.
        -- apply bool_decide_eq_false in E.
           rewrite bool_decide_eq_false_2 by set_solver. lia.
    + destruct (decide (f = filePath)) as [-> | Hne].
      * rewrite (bool_decide_eq_true_2 (filePath = filePath)) by reflexivity.
        destruct (bool_decide _) in Hb; destruct (bool_decide _); lia.
      * rewrite (bool_decide_eq_false_2 (f = filePath)) by exact Hne.
        destruct (bool_decide (filePath ∈ loadedFiles l ∪ loadingPromises l)) eqn:E.
        -- apply bool_decide_eq_true in E.
           rewrite bool_decide_eq_true_2 by set_solver. lia.
        -- apply bool_decide_eq_false in E.
           rewrite bool_decide_eq_false_2 by set_solver. lia.
  - cbn [cleanup started loadedFiles loadingPromises].
    rewrite (bool_decide_eq_false_2 (filePath ∈ ∅ ∪ ∅)) by set_solver.
    destruct (bool_decide _) in Hb; lia.
Qed.

Lemma run_budget filePath events n l :
  budget filePath n l ->
  budget filePath (n + length (List.filter (resets filePath) events)) (run events l).
Proof.
  unfold run. revert n l. induction events as [| e rest IH]; intros n l Hb.
  - cbn. by rewrite Nat.add_0_r.
  - cbn [fold_left List.filter].
    pose proof (step_budget filePath e n l Hb) as Hstep.
    destruct (resets filePath e).
    + cbn [length]. rewrite Nat.add_succ_r. apply (IH (S n)). exact Hstep.
    + by apply IH.
Qed.

(** X23.  The loader from its construction, through any loads, settlements and
    cleanups.  A file is fetched once; it is fetched again only after a
    fetch of it has failed or after a cleanup: the number of its fetches is
    at most one more than the number of those events.  A load of a file that
    is loaded or loading starts no fetch. *)
Theorem loader_fetches_each_file_once events filePath :
  let l := run events new in
  (count filePath (started l)
   <= 1 + length (List.filter (resets filePath) events))%nat
  /\ (isFileLoaded filePath l = true \/ filePath ∈ loadingPromises l ->
      loadAudioFile filePath l = l)
  /\ (isFileLoaded filePath l = false -> filePath ∉ loadingPromises l ->
      started (loadAudioFile filePath l) = (started l ++ [filePath])%list
      /\ filePath ∈ loadingPromises (loadAudioFile filePath l)).
Proof.
  intros l. split; [| split].
  - assert (H0 : budget filePath 0 new).
    { unfold budget. cbn. rewrite bool_decide_eq_false_2 by set_solver.
      unfold count. cbn. lia. }
    pose proof (run_budget filePath events 0 new H0) as Hb.
    unfold budget in Hb. fold l in Hb.
    destruct (bool_decide _) in Hb; lia.
  - unfold isFileLoaded, loadAudioFile. intros [Hl | Hp].
    + rewrite Hl. reflexivity.
    + destruct (bool_decide (filePath ∈ loadedFiles l)); [reflexivity |].
      rewrite bool_decide_eq_true_2 by exact Hp. reflexivity.
  - unfold isFileLoaded, loadAudioFile. intros Hl Hp. rewrite Hl.
    rewrite bool_decide_eq_false_2 by exact Hp. cbn. split; [reflexivity |].
    set_solver.
Qed.

Lemma getAllAudioFiles_from entries files :
  NoDup files -> EmptyString ∉ files ->
  let result := fold_left addFile entries files in
  NoDup result /\ (EmptyString ∉ result)
  /\ (forall f, f ∈ files -> f ∈ result)
  /\ (forall e, e ∈ entries -> AudioConfig.file (snd e) <> EmptyString ->
        AudioConfig.file (snd e) ∈ result)
  /\ (forall f, f ∈ result ->
        f ∈ files \/ exists e, e ∈ entries /\ AudioConfig.file (snd e) = f).
Proof.
  revert files. induction entries as [| e rest IH]; intros files Hnd Hne.
  - cbn. split; [exact Hnd |]. split; [exact Hne |]. split; [auto |].
    split; [| auto]. intros e He. by apply elem_of_nil in He.
  - cbn [fold_left]. cbn zeta.
    assert (Hadd : addFile files e
                   = if bool_decide ((AudioConfig.file (snd e) <> EmptyString)
                                     /\ (AudioConfig.file (snd e) ∉ files))
                     then (files ++ [AudioConfig.file (snd e)])%list
                     else files) by reflexivity.
    rewrite Hadd. clear Hadd.
    destruct (bool_decide ((AudioConfig.file (snd e) <> EmptyString)
                           /\ (AudioConfig.file (snd e) ∉ files))) eqn:E.
    + apply bool_decide_eq_true in E as [Hfile Hnew].
      destruct (IH (files ++ [AudioConfig.file (snd e)])%list)
        as (H1 & H2 & H3 & H4 & H5).
      { apply NoDup_app. split; [exact Hnd |]. split; [| apply NoDup_singleton].
        intros x Hx Hx'. apply list_elem_of_singleton in Hx'. by subst x. }
      { intros Hin. apply elem_of_app in Hin as [Hin | Hin]; [contradiction |].
        apply list_elem_of_singleton in Hin. congruence. }
      split; [exact H1 |]. split; [exact H2 |]. split; [| split].
      * intros f Hf. apply H3, elem_of_app. by left.
      * intros e' He' Hf'. apply elem_of_cons in He' as [-> | He'].
        -- apply H3, elem_of_app. right. by apply list_elem_of_singleton.
        -- by apply H4.
      * intros f Hf. destruct (H5 f Hf) as [Hin | (e' & He' & <-)].
        -- apply elem_of_app in Hin as [Hin | Hin]; [by left |].
           apply list_elem_of_singleton in Hin. right. exists e.
           split; [apply elem_of_cons; by left | by symmetry].
        -- right. exists e'. split; [apply elem_of_cons; by right | reflexivity].
    + apply bool_decide_eq_false in E.
      destruct (IH files Hnd Hne) as (H1 & H2 & H3 & H4 & H5).
      split; [exact H1 |]. split; [exact H2 |]. split; [exact H3 |]. split.
      * intros e' He' Hf'. apply elem_of_cons in He' as [-> | He'];
          [| by apply H4].
        apply H3. destruct (decide (AudioConfig.file (snd e) ∈ files));
          [assumption |]. exfalso. apply E. by split.
      * intros f Hf. destruct (H5 f Hf) as [Hin | (e' & He' & <-)]; [by left |].
        right. exists e'. split; [apply elem_of_cons; by right | reflexivity].
Qed.

Lemma addFile_length entries files :
  (length (fold_left addFile entries files) <= length files + length entries)%nat.
Proof.
  revert files. induction entries as [| e rest IH]; intros files;
    cbn [fold_left length]; [lia |].
  assert (Hadd : (length (addFile files e) <= S (length files))%nat).
  { unfold addFile. cbn zeta. destruct (bool_decide _); [| lia].
    rewrite length_app. cbn. lia. }
  specialize (IH (addFile files e)). lia.
Qed.

(** X24.  The list of files that preloadAll loads: every file that a note of the
    map names, each of them once, and nothing else. *)
Theorem preload_list_covers_notes entries :
  NoDup (getAllAudioFiles entries)
  /\ (forall note mapping, (note, mapping) ∈ entries ->
        AudioConfig.file mapping <> EmptyString ->
        AudioConfig.file mapping ∈ getAllAudioFiles entries)
  /\ (forall f, f ∈ getAllAudioFiles entries ->
        exists note mapping, (note, mapping) ∈ entries
                             /\ AudioConfig.file mapping = f)
  /\ (length (getAllAudioFiles entries) <= length entries)%nat.
Proof.
  destruct (getAllAudioFiles_from entries [] (NoDup_nil_2 (A := string)))
    as (H1 & _ & _ & H4 & H5); [apply not_elem_of_nil |].
  fold (getAllAudioFiles entries) in H1, H4, H5.
  split; [exact H1 |]. split; [| split].
  - intros note mapping Hin. apply (H4 (note, mapping) Hin).
  - intros f Hf. destruct (H5 f Hf) as [Hin | ([note mapping] & He & <-)];
      [by apply elem_of_nil in Hin |].
    by exists note, mapping.
  - apply (addFile_length entries []).
Qed.

End Loader.

